(** * Rollback mitigation of go-dcp: a shallow embedding and its properties

    The development follows [couchbase/rollback_mitigation.go].  The
    [rollbackMitigation] struct becomes a record, its methods become
    computations in a small monad that threads the struct, collects what
    the method logs, publishes and spawns, and may panic or be left
    waiting on a channel.  The cluster client (gocbcore) is outside the
    repository: what it answers is an argument of the method that asks. *)

From stdpp Require Import gmap strings list fin_maps.

Open Scope Z_scope.

(** ** Go integers *)

Module GoInt.

(** [int] is 64 bits wide on the platforms the library is built for;
    signed arithmetic wraps around. *)
Definition bits : Z := 64.
Definition min_int : Z := - 2 ^ (bits - 1).
Definition max_int : Z := 2 ^ (bits - 1) - 1.

Definition wrap (x : Z) : Z := (x - min_int) mod 2 ^ bits + min_int.

(** [x++] on an [int]. *)
Definition incr (x : Z) : Z := wrap (x + 1).

Definition in_range (x : Z) : Prop := min_int <= x <= max_int.

End GoInt.

(** ** Errors and panics *)

(** The error values the code tells apart: the two gocbcore sentinels it
    tests with [errors.Is], any other error, and an error that wraps
    another one. *)
Inductive Error : Type :=
| ErrTemporaryFailure
| ErrInvalidReplica
| ErrOther (msg : string)
| ErrWrap (msg : string) (inner : Error).

Global Instance Error_eq_dec : EqDecision Error.
Proof. solve_decision. Defined.

(** [errors.Is(err, target)]: [err] or an error it wraps is [target]. *)
Fixpoint errors_Is (err target : Error) : bool :=
  bool_decide (err = target) ||
  match err with
  | ErrWrap _ inner => errors_Is inner target
  | _ => false
  end.

(** What a panic carries: the error handed to [panic(err)], or a run-time
    error of the language (index out of range, nil dereference, ...). *)
Inductive PanicValue : Type :=
| PanicError (e : Error)
| PanicRuntime (what : string).

(** ** Data *)

(** [vbUUIDAndSeqNo] and its setters.  The slices hold one pointer per
    slot, allocated by [reset] and never shared between slots, so a slot
    is modelled by its value and a write through the pointer by replacing
    the value in place. *)
Record vbUUIDAndSeqNo : Type := mkSlot {
  vbUUID : Z;        (* gocbcore.VbUUID, uint64 *)
  seqNo : Z;         (* gocbcore.SeqNo, uint64 *)
  absent : bool
}.

Definition SetAbsent (v : vbUUIDAndSeqNo) : vbUUIDAndSeqNo :=
  mkSlot (vbUUID v) (seqNo v) true.

Definition IsAbsent (v : vbUUIDAndSeqNo) : bool := absent v.

Definition SetSeqNo (s : Z) (v : vbUUIDAndSeqNo) : vbUUIDAndSeqNo :=
  mkSlot (vbUUID v) s (absent v).

Definition SetVbUUID (u : Z) (v : vbUUIDAndSeqNo) : vbUUIDAndSeqNo :=
  mkSlot u (seqNo v) (absent v).

(** [&vbUUIDAndSeqNo{}] *)
Definition zeroSlot : vbUUIDAndSeqNo := mkSlot 0 0 false.

(** What gocbcore's [*ConfigSnapshot] offers to this file: the two private
    revision fields read by reflection, [NumReplicas()] and
    [VbucketToServer(vbID, replicaIdx)]. *)
Record ConfigSnapshot : Type := mkSnapshot {
  revEpoch : Z;
  revID : Z;
  NumReplicas : Error + Z;
  VbucketToServer : Z -> Z -> Error + Z
}.

(** [gocbcore.ObserveVbResult], fields [PersistSeqNo] and [VbUUID]. *)
Record ObserveVbResult : Type := mkObserveVbResult {
  result_PersistSeqNo : Z;
  result_VbUUID : Z
}.

(** [gocbcore.FailoverEntry], fields [VbUUID] and [SeqNo]. *)
Record FailoverEntry : Type := mkFailoverEntry {
  failover_VbUUID : Z;
  failover_SeqNo : Z
}.

(** [models.PersistSeqNo], the payload published on the bus. *)
Record PersistSeqNo : Type := mkPersistSeqNo {
  VbID : Z;
  SeqNo : Z
}.

(** Modelled from the spec: [wrapper.ConcurrentSwissMap] is not among the
    sources; the code uses it as a map from vBucket id to a value with
    [Load], [Store] and [Range], which is what a [gmap] with lookup,
    insert and a traversal of its entries gives.  [Range] visits each
    entry once, in an order the code does not rely on.

    The two channels [observeCloseCh] and [observeCloseDoneCh] carry the
    stop handshake between [reconfigure] or [Stop] and the goroutine that
    runs the loop of [startObserve].  Each handshake puts one token into
    each channel and takes it out again, so both are empty whenever a
    method is entered; what decides the handshake is whether a goroutine
    is there to answer.  [observers] is that: the number of goroutines
    that are in the loop of [startObserve] (lines 193 to 218).  It is not
    a field of the Go struct. *)
Record rollbackMitigation : Type := mkRM {
  configSnapshot : option ConfigSnapshot;
  persistedSeqNos : gmap Z (list vbUUIDAndSeqNo);
  vbUUIDMap : gmap Z Z;
  configWatchTimer : bool;     (* the ticker pointer is non-nil *)
  observeTimer : bool;         (* the ticker pointer is non-nil *)
  vbIds : list Z;
  activeGroupID : Z;
  closed : bool;
  observers : nat              (* goroutines in the loop of startObserve *)
}.

Definition set_configSnapshot (c : option ConfigSnapshot) (r : rollbackMitigation) :=
  mkRM c (persistedSeqNos r) (vbUUIDMap r) (configWatchTimer r) (observeTimer r)
       (vbIds r) (activeGroupID r) (closed r) (observers r).
Definition set_persistedSeqNos (m : gmap Z (list vbUUIDAndSeqNo)) (r : rollbackMitigation) :=
  mkRM (configSnapshot r) m (vbUUIDMap r) (configWatchTimer r) (observeTimer r)
       (vbIds r) (activeGroupID r) (closed r) (observers r).
Definition set_vbUUIDMap (m : gmap Z Z) (r : rollbackMitigation) :=
  mkRM (configSnapshot r) (persistedSeqNos r) m (configWatchTimer r) (observeTimer r)
       (vbIds r) (activeGroupID r) (closed r) (observers r).
Definition set_configWatchTimer (b : bool) (r : rollbackMitigation) :=
  mkRM (configSnapshot r) (persistedSeqNos r) (vbUUIDMap r) b (observeTimer r)
       (vbIds r) (activeGroupID r) (closed r) (observers r).
Definition set_observeTimer (b : bool) (r : rollbackMitigation) :=
  mkRM (configSnapshot r) (persistedSeqNos r) (vbUUIDMap r) (configWatchTimer r) b
       (vbIds r) (activeGroupID r) (closed r) (observers r).
Definition set_activeGroupID (g : Z) (r : rollbackMitigation) :=
  mkRM (configSnapshot r) (persistedSeqNos r) (vbUUIDMap r) (configWatchTimer r)
       (observeTimer r) (vbIds r) g (closed r) (observers r).
Definition set_closed (b : bool) (r : rollbackMitigation) :=
  mkRM (configSnapshot r) (persistedSeqNos r) (vbUUIDMap r) (configWatchTimer r)
       (observeTimer r) (vbIds r) (activeGroupID r) b (observers r).

Definition set_observers (n : nat) (r : rollbackMitigation) :=
  mkRM (configSnapshot r) (persistedSeqNos r) (vbUUIDMap r) (configWatchTimer r)
       (observeTimer r) (vbIds r) (activeGroupID r) (closed r) n.

(** [NewRollbackMitigation] *)
Definition NewRollbackMitigation (ids : list Z) : rollbackMitigation :=
  mkRM None ∅ ∅ false false ids 0 false 0.

(** ** Effects *)

Inductive Level : Type := LDebug | LInfo | LError.

(** What a method does to the world besides changing the struct, in the
    order it happens.  A log entry keeps the level and the format string. *)
Inductive Effect : Type :=
| Log (lvl : Level) (fmt : string)
| Publish (ev : PersistSeqNo)            (* bus.Publish(PersistSeqNoChangedBusEventName, ev) *)
| ObserveVb (vbID replica expected : Z)  (* agent.ObserveVb issued *)
| StopObserver                           (* observeTimer.Stop(); observeCloseCh <- struct{}{} *)
| StopConfigWatch                        (* configWatchTimer.Stop() *)
| GoStartObserve (groupID : Z)           (* go r.startObserve(groupID) *)
| GoConfigWatch.                         (* the config watch goroutine of Start *)

(** The outcome of running a method on a struct: it returns a value, it
    panics, or it is left waiting on a channel on which nothing that the
    run has set up will answer; in each case the struct and the effects
    so far are known.  A method that waits has not returned: what comes
    after the wait in its body has not happened. *)
Inductive Res (A : Type) : Type :=
| Ret (a : A) (r : rollbackMitigation) (out : list Effect)
| Panicked (p : PanicValue) (r : rollbackMitigation) (out : list Effect)
| Blocked (r : rollbackMitigation) (out : list Effect).
Arguments Ret {A} a r out.
Arguments Panicked {A} p r out.
Arguments Blocked {A} r out.

Definition M (A : Type) : Type := rollbackMitigation -> Res A.

Definition ret {A} (a : A) : M A := fun r => Ret a r [].

(** The outcome [x] with the effects [o1] that came before it. *)
Definition after {A} (o1 : list Effect) (x : Res A) : Res A :=
  match x with
  | Ret a r o => Ret a r (o1 ++ o)
  | Panicked p r o => Panicked p r (o1 ++ o)
  | Blocked r o => Blocked r (o1 ++ o)
  end.

Definition bind {A B} (m : M A) (k : A -> M B) : M B :=
  fun r =>
    match m r with
    | Ret a r1 o1 => after o1 (k a r1)
    | Panicked p r1 o1 => Panicked p r1 o1
    | Blocked r1 o1 => Blocked r1 o1
    end.

Definition get : M rollbackMitigation := fun r => Ret r r [].
Definition modify (f : rollbackMitigation -> rollbackMitigation) : M unit :=
  fun r => Ret tt (f r) [].
Definition emit (e : Effect) : M unit := fun r => Ret tt r [e].
Definition panic {A} (p : PanicValue) : M A := fun r => Panicked p r [].
Definition block {A} : M A := fun r => Blocked r [].

Notation "'let*' x ':=' m 'in' k" := (bind m (fun x => k))
  (at level 10, x name, m at level 100, k at level 200).
Notation "m ;;; k" := (bind m (fun _ => k))
  (at level 100, k at level 200, right associativity).

Definition state_of {A} (x : Res A) : rollbackMitigation :=
  match x with Ret _ r _ => r | Panicked _ r _ => r | Blocked r _ => r end.
Definition effects_of {A} (x : Res A) : list Effect :=
  match x with Ret _ _ o => o | Panicked _ _ o => o | Blocked _ o => o end.
Definition returned {A} (x : Res A) : bool :=
  match x with Ret _ _ _ => true | _ => false end.
Definition blocked {A} (x : Res A) : bool :=
  match x with Blocked _ _ => true | _ => false end.

(** ** getRevEpochAndID, isConfigSnapshotNewerThan *)

Definition getRevEpochAndID (snapshot : ConfigSnapshot) : Z * Z :=
  (revEpoch snapshot, revID snapshot).

(** The method reads [r.configSnapshot], which its only caller has checked
    to be non-nil; here the installed snapshot is the first argument. *)
Definition isConfigSnapshotNewerThan (installed newConfigSnapshot : ConfigSnapshot) : bool :=
  let '(oldEpoch, oldRevID) := getRevEpochAndID installed in
  let '(newEpoch, newRevID) := getRevEpochAndID newConfigSnapshot in
  if newEpoch <? oldEpoch then false
  else if newEpoch =? oldEpoch then
    if newRevID =? oldRevID then false
    else if newRevID <? oldRevID then false
    else true
  else true.

(** ** getMinSeqNo *)

(** The first loop: the index of the first slot that is not absent, or
    [-1] when the loop ends without a [break]. *)
Fixpoint firstPresent (idx : nat) (replicas : list vbUUIDAndSeqNo) : Z :=
  match replicas with
  | [] => -1
  | replica :: rest =>
      if negb (IsAbsent replica) then Z.of_nat idx
      else firstPresent (S idx) rest
  end.

(** The second loop, over [replicas[startIndex+1:]], with the two locals
    [vbUUID] and [minSeqNo]. *)
Fixpoint minLoop (vbUUID0 minSeqNo : Z) (rest : list vbUUIDAndSeqNo) : M Z :=
  match rest with
  | [] => ret minSeqNo
  | replica :: rest' =>
      if IsAbsent replica then minLoop vbUUID0 minSeqNo rest'
      else if negb (vbUUID0 =? vbUUID replica) then
        emit (Log LDebug "vbUUID mismatch %v != %v for %v index of %v") ;;;
        ret 0
      else if minSeqNo >? seqNo replica then minLoop vbUUID0 (seqNo replica) rest'
      else minLoop vbUUID0 minSeqNo rest'
  end.

Definition getMinSeqNo (vbID : Z) : M Z :=
  let* r := get in
  let replicas := default [] (persistedSeqNos r !! vbID) in
  let startIndex := firstPresent 0 replicas in
  if startIndex =? -1 then
    emit (Log LError "all replicas absent") ;;;
    ret 0
  else
    match replicas !! Z.to_nat startIndex with
    | None => panic (PanicRuntime "index out of range")
    | Some first =>
        minLoop (vbUUID first) (seqNo first) (drop (Z.to_nat (startIndex + 1)) replicas)
    end.

(** ** Range *)

(** Modelled from the spec: [Range] of [wrapper.ConcurrentSwissMap], which
    is not among the sources.  The code uses it to do something "for every
    (vbID, replicaIdx)": the closure sees each entry [kvs] of the map once,
    may change the struct and the locals [acc] it captures, and stops the
    traversal by returning [false]. *)
Fixpoint rangeEntries {V S : Type} (f : Z -> V -> S -> M (S * bool))
    (kvs : list (Z * V)) (acc : S) : M S :=
  match kvs with
  | [] => ret acc
  | (k, v) :: rest =>
      let* step := f k v acc in
      if snd step then rangeEntries f rest (fst step) else ret (fst step)
  end.

Definition Range {V S : Type} (m : gmap Z V) (f : Z -> V -> S -> M (S * bool))
    (acc : S) : M S :=
  rangeEntries f (map_to_list m) acc.

(** ** markAbsentInstances *)

Definition uint32 (x : Z) : Z := x mod 2 ^ 32.

(** The loop over one vBucket's slots.  It yields the slots as the writes
    through their pointers leave them, what was logged, and the error
    that made the closure stop, if any. *)
Fixpoint markAbsentSlots (snapshot : ConfigSnapshot) (vbID : Z) (idx : nat)
    (replicas : list vbUUIDAndSeqNo)
    : list vbUUIDAndSeqNo * list Effect * option Error :=
  match replicas with
  | [] => ([], [], None)
  | replica :: rest =>
      match VbucketToServer snapshot vbID (uint32 (Z.of_nat idx)) with
      | inl err =>
          if errors_Is err ErrInvalidReplica then
            let '(rest', out, e) := markAbsentSlots snapshot vbID (S idx) rest in
            (SetAbsent replica :: rest',
             Log LDebug "invalid replica of vbId: %v, replica: %v, err: %v" :: out, e)
          else (replica :: rest, [], Some err)
      | inr serverIndex =>
          if serverIndex <? 0 then
            let '(rest', out, e) := markAbsentSlots snapshot vbID (S idx) rest in
            (SetAbsent replica :: rest',
             Log LDebug "invalid server index of vbId: %v, replica: %v, serverIndex: %v" :: out, e)
          else
            let '(rest', out, e) := markAbsentSlots snapshot vbID (S idx) rest in
            (replica :: rest', out, e)
      end
  end.

Definition storeReplicas (vbID : Z) (replicas : list vbUUIDAndSeqNo) : M unit :=
  modify (fun r => set_persistedSeqNos (<[vbID := replicas]> (persistedSeqNos r)) r).

Definition emitAll (out : list Effect) : M unit := fun r => Ret tt r out.

(** The closure handed to [Range]; [outerError] is the local it captures. *)
Definition markAbsentEntry (vbID : Z) (replicas : list vbUUIDAndSeqNo)
    (outerError : option Error) : M (option Error * bool) :=
  let* r := get in
  match configSnapshot r with
  | None =>
      match replicas with
      | [] => ret (outerError, true)
      | _ :: _ => panic (PanicRuntime "nil pointer dereference")
      end
  | Some snapshot =>
      let '(replicas', out, e) := markAbsentSlots snapshot vbID 0 replicas in
      emitAll out ;;;
      storeReplicas vbID replicas' ;;;
      match e with
      | Some err => ret (Some err, false)
      | None => ret (outerError, true)
      end
  end.

Definition markAbsentInstances : M (option Error) :=
  let* r := get in
  Range (persistedSeqNos r) markAbsentEntry None.

(** ** loadVbUUIDMap, startObserve *)

Definition storeVbUUID (vbID vbUUID0 : Z) : M unit :=
  modify (fun r => set_vbUUIDMap (<[vbID := vbUUID0]> (vbUUIDMap r)) r).

(** [GetFailoverLogs] is the client's answer for each vBucket. *)
Definition loadVbUUIDEntry (GetFailoverLogs : Z -> Error + list FailoverEntry)
    (vbID : Z) (_ : list vbUUIDAndSeqNo) (_ : unit) : M (unit * bool) :=
  match GetFailoverLogs vbID with
  | inl err => panic (PanicError err)
  | inr failoverLogs =>
      match failoverLogs with
      | [] => panic (PanicRuntime "index out of range")
      | first :: _ =>
          storeVbUUID vbID (failover_VbUUID first) ;;;
          emit (Log LDebug "observing vbID: %v, vbUUID: %v, failoverInfo: %v") ;;;
          ret (tt, true)
      end
  end.

Definition loadVbUUIDMap (GetFailoverLogs : Z -> Error + list FailoverEntry) : M unit :=
  let* r := get in
  Range (persistedSeqNos r) (loadVbUUIDEntry GetFailoverLogs) tt.

(** [startObserve] up to its loop: a fresh [vbUUIDMap], loaded from the
    failover logs, then the ticker; with that the goroutine is in its
    loop, one of the [observers]. *)
Definition startObserveInit (GetFailoverLogs : Z -> Error + list FailoverEntry) : M unit :=
  modify (set_vbUUIDMap ∅) ;;;
  loadVbUUIDMap GetFailoverLogs ;;;
  modify (set_observeTimer true) ;;;
  modify (fun r => set_observers (S (observers r)) r).

(** ** reset, reconfigure *)

(** [make([]*vbUUIDAndSeqNo, len)], the [makeslice] of the Go runtime for
    elements of pointer size: it panics when [len] is negative and when
    the slice would take more than [maxAlloc] bytes, which is [2^48] on
    the 64-bit platforms where heap addresses have 48 bits.  Within that
    limit the heap is taken to be large enough: running out of memory is
    a fatal error of the process, not a panic of this code. *)
Definition maxAlloc : Z := 2 ^ 48.
Definition pointerSize : Z := 8.

Definition makeslice_panics (len : Z) : bool :=
  (len <? 0) || (len * pointerSize >? maxAlloc).

Fixpoint resetLoop (replicas : Z) (ids : list Z) : M unit :=
  match ids with
  | [] => ret tt
  | vbID :: rest =>
      let len := GoInt.wrap (replicas + 1) in
      if makeslice_panics len then panic (PanicRuntime "makeslice: len out of range")
      else
        storeReplicas vbID (replicate (Z.to_nat len) zeroSlot) ;;;
        resetLoop replicas rest
  end.

Definition reset : M unit :=
  let* r := get in
  match configSnapshot r with
  | None => panic (PanicRuntime "nil pointer dereference")
  | Some snapshot =>
      match NumReplicas snapshot with
      | inl err => panic (PanicError err)
      | inr replicas =>
          modify (set_persistedSeqNos ∅) ;;;
          resetLoop replicas (vbIds r)
      end
  end.

Definition reconfigure_marker : Effect := Log LDebug "reconfigure triggerred".

(** What line 258 logs, right after [activeGroupID++]. *)
Definition generation_marker : Effect :=
  Log LInfo "new cluster config received, groupId = %v".

(** The stop handshake, lines 251 to 253 of [reconfigure] and 373 to 375
    of [Stop]: the ticker is stopped, a token is sent on [observeCloseCh]
    and one is awaited on [observeCloseDoneCh].  A goroutine in the loop
    of [startObserve] takes the token, logs, answers on
    [observeCloseDoneCh] and returns (lines 213 to 216).  With no
    goroutine in that loop the token stays in the channel and the caller
    waits: the run is followed no further (an observer that has been
    spawned and has not reached its loop yet is not among the
    [observers]). *)
Definition closeObserver : M unit :=
  emit StopObserver ;;;
  let* r := get in
  match observers r with
  | O => block
  | S n =>
      emit (Log LDebug "observe close triggered") ;;;
      modify (set_observers n)
  end.

(** The second half of [reconfigure]: the replica vectors are rebuilt
    for the installed snapshot and a new observer is spawned. *)
Definition reconfigureRebuild : M unit :=
  reset ;;;
  let* err := markAbsentInstances in
  match err with
  | Some e => panic (PanicError e)
  | None =>
      let* r := get in
      emit (GoStartObserve (activeGroupID r))
  end.

Definition reconfigure : M unit :=
  emit reconfigure_marker ;;;
  let* r := get in
  (if observeTimer r then
     closeObserver ;;; emit (Log LDebug "observe close done")
   else ret tt) ;;;
  modify (fun r => set_activeGroupID (GoInt.incr (activeGroupID r)) r) ;;;
  emit generation_marker ;;;
  reconfigureRebuild.

(** ** configWatch *)

(** [res] is what [client.GetConfigSnapshot()] answers. *)
Definition configWatch (res : Error + ConfigSnapshot) : M unit :=
  let* r := get in
  match res with
  | inr snapshot =>
      if match configSnapshot r with
         | None => true
         | Some installed => isConfigSnapshotNewerThan installed snapshot
         end
      then modify (set_configSnapshot (Some snapshot)) ;;; reconfigure
      else ret tt
  | inl _ => ret tt
  end.

(** ** observe *)

(** The callback that [observe] hands to [observeVbID], run on the answer
    [res] of the cluster. *)
Definition observeCallback (vbID replica groupID vbUUID0 : Z)
    (res : Error + ObserveVbResult) : M unit :=
  let* r := get in
  if closed r || negb (activeGroupID r =? groupID) then
    emit (Log LDebug "closed(%v) or groupID(%v!=%v) changed on observe")
  else
    match res with
    | inl err =>
        if errors_Is err ErrTemporaryFailure then
          emit (Log LError "error while observe: %v")
        else panic (PanicError err)
    | inr result =>
        let loaded := persistedSeqNos r !! vbID in
        let replicas := default [] loaded in
        (if bool_decide (is_Some loaded) then ret tt
         else emit (Log LError "replicas of vbID: %v not found")) ;;;
        if Z.of_nat (length replicas) >? replica then
          match (if replica <? 0 then None else replicas !! Z.to_nat replica) with
          | None => panic (PanicRuntime "index out of range")
          | Some slot =>
              storeReplicas vbID
                (<[Z.to_nat replica :=
                     SetVbUUID (result_VbUUID result)
                       (SetSeqNo (result_PersistSeqNo result) slot)]> replicas) ;;;
              let* minSeqNo := getMinSeqNo vbID in
              emit (Publish (mkPersistSeqNo vbID minSeqNo)) ;;;
              if negb (vbUUID0 =? result_VbUUID result) then
                storeVbUUID vbID (result_VbUUID result)
              else ret tt
          end
        else emit (Log LError "replica: %v not found")
    end.

(** [observe], through [observeVbID]: the request is issued; when the
    agent refuses it on the spot ([issueErr]), the error is logged and the
    callback runs at once with it. *)
Definition observe (vbID replica groupID vbUUID0 : Z) (issueErr : option Error) : M unit :=
  emit (ObserveVb vbID replica vbUUID0) ;;;
  match issueErr with
  | Some err =>
      emit (Log LError "observeVBID error for vbId: %v, replica:%v, vbUUID: %v, err: %v") ;;;
      observeCallback vbID replica groupID vbUUID0 (inl err)
  | None => ret tt
  end.

(** One tick of the loop of [startObserve]. *)
Fixpoint observeSlots (issue : Z -> Z -> option Error) (groupID vbID : Z) (idx : nat)
    (replicas : list vbUUIDAndSeqNo) : M (unit * bool) :=
  match replicas with
  | [] => ret (tt, true)
  | replica :: rest =>
      if IsAbsent replica then observeSlots issue groupID vbID (S idx) rest
      else
        let* r := get in
        if closed r || negb (activeGroupID r =? groupID) then
          emit (Log LDebug "closed(%v) or groupID(%v!=%v) changed on startObserve") ;;;
          ret (tt, false)
        else
          let vbUUID0 := default 0 (vbUUIDMap r !! vbID) in
          observe vbID (Z.of_nat idx) groupID vbUUID0 (issue vbID (Z.of_nat idx)) ;;;
          observeSlots issue groupID vbID (S idx) rest
  end.

Definition observeTick (issue : Z -> Z -> option Error) (groupID : Z) : M unit :=
  let* r := get in
  Range (persistedSeqNos r)
    (fun vbID replicas (_ : unit) => observeSlots issue groupID vbID 0 replicas) tt.

(** ** Start, Stop *)

(** What the agent does with [WaitForConfigSnapshot] and the callback
    it is handed.  [result] is the [*WaitForConfigSnapshotResult] the
    callback gets, [None] for nil, and holds the [Snapshot] pointer,
    again [None] for nil. *)
Inductive FirstConfig : Type :=
| Refused (err : Error)
    (* the call returns an error; the callback is not invoked *)
| Delivered (result : option (option ConfigSnapshot)) (err : option Error)
    (* the callback is invoked with (result, err) on a goroutine of the agent *)
| DeliveredInline (result : option (option ConfigSnapshot)) (err : option Error).
    (* the callback is invoked with (result, err) before the call returns *)

(** The callback of lines 334 to 340, up to its send on [ch]. *)
Definition firstConfigCallback (result : option (option ConfigSnapshot)) : M unit :=
  match result with
  | None => panic (PanicRuntime "nil pointer dereference")
  | Some snapshot => modify (set_configSnapshot snapshot)
  end.

(** Modelled from the spec: [AsyncOp] ([NewAsyncOp], [Wait], [Resolve]) is
    not among the sources.  The spec has the wait for the first snapshot
    block until the snapshot or an error arrives: [Wait] hands back the
    error of the call when there is one and otherwise waits for
    [Resolve].

    [ch] is not buffered.  A callback on a goroutine of the agent meets
    the receive of line 348 and the method returns what was sent; a
    callback that runs before the call returns sends while the only
    receiver is still inside that call, and waits. *)
Definition waitFirstConfig (first : FirstConfig) : M (option Error) :=
  match first with
  | Refused err => ret (Some err)
  | Delivered result err => firstConfigCallback result ;;; ret err
  | DeliveredInline result err => firstConfigCallback result ;;; block
  end.

Definition Start (first : FirstConfig) : M unit :=
  emit (Log LInfo "rollback mitigation will start with %v interval") ;;;
  let* err := waitFirstConfig first in
  match err with
  | Some e => emit (Log LError "cannot get first config: %v") ;;; panic (PanicError e)
  | None => reconfigure ;;; emit GoConfigWatch
  end.

(** The goroutine of [Start] creating its ticker. *)
Definition configWatchInit : M unit := modify (set_configWatchTimer true).

Definition Stop : M unit :=
  modify (set_closed true) ;;;
  let* r := get in
  (if observeTimer r then closeObserver else ret tt) ;;;
  (if configWatchTimer r then emit StopConfigWatch else ret tt) ;;;
  emit (Log LInfo "rollback mitigation stopped").

(** ** The specification's words *)

(** The slots of a replica vector that are not absent, and their seqNos. *)
Definition present (s : vbUUIDAndSeqNo) : Prop := absent s = false.

Global Instance present_dec s : Decision (present s).
Proof. unfold present. apply _. Defined.

Definition presentSeqNos (replicas : list vbUUIDAndSeqNo) : list Z :=
  seqNo <$> filter present replicas.

(** [m] is the minimum of the list [l]. *)
Definition is_minimum (m : Z) (l : list Z) : Prop :=
  m ∈ l ∧ ∀ x, x ∈ l → m <= x.

(** The strict order of the specification on (epoch, revId). *)
Definition strictlyNewer (a b : ConfigSnapshot) : Prop :=
  revEpoch a > revEpoch b ∨ (revEpoch a = revEpoch b ∧ revID a > revID b).

(** What [markAbsentInstances] asks the snapshot about a slot: the slot
    is to be marked when [VbucketToServer] answers [ErrInvalidReplica] or
    a negative server index; any other error is fatal. *)
Definition marksAbsent (snapshot : ConfigSnapshot) (vbID : Z) (idx : nat) : bool :=
  match VbucketToServer snapshot vbID (uint32 (Z.of_nat idx)) with
  | inl err => errors_Is err ErrInvalidReplica
  | inr serverIndex => serverIndex <? 0
  end.

Definition fatalError (snapshot : ConfigSnapshot) (vbID : Z) (idx : nat) : option Error :=
  match VbucketToServer snapshot vbID (uint32 (Z.of_nat idx)) with
  | inl err => if errors_Is err ErrInvalidReplica then None else Some err
  | inr _ => None
  end.

(** The vbUUID that [loadVbUUIDMap] takes for a vBucket: that of the
    first entry of its failover log, when the client answers with a log
    that has one. *)
Definition firstVbUUID (GetFailoverLogs : Z → Error + list FailoverEntry) (vbID : Z)
    : option Z :=
  match GetFailoverLogs vbID with
  | inr (first :: _) => Some (failover_VbUUID first)
  | _ => None
  end.

(** How the slots [replicas] of [vbID], the first of which has index
    [idx], relate to what the loop of [markAbsentInstances] leaves: each
    slot is as it was or has been marked because the snapshot said so. *)
Definition slots_marked (snapshot : ConfigSnapshot) (vbID : Z) (idx : nat)
    (replicas replicas' : list vbUUIDAndSeqNo) : Prop :=
  length replicas' = length replicas ∧
  ∀ i s, replicas !! i = Some s →
    ∃ s', replicas' !! i = Some s' ∧
      (s' = s ∨ (s' = SetAbsent s ∧ marksAbsent snapshot vbID (idx + i) = true)).

(** The same when the loop ran to its end: each slot is marked exactly
    when the snapshot says so. *)
Definition slots_marked_all (snapshot : ConfigSnapshot) (vbID : Z) (idx : nat)
    (replicas replicas' : list vbUUIDAndSeqNo) : Prop :=
  length replicas' = length replicas ∧
  ∀ i s, replicas !! i = Some s →
    replicas' !! i =
      Some (if marksAbsent snapshot vbID (idx + i) then SetAbsent s else s).

Definition no_fatal (snapshot : ConfigSnapshot) (vbID : Z) (idx : nat)
    (replicas : list vbUUIDAndSeqNo) : Prop :=
  ∀ i, (i < length replicas)%nat → fatalError snapshot vbID (idx + i) = None.

(** ** The operations of the subsystem *)

(** Everything that runs on the struct: the two exported methods, the two
    goroutines' set-up, and the three kinds of events that arrive while
    the subsystem runs.  Each carries what the cluster client answers.
    A goroutine that a method spawns has done nothing until its set-up
    appears among the operations: the observer that [reconfigure] spawns
    has no ticker and is not in its loop before [OpStartObserveInit]. *)
Inductive Operation : Type :=
| OpStart (first : FirstConfig)
| OpConfigWatchInit
| OpConfigWatch (res : Error + ConfigSnapshot)
| OpStartObserveInit (GetFailoverLogs : Z → Error + list FailoverEntry)
| OpObserveTick (issue : Z → Z → option Error) (groupID : Z)
| OpObserveCallback (vbID replica groupID vbUUID0 : Z) (res : Error + ObserveVbResult)
| OpStop.

Definition run (op : Operation) : M unit :=
  match op with
  | OpStart first => Start first
  | OpConfigWatchInit => configWatchInit
  | OpConfigWatch res => configWatch res
  | OpStartObserveInit GetFailoverLogs => startObserveInit GetFailoverLogs
  | OpObserveTick issue groupID => observeTick issue groupID
  | OpObserveCallback vbID replica groupID vbUUID0 res =>
      observeCallback vbID replica groupID vbUUID0 res
  | OpStop => Stop
  end.

(** A sequence of operations, one after the other; it ends with the
    first that panics or is left waiting. *)
Fixpoint runAll (ops : list Operation) : M unit :=
  match ops with
  | [] => ret tt
  | op :: rest => run op ;;; runAll rest
  end.

Global Instance Level_eq_dec : EqDecision Level.
Proof. solve_decision. Defined.
Global Instance PersistSeqNo_eq_dec : EqDecision PersistSeqNo.
Proof. solve_decision. Defined.
Global Instance Effect_eq_dec : EqDecision Effect.
Proof. solve_decision. Defined.

(** How many times [reconfigure] was entered, read off the effects: it
    logs its marker first thing, and nothing else logs it. *)
Definition reconfigurations (out : list Effect) : nat :=
  length (filter (λ e, e = reconfigure_marker) out).

(** How many times [reconfigure] got to [activeGroupID++], read off the
    effects: line 258 logs right after it, and nothing else logs that. *)
Definition generations (out : list Effect) : nat :=
  length (filter (λ e, e = generation_marker) out).

(** The stop handshake is answered on this struct: there is no ticker,
    so that it is not entered, or a goroutine is in the loop of
    [startObserve]. *)
Definition observerAnswers (r : rollbackMitigation) : bool :=
  if observeTimer r then
    match observers r with
    | O => false
    | S _ => true
    end
  else true.

(** The struct past the handshake. *)
Definition observerClosed (r : rollbackMitigation) : rollbackMitigation :=
  if observeTimer r then set_observers (pred (observers r)) r else r.

(** The struct as [reconfigure] hands it to [reset]: past the handshake,
    with the counter advanced. *)
Definition advanced (r : rollbackMitigation) : rollbackMitigation :=
  set_activeGroupID (GoInt.incr (activeGroupID r)) (observerClosed r).

(** What [reconfigure] emits, past the handshake, before it rebuilds the
    vectors. *)
Definition reconfigure_prefix (r : rollbackMitigation) : list Effect :=
  reconfigure_marker ::
  (if observeTimer r
   then [StopObserver; Log LDebug "observe close triggered"; Log LDebug "observe close done"]
   else []) ++
  [generation_marker].

(** ** Counting reconfigurations *)

(** A computation is [quiet] when it leaves [activeGroupID] alone and
    does not enter [reconfigure]. *)
Definition quiet {A} (m : M A) : Prop :=
  ∀ r, activeGroupID (state_of (m r)) = activeGroupID r ∧
       reconfigurations (effects_of (m r)) = 0%nat ∧
       generations (effects_of (m r)) = 0%nat.

(** A computation is [counted] when [activeGroupID] ends as many
    increments away from where it started as [reconfigure] got to
    [activeGroupID++], which is as often as it was entered, but for an
    entry that was left waiting at the handshake. *)
Definition counted {A} (m : M A) : Prop :=
  ∀ r, let x := m r in
       let n := reconfigurations (effects_of x) in
       let k := generations (effects_of x) in
       activeGroupID (state_of x) = Nat.iter k GoInt.incr (activeGroupID r) ∧
       (k <= n <= S k)%nat ∧
       (blocked x = false → k = n).

(** [at_most n m]: [m] enters [reconfigure] at most [n] times. *)
Definition at_most {A} (n : nat) (m : M A) : Prop :=
  ∀ r, (reconfigurations (effects_of (m r)) <= n)%nat.

(** ** The scenarios of the specification, run on the model *)

Module Scenarios.

(** The agent hands the snapshot to the callback, without an error. *)
Definition delivers (snapshot : ConfigSnapshot) : FirstConfig :=
  Delivered (Some (Some snapshot)) None.

(** Two replicas, every replica of every vBucket on a server. *)
Definition snapshot3 : ConfigSnapshot :=
  mkSnapshot 2 5 (inr 2) (fun _ idx => inr idx).

(** The same routing under revisions older than, and newer than, (2, 5). *)
Definition snapshot_older : ConfigSnapshot :=
  mkSnapshot 2 4 (inr 2) (fun _ idx => inr idx).
Definition snapshot_newer : ConfigSnapshot :=
  mkSnapshot 3 0 (inr 2) (fun _ idx => inr idx).

(** Replica 2 of vBucket 7 is invalid, vBucket 9 has no replica at all,
    and the routing of vBucket 13 cannot be read. *)
Definition snapshot_holes : ConfigSnapshot :=
  mkSnapshot 2 6 (inr 2)
    (fun vbID idx =>
       if vbID =? 9 then inl (ErrWrap "vbucket 9" ErrInvalidReplica)
       else if (vbID =? 7) && (idx =? 2) then inl ErrInvalidReplica
       else if vbID =? 13 then inl (ErrOther "invalid vbucket map")
       else if (vbID =? 42) && (idx =? 1) then inr (-1)
       else inr idx).

(** One vBucket, id 42, two replicas, all present, generation 1, its
    observer in its loop. *)
Definition r0 : rollbackMitigation :=
  mkRM (Some snapshot3) {[ 42 := replicate 3 zeroSlot ]} {[ 42 := 0xAAAA ]}
       true true [42] 1 false 1.

(** After the three callbacks of the convergent scenario. *)
Definition convergent : list vbUUIDAndSeqNo :=
  [mkSlot 0xAAAA 100 false; mkSlot 0xAAAA 120 false; mkSlot 0xAAAA 110 false].
Definition r_convergent : rollbackMitigation :=
  set_persistedSeqNos {[ 42 := convergent ]} r0.

(** After the three callbacks of the divergent scenario. *)
Definition divergent : list vbUUIDAndSeqNo :=
  [mkSlot 0xAAAA 100 false; mkSlot 0xBBBB 200 false; mkSlot 0xAAAA 150 false].
Definition r_divergent : rollbackMitigation :=
  set_persistedSeqNos {[ 42 := divergent ]} r0.

(** Every replica of vBucket 9 absent. *)
Definition r_absent : rollbackMitigation :=
  set_persistedSeqNos {[ 9 := replicate 3 (SetAbsent zeroSlot) ]} r0.

(** Fresh vectors for vBuckets 7 and 42 under [snapshot_holes]. *)
Definition r_holes : rollbackMitigation :=
  mkRM (Some snapshot_holes)
       {[ 7 := replicate 3 zeroSlot; 42 := replicate 3 zeroSlot ]} ∅
       true true [7; 42] 2 false 1.

Definition failoverLogs (vbID : Z) : Error + list FailoverEntry :=
  if vbID =? 42 then inr [mkFailoverEntry 0xBBBB 90; mkFailoverEntry 0xAAAA 0]
  else inr [].

Definition published {A} (x : Res A) : list PersistSeqNo :=
  omap (fun e => match e with Publish ev => Some ev | _ => None end) (effects_of x).

Definition s1_1 := observeCallback 42 0 1 0xAAAA (inr (mkObserveVbResult 100 0xAAAA)).
Definition s1_2 := observeCallback 42 1 1 0xAAAA (inr (mkObserveVbResult 120 0xAAAA)).
Definition s1_3 := observeCallback 42 2 1 0xAAAA (inr (mkObserveVbResult 110 0xAAAA)).

Definition s2_2 := observeCallback 42 1 1 0xAAAA (inr (mkObserveVbResult 200 0xBBBB)).
Definition s2_3 := observeCallback 42 2 1 0xAAAA (inr (mkObserveVbResult 150 0xAAAA)).

(** Two topology changes, with the observer of the first reaching its
    loop and a callback in between. *)
Definition two_reconfigurations : list Operation :=
  [ OpConfigWatch (inr snapshot_newer);
    OpStartObserveInit failoverLogs;
    OpObserveCallback 42 0 2 0 (inr (mkObserveVbResult 100 0xAAAA));
    OpConfigWatch (inr snapshot_older);
    OpConfigWatch (inl (ErrOther "timeout"));
    OpConfigWatch (inr (mkSnapshot 3 1 (inr 1) (fun _ idx => inr idx))) ].

(** A cluster whose configuration is at revision [j], a struct without
    vBuckets that has installed it, and [n] ticks of [configWatch], each
    fetching the next revision. *)
Definition revision (j : Z) : ConfigSnapshot :=
  mkSnapshot 1 j (inr 1) (fun _ idx => inr idx).

Definition at_revision (j g : Z) : rollbackMitigation :=
  mkRM (Some (revision j)) ∅ ∅ false false [] g false 0.

Fixpoint ticks (j : Z) (n : nat) : list Operation :=
  match n with
  | O => []
  | S n' => OpConfigWatch (inr (revision (j + 1))) :: ticks (j + 1) n'
  end.

End Scenarios.

(** ** Frames and effect classes *)

(** [preserves proj m]: running [m] leaves the part [proj] of the struct
    as it was, whether [m] returns, panics or is left waiting. *)
Definition preserves {A B} (proj : rollbackMitigation → B) (m : M A) : Prop :=
  ∀ r, proj (state_of (m r)) = proj r.

(** [emits P m]: every effect of [m] satisfies [P]. *)
Definition emits {A} (P : Effect → Prop) (m : M A) : Prop :=
  ∀ r, Forall P (effects_of (m r)).

Definition is_log (e : Effect) : Prop :=
  match e with Log _ _ => True | _ => False end.

Definition is_log_or_publish (e : Effect) : Prop :=
  match e with Log _ _ | Publish _ => True | _ => False end.

Definition is_log_or_observe (e : Effect) : Prop :=
  match e with Log _ _ | ObserveVb _ _ _ => True | _ => False end.

(** The vector stored for a vBucket, [nil] when there is none: what
    [replicas, _ := r.persistedSeqNos.Load(vbID)] yields. *)
Definition replicasOf (r : rollbackMitigation) (vbID : Z) : list vbUUIDAndSeqNo :=
  default [] (persistedSeqNos r !! vbID).

(** Which vBuckets have a vector, how long it is and which of its slots
    are absent: what a generation fixes. *)
Definition absentFlags (r : rollbackMitigation) : gmap Z (list bool) :=
  (λ replicas : list vbUUIDAndSeqNo, absent <$> replicas) <$> persistedSeqNos r.

(** The requests a run issued, in order. *)
Definition observed (out : list Effect) : list (Z * Z * Z) :=
  omap (λ e, match e with
             | ObserveVb vbID replica expected => Some (vbID, replica, expected)
             | _ => None
             end) out.

(** The events a run published, in order. *)
Definition publishedEvents (out : list Effect) : list PersistSeqNo :=
  omap (λ e, match e with Publish ev => Some ev | _ => None end) out.

(** The observers a run spawned, in order. *)
Definition spawned (out : list Effect) : list Z :=
  omap (λ e, match e with GoStartObserve g => Some g | _ => None end) out.

(** An observe tick or an observe callback that finds the subsystem
    closed or carries a groupID that is not the active one. *)
Definition stale (r : rollbackMitigation) (op : Operation) : Prop :=
  match op with
  | OpObserveTick _ groupID
  | OpObserveCallback _ _ groupID _ _ =>
      closed r = true ∨ groupID ≠ activeGroupID r
  | _ => False
  end.

(** The operations that belong to one generation: everything but the two
    that enter [reconfigure]. *)
Definition within_generation (op : Operation) : Prop :=
  match op with
  | OpStart _ | OpConfigWatch _ => False
  | _ => True
  end.

(** The slot as an observe callback with answer [result] leaves it, the
    struct with that slot of [replicas] written, and the struct after
    [vbUUIDMap] follows the answer. *)
Definition writtenSlot (result : ObserveVbResult) (slot : vbUUIDAndSeqNo)
    : vbUUIDAndSeqNo :=
  mkSlot (result_VbUUID result) (result_PersistSeqNo result) (absent slot).

Definition recordAnswer (vbID replica : Z) (result : ObserveVbResult)
    (r : rollbackMitigation) (replicas : list vbUUIDAndSeqNo) (slot : vbUUIDAndSeqNo)
    : rollbackMitigation :=
  set_persistedSeqNos
    (<[vbID := <[Z.to_nat replica := writtenSlot result slot]> replicas]>
       (persistedSeqNos r)) r.

Definition followAnswer (vbID vbUUID0 : Z) (result : ObserveVbResult)
    (r : rollbackMitigation) : rollbackMitigation :=
  if decide (vbUUID0 = result_VbUUID result) then r
  else set_vbUUIDMap (<[vbID := result_VbUUID result]> (vbUUIDMap r)) r.

(** ** kubernetes/stateful_set_membership.go *)

Module Kubernetes.

(** [membership.Model] and the struct that holds it. *)
Record Model : Type := mkModel {
  MemberNumber : Z;
  TotalMembers : Z
}.

Record statefulSetMembership : Type := mkMembership { info : Model }.

Definition GetInfo (s : statefulSetMembership) : Model := info s.

(** The bytes ['-'] and ['+']. *)
Definition dash : Ascii.ascii := Ascii.ascii_of_nat 45.
Definition plus : Ascii.ascii := Ascii.ascii_of_nat 43.

(** Strings are sequences of bytes.  [strings.LastIndex(s, sep)] for a
    separator of one byte: the index of its last occurrence, or [-1]. *)
Fixpoint LastIndexByte (s : string) (c : Ascii.ascii) : Z :=
  match s with
  | EmptyString => -1
  | String a rest =>
      let i := LastIndexByte rest c in
      if i =? -1 then (if Ascii.eqb a c then 0 else -1) else 1 + i
  end.

(** [s[n:]] *)
Fixpoint sliceFrom (n : nat) (s : string) : string :=
  match n, s with
  | O, _ => s
  | S n', String _ rest => sliceFrom n' rest
  | S _, EmptyString => EmptyString
  end.

Fixpoint hasByte (c : Ascii.ascii) (s : string) : bool :=
  match s with
  | EmptyString => false
  | String a rest => Ascii.eqb a c || hasByte c rest
  end.

(** [getPodOrdinalFromHostname]; [hostname] is what [os.Hostname()]
    answers and [atoi] is [strconv.Atoi]. *)
Definition getPodOrdinalFromHostname (atoi : string → Error + Z)
    (hostname : Error + string) : Z * option Error :=
  match hostname with
  | inl err => (-1, Some err)
  | inr hostname =>
      let separatorIndex := LastIndexByte hostname dash in
      if separatorIndex =? -1 then
        (-1, Some (ErrOther "hostname is not in statefulSet format"))
      else
        match atoi (sliceFrom (Z.to_nat (separatorIndex + 1)) hostname) with
        | inl err => (-1, Some err)
        | inr podOrdinal => (podOrdinal, None)
        end
  end.

(** What [NewStatefulSetMembership] comes to: the membership, or a panic
    with the error it logged. *)
Inductive Outcome : Type :=
| Built (s : statefulSetMembership)
| Panics (err : Error) (logged : string).

(** [totalMembers] is [config.Dcp.Group.Membership.TotalMembers]. *)
Definition NewStatefulSetMembership (atoi : string → Error + Z)
    (hostname : Error + string) (totalMembers : Z) : Outcome :=
  match getPodOrdinalFromHostname atoi hostname with
  | (_, Some err) => Panics err "error while get pod ordinal from hostname: %v"
  | (podOrdinal, None) =>
      let memberNumber := GoInt.wrap (podOrdinal + 1) in
      if memberNumber >? totalMembers then
        Panics (ErrOther "memberNumber is greater than totalMembers")
               "memberNumber: %v, totalMembers: %v, err: %v"
      else Built (mkMembership (mkModel memberNumber totalMembers))
  end.

(** [strconv.Atoi] of the Go library, on a 64-bit [int]: an optional
    sign, then at least one decimal digit and nothing else, the value
    within the range of [int]; anything else is an error (a [*NumError]
    for the input, of which the kind, syntax or range, is not kept). *)
Definition isDigit (a : Ascii.ascii) : bool :=
  (48 <=? Z.of_nat (Ascii.nat_of_ascii a)) && (Z.of_nat (Ascii.nat_of_ascii a) <=? 57).

Fixpoint parseDigits (acc : Z) (s : string) : option Z :=
  match s with
  | EmptyString => Some acc
  | String a rest =>
      if isDigit a then parseDigits (acc * 10 + (Z.of_nat (Ascii.nat_of_ascii a) - 48)) rest
      else None
  end.

Definition numError (s : string) : Error := ErrWrap "strconv.Atoi: parsing" (ErrOther s).

Definition Atoi (s : string) : Error + Z :=
  let '(neg, digits) :=
    match s with
    | String a rest =>
        if Ascii.eqb a dash then (true, rest)
        else if Ascii.eqb a plus then (false, rest)
        else (false, s)
    | EmptyString => (false, s)
    end in
  match digits with
  | EmptyString => inl (numError s)
  | String _ _ =>
      match parseDigits 0 digits with
      | None => inl (numError s)
      | Some n =>
          let v := if neg then - n else n in
          if (GoInt.min_int <=? v) && (v <=? GoInt.max_int) then inr v
          else inl (numError s)
      end
  end.

End Kubernetes.

(** An observe tick or an observe callback, of whatever generation. *)
Definition tick_or_callback (op : Operation) : Prop :=
  match op with
  | OpObserveTick _ _ | OpObserveCallback _ _ _ _ _ => True
  | _ => False
  end.

(** ** More concrete inputs *)

Module MoreScenarios.

(** Two vectors with the same present slots and an absent slot in
    different places. *)
Definition absent_first : rollbackMitigation :=
  set_persistedSeqNos
    {[ 42 := [mkSlot 7 7 true; mkSlot 0xAAAA 100 false; mkSlot 0xAAAA 120 false] ]}
    Scenarios.r0.

Definition absent_middle : rollbackMitigation :=
  set_persistedSeqNos
    {[ 42 := [mkSlot 0xAAAA 100 false; mkSlot 0 0 true; mkSlot 0xAAAA 120 false] ]}
    Scenarios.r0.

(** An agent that accepts every request, and one that refuses requests
    for replica 1 with a temporary failure. *)
Definition accepts : Z → Z → option Error := λ _ _, None.

Definition busy : Z → Z → option Error :=
  λ _ replica, if replica =? 1 then Some ErrTemporaryFailure else None.

(** A callback and a tick of generation 7 while generation 1 is active. *)
Definition late : list Operation :=
  [ OpObserveCallback 42 0 7 0xAAAA (inr (mkObserveVbResult 100 0xAAAA));
    OpObserveTick accepts 7;
    OpObserveCallback 42 1 7 0xAAAA (inl (ErrOther "shutdown")) ].

(** The operations of one generation. *)
Definition one_generation : list Operation :=
  [ OpStartObserveInit Scenarios.failoverLogs;
    OpObserveTick busy 1;
    OpObserveCallback 42 0 1 0xBBBB (inr (mkObserveVbResult 100 0xAAAA));
    OpObserveCallback 42 9 1 0xBBBB (inr (mkObserveVbResult 100 0xAAAA));
    OpStop;
    OpObserveCallback 42 1 1 0xBBBB (inr (mkObserveVbResult 100 0xAAAA)) ].

End MoreScenarios.

(** * Properties *)

(** ** Go integers *)

Section GoIntFacts.

Import GoInt.

Lemma wrap_in_range x : in_range (wrap x).
Proof.
  unfold in_range, wrap, min_int, max_int, bits.
  pose proof (Z.mod_pos_bound (x - - 2 ^ (64 - 1)) (2 ^ 64) ltac:(lia)). lia.
Qed.

Lemma wrap_id x : in_range x → wrap x = x.
Proof.
  unfold in_range, wrap, min_int, max_int, bits. intros H.
  rewrite Z.mod_small; lia.
Qed.

Lemma incr_below_max x : in_range x → x < max_int → incr x = x + 1.
Proof.
  unfold incr, in_range. intros H Hlt. apply wrap_id. unfold in_range. lia.
Qed.

Lemma incr_at_max : incr max_int = min_int.
Proof. reflexivity. Qed.

(** [x++] never leaves [x] as it was. *)
Lemma incr_changes x : incr x ≠ x.
Proof.
  intros Heq. pose proof (wrap_in_range (x + 1)) as Hr.
  fold (incr x) in Hr. rewrite Heq in Hr.
  destruct (Z.eq_dec x max_int) as [->|Hne].
  - rewrite incr_at_max in Heq. discriminate.
  - rewrite incr_below_max in Heq; unfold in_range in *; lia.
Qed.

(** Below [max_int], [n] increments add [n]. *)
Lemma iter_incr n x :
  in_range x → x + Z.of_nat n <= max_int → Nat.iter n incr x = x + Z.of_nat n.
Proof.
  intros Hx. induction n as [|n IH]; intros Hb; simpl; [lia|].
  rewrite IH by lia. rewrite incr_below_max; unfold in_range in *; lia.
Qed.

End GoIntFacts.

(** ** The monad *)

Lemma bind_Ret {A B} (m : M A) (k : A → M B) r a r1 o1 :
  m r = Ret a r1 o1 → bind m k r = after o1 (k a r1).
Proof. unfold bind. by intros ->. Qed.

Lemma bind_Panicked {A B} (m : M A) (k : A → M B) r p r1 o1 :
  m r = Panicked p r1 o1 → bind m k r = Panicked p r1 o1.
Proof. unfold bind. by intros ->. Qed.

Lemma bind_Blocked {A B} (m : M A) (k : A → M B) r r1 o1 :
  m r = Blocked r1 o1 → bind m k r = Blocked r1 o1.
Proof. unfold bind. by intros ->. Qed.

Lemma after_nil {A} (x : Res A) : after [] x = x.
Proof. by destruct x. Qed.

Lemma after_after {A} o1 o2 (x : Res A) : after o1 (after o2 x) = after (o1 ++ o2) x.
Proof. destruct x; simpl; by rewrite app_assoc. Qed.

Lemma state_of_after {A} o1 (x : Res A) : state_of (after o1 x) = state_of x.
Proof. by destruct x. Qed.

Lemma effects_of_after {A} o1 (x : Res A) : effects_of (after o1 x) = o1 ++ effects_of x.
Proof. by destruct x. Qed.

Lemma returned_after {A} o1 (x : Res A) : returned (after o1 x) = returned x.
Proof. by destruct x. Qed.

Lemma blocked_after {A} o1 (x : Res A) : blocked (after o1 x) = blocked x.
Proof. by destruct x. Qed.

(** ** getMinSeqNo *)

Section MinSeqNo.

Implicit Types (replicas rest : list vbUUIDAndSeqNo) (r : rollbackMitigation).

Lemma firstPresent_all_absent idx replicas :
  Forall (λ s, absent s = true) replicas → firstPresent idx replicas = -1.
Proof.
  intros H. revert idx. induction H as [|s rest Hs _ IH]; intros idx; simpl; [done|].
  unfold IsAbsent. rewrite Hs. simpl. apply IH.
Qed.

(** When some slot is present, the first loop stops at the first such
    slot: everything before it is absent. *)
Lemma firstPresent_found idx replicas :
  Exists present replicas →
  ∃ k first,
    firstPresent idx replicas = Z.of_nat (idx + k) ∧
    replicas !! k = Some first ∧ present first ∧
    Forall (λ s, absent s = true) (take k replicas).
Proof.
  intros H. revert idx. induction replicas as [|s rest IH]; intros idx.
  - by apply Exists_nil in H.
  - simpl. unfold IsAbsent. destruct (absent s) eqn:Hs; simpl.
    + apply Exists_cons in H as [H|H]; [unfold present in H; congruence|].
      destruct (IH H (S idx)) as (k & first & Hk & Hl & Hp & Hall).
      exists (S k), first. simpl. split_and!; [|done|done|by constructor].
      rewrite Hk. f_equal. lia.
    + exists 0%nat, s. simpl. split_and!; [f_equal; lia|done|done|constructor].
Qed.

Lemma presentSeqNos_all_absent replicas :
  Forall (λ s, absent s = true) replicas → presentSeqNos replicas = [].
Proof.
  unfold presentSeqNos. induction 1 as [|s rest Hs _ IH]; [done|].
  rewrite filter_cons_False; [done|]. unfold present. congruence.
Qed.

Lemma presentSeqNos_cons s rest :
  presentSeqNos (s :: rest) =
    if absent s then presentSeqNos rest else seqNo s :: presentSeqNos rest.
Proof.
  unfold presentSeqNos. destruct (absent s) eqn:Hs.
  - rewrite filter_cons_False; [done|]. unfold present. congruence.
  - by rewrite filter_cons_True.
Qed.

Lemma presentSeqNos_split replicas k first :
  replicas !! k = Some first → present first →
  Forall (λ s, absent s = true) (take k replicas) →
  presentSeqNos replicas = seqNo first :: presentSeqNos (drop (S k) replicas).
Proof.
  intros Hl Hp Hall.
  rewrite <- (take_drop_middle replicas k first Hl) at 1.
  unfold presentSeqNos in *. rewrite filter_app, fmap_app.
  fold (presentSeqNos (take k replicas)).
  rewrite (presentSeqNos_all_absent _ Hall). simpl.
  by rewrite filter_cons_True.
Qed.

(** The second loop when every present slot agrees with the reference:
    it returns the least of the running minimum and the present seqNos,
    logs nothing and leaves the struct alone. *)
Lemma minLoop_agree u m rest r :
  (∀ s, s ∈ rest → present s → vbUUID s = u) →
  ∃ m', minLoop u m rest r = Ret m' r [] ∧ is_minimum m' (m :: presentSeqNos rest).
Proof.
  revert m. induction rest as [|s rest IH]; intros m Hu; simpl.
  - exists m. split; [done|]. split; [set_solver|].
    intros x Hx. apply list_elem_of_singleton in Hx. lia.
  - assert (Hrest : ∀ s', s' ∈ rest → present s' → vbUUID s' = u)
      by (intros; apply Hu; [by right|done]).
    rewrite presentSeqNos_cons. unfold IsAbsent.
    destruct (absent s) eqn:Hs; [by apply IH|].
    rewrite (Hu s); [|by left|done]. rewrite Z.eqb_refl. simpl.
    destruct (Z.gtb_spec m (seqNo s)) as [Hgt|Hle].
    + destruct (IH (seqNo s) Hrest) as (m' & -> & Hin & Hmin).
      exists m'. split; [done|]. split; [by right|].
      intros x [->|Hx]%elem_of_cons; [|by apply Hmin].
      specialize (Hmin (seqNo s) ltac:(by left)). lia.
    + destruct (IH m Hrest) as (m' & -> & Hin & Hmin).
      exists m'. split; [done|]. split.
      * apply elem_of_cons in Hin as [->|Hin]; [by left|by do 2 right].
      * intros x [->|[->|Hx]%elem_of_cons]%elem_of_cons.
        -- apply Hmin. by left.
        -- specialize (Hmin m ltac:(by left)). lia.
        -- apply Hmin. by right.
Qed.

(** The second loop when some present slot disagrees with the
    reference: it returns 0, whatever the running minimum. *)
Lemma minLoop_disagree u m rest r :
  (∃ s, s ∈ rest ∧ present s ∧ vbUUID s ≠ u) →
  ∃ out, minLoop u m rest r = Ret 0 r out.
Proof.
  revert m. induction rest as [|s rest IH]; intros m (s' & Hin & Hp & Hne).
  - by apply elem_of_nil in Hin.
  - simpl. unfold IsAbsent.
    apply elem_of_cons in Hin as [->|Hin].
    + unfold present in Hp. rewrite Hp.
      destruct (Z.eqb_spec u (vbUUID s)) as [Heq|_]; [congruence|].
      simpl. eexists. reflexivity.
    + destruct (absent s); [apply IH; eauto|].
      destruct (u =? vbUUID s); simpl; [|eexists; reflexivity].
      destruct (m >? seqNo s); apply IH; eauto.
Qed.

(** [getMinSeqNo] on a vector with a present slot is the second loop
    started at the first present slot. *)
Lemma getMinSeqNo_found r vbID replicas :
  persistedSeqNos r !! vbID = Some replicas →
  Exists present replicas →
  ∃ k first,
    replicas !! k = Some first ∧ present first ∧
    Forall (λ s, absent s = true) (take k replicas) ∧
    getMinSeqNo vbID r =
      minLoop (vbUUID first) (seqNo first) (drop (S k) replicas) r.
Proof.
  intros Hm Hex.
  destruct (firstPresent_found 0 replicas Hex) as (k & first & Hk & Hl & Hp & Hall).
  exists k, first. split_and!; try done.
  unfold getMinSeqNo, bind, get. rewrite Hm. simpl. rewrite Hk. simpl.
  destruct (Z.eqb_spec (Z.of_nat k) (-1)) as [?|_]; [lia|].
  rewrite Nat2Z.id, Hl.
  replace (Z.to_nat (Z.of_nat k + 1)) with (S k) by lia.
  by destruct (minLoop _ _ _ r).
Qed.

End MinSeqNo.

Section MinSeqNoResults.

Implicit Types (replicas : list vbUUIDAndSeqNo) (r : rollbackMitigation).

(** A present slot that disagrees with the first present slot lies
    behind it, where the second loop walks. *)
Lemma disagreeing_slot_behind replicas k first t s :
  replicas !! k = Some first →
  Forall (λ s, absent s = true) (take k replicas) →
  replicas !! t = Some s → present s → vbUUID s ≠ vbUUID first →
  s ∈ drop (S k) replicas.
Proof.
  intros Hk Hall Ht Hp Hne.
  assert (k < t)%nat as Hlt.
  { destruct (lt_eq_lt_dec t k) as [[Hlt|Heq]|Hgt]; [|subst; congruence|done].
    exfalso. rewrite Forall_lookup in Hall.
    specialize (Hall t s). rewrite lookup_take_lt in Hall by done.
    specialize (Hall Ht). unfold present in Hp. congruence. }
  apply list_elem_of_lookup. exists (t - S k)%nat.
  rewrite lookup_drop. rewrite <- Ht. f_equal. lia.
Qed.

(** C1.  A replica vector with a present slot whose present slots all
    hold the same vbUUID: [getMinSeqNo] returns the minimum of the
    seqNos of the present slots (and logs nothing, changes nothing). *)
Theorem getMinSeqNo_convergence r vbID replicas :
  persistedSeqNos r !! vbID = Some replicas →
  Exists present replicas →
  (∀ s1 s2, s1 ∈ replicas → s2 ∈ replicas → present s1 → present s2 →
            vbUUID s1 = vbUUID s2) →
  ∃ m, getMinSeqNo vbID r = Ret m r [] ∧ is_minimum m (presentSeqNos replicas).
Proof.
  intros Hm Hex Hsame.
  destruct (getMinSeqNo_found r vbID replicas Hm Hex)
    as (k & first & Hk & Hp & Hall & ->).
  rewrite (presentSeqNos_split replicas k first Hk Hp Hall).
  apply minLoop_agree. intros s Hs Hps.
  apply Hsame; try done.
  - by eapply subseteq_drop.
  - apply list_elem_of_lookup; eauto.
Qed.

(** C2.  A replica vector with two present slots that hold different
    vbUUIDs: [getMinSeqNo] returns 0. *)
Theorem getMinSeqNo_divergence r vbID replicas i j si sj :
  persistedSeqNos r !! vbID = Some replicas →
  replicas !! i = Some si → replicas !! j = Some sj →
  present si → present sj → vbUUID si ≠ vbUUID sj →
  ∃ out, getMinSeqNo vbID r = Ret 0 r out.
Proof.
  intros Hm Hi Hj Hpi Hpj Hne.
  assert (Exists present replicas) as Hex.
  { apply Exists_exists. exists si. split; [|done]. apply list_elem_of_lookup; eauto. }
  destruct (getMinSeqNo_found r vbID replicas Hm Hex)
    as (k & first & Hk & Hp & Hall & ->).
  apply minLoop_disagree.
  destruct (decide (vbUUID si = vbUUID first)) as [Heq|Hdiff].
  - exists sj. split_and!; [|done|congruence].
    eapply disagreeing_slot_behind; eauto. congruence.
  - exists si. split_and!; [|done|done].
    eapply disagreeing_slot_behind; eauto.
Qed.

(** C9.  A vBucket with no present slot, because every slot of its
    vector is absent or because no vector is stored for it:
    [getMinSeqNo] returns 0 and logs the error "all replicas absent". *)
Theorem getMinSeqNo_all_absent r vbID :
  (∀ replicas, persistedSeqNos r !! vbID = Some replicas →
               Forall (λ s, absent s = true) replicas) →
  getMinSeqNo vbID r = Ret 0 r [Log LError "all replicas absent"].
Proof.
  intros Hall. unfold getMinSeqNo, bind, get.
  assert (firstPresent 0 (default [] (persistedSeqNos r !! vbID)) = -1) as ->.
  { apply firstPresent_all_absent.
    destruct (persistedSeqNos r !! vbID) as [replicas|]; simpl; [by apply Hall|constructor]. }
  reflexivity.
Qed.

End MinSeqNoResults.

(** ** isConfigSnapshotNewerThan *)

Lemma isConfigSnapshotNewerThan_strictlyNewer installed new :
  isConfigSnapshotNewerThan installed new = true ↔ strictlyNewer new installed.
Proof.
  unfold isConfigSnapshotNewerThan, strictlyNewer, getRevEpochAndID.
  destruct (Z.ltb_spec (revEpoch new) (revEpoch installed));
    [split; [done|lia]|].
  destruct (Z.eqb_spec (revEpoch new) (revEpoch installed)); [|split; [lia|done]].
  destruct (Z.eqb_spec (revID new) (revID installed)); [split; [done|lia]|].
  destruct (Z.ltb_spec (revID new) (revID installed)); split; (done || lia).
Qed.

(** C4.  [isConfigSnapshotNewerThan] is true exactly when the new epoch is
    greater, or the epochs are equal and the new revID is greater; two
    snapshots of equal version compare false. *)
Theorem isConfigSnapshotNewerThan_order :
  (∀ installed new,
     isConfigSnapshotNewerThan installed new = true ↔
     revEpoch new > revEpoch installed ∨
     (revEpoch new = revEpoch installed ∧ revID new > revID installed)) ∧
  (∀ epoch rev n1 v1 n2 v2,
     isConfigSnapshotNewerThan (mkSnapshot epoch rev n1 v1) (mkSnapshot epoch rev n2 v2)
     = false).
Proof.
  split.
  - intros installed new. apply isConfigSnapshotNewerThan_strictlyNewer.
  - intros. apply not_true_is_false.
    rewrite isConfigSnapshotNewerThan_strictlyNewer. unfold strictlyNewer. simpl. lia.
Qed.

(** ** The observe callback *)

Section ObserveCallback.

Variables (vbID replica groupID vbUUID0 : Z).

(** C3.  A callback delivered when the subsystem is closed, or under a
    groupID that is not the active one, returns at once: the struct is
    what it was, so no slot is written and the vbUUIDMap is not updated,
    and its only effect is a debug log entry, so nothing is published. *)
Theorem observeCallback_stale r res :
  closed r = true ∨ groupID ≠ activeGroupID r →
  let x := observeCallback vbID replica groupID vbUUID0 res r in
  x = Ret tt r [Log LDebug "closed(%v) or groupID(%v!=%v) changed on observe"] ∧
  persistedSeqNos (state_of x) = persistedSeqNos r ∧
  vbUUIDMap (state_of x) = vbUUIDMap r ∧
  (∀ ev, Publish ev ∉ effects_of x).
Proof.
  intros H x.
  assert (x = Ret tt r [Log LDebug "closed(%v) or groupID(%v!=%v) changed on observe"])
    as ->.
  { subst x. unfold observeCallback, bind, get.
    destruct H as [->|Hne]; [done|].
    destruct (Z.eqb_spec (activeGroupID r) groupID) as [?|_]; [congruence|].
    by rewrite orb_true_r. }
  split_and!; try done.
  intros ev Hin. simpl in Hin. apply list_elem_of_singleton in Hin. discriminate.
Qed.

(** C6, as the code has it.  A callback that carries an error and is
    delivered while the subsystem is not closed and under the active
    groupID: a temporary failure is logged and nothing else happens;
    any other error is handed to [panic]. *)
Theorem observeCallback_error r err :
  closed r = false → activeGroupID r = groupID →
  observeCallback vbID replica groupID vbUUID0 (inl err) r =
    if errors_Is err ErrTemporaryFailure
    then Ret tt r [Log LError "error while observe: %v"]
    else Panicked (PanicError err) r [].
Proof.
  intros Hc Hg. unfold observeCallback, bind, get.
  rewrite Hc, Hg, Z.eqb_refl. simpl.
  by destruct (errors_Is err ErrTemporaryFailure).
Qed.

End ObserveCallback.

(** ** The generation counter *)

Lemma reconfigurations_app o1 o2 :
  reconfigurations (o1 ++ o2) = (reconfigurations o1 + reconfigurations o2)%nat.
Proof. unfold reconfigurations. by rewrite filter_app, length_app. Qed.

Lemma reconfigurations_cons e out :
  reconfigurations (e :: out) =
    ((if decide (e = reconfigure_marker) then 1 else 0) + reconfigurations out)%nat.
Proof.
  unfold reconfigurations. destruct (decide (e = reconfigure_marker)).
  - by rewrite filter_cons_True.
  - by rewrite filter_cons_False.
Qed.

Lemma reconfigurations_elem_of out :
  reconfigure_marker ∈ out ↔ (0 < reconfigurations out)%nat.
Proof.
  unfold reconfigurations. split.
  - intros Hin.
    assert (reconfigure_marker ∈ filter (λ e, e = reconfigure_marker) out) as Hf
      by (by apply list_elem_of_filter).
    destruct (filter _ out); [by apply elem_of_nil in Hf|simpl; lia].
  - intros Hlen. destruct (filter _ out) as [|e l] eqn:Hf; [simpl in Hlen; lia|].
    assert (e ∈ filter (λ e, e = reconfigure_marker) out) as He
      by (rewrite Hf; by left).
    apply list_elem_of_filter in He as [-> ?]. done.
Qed.

Lemma generations_app o1 o2 :
  generations (o1 ++ o2) = (generations o1 + generations o2)%nat.
Proof. unfold generations. by rewrite filter_app, length_app. Qed.

Lemma generations_cons e out :
  generations (e :: out) =
    ((if decide (e = generation_marker) then 1 else 0) + generations out)%nat.
Proof.
  unfold generations. destruct (decide (e = generation_marker)).
  - by rewrite filter_cons_True.
  - by rewrite filter_cons_False.
Qed.

Lemma quiet_counted {A} (m : M A) : quiet m → counted m.
Proof.
  intros H r. destruct (H r) as (Hg & Hn & Hk). cbv zeta.
  rewrite Hn, Hk, Hg. split_and!; (done || lia).
Qed.

Lemma quiet_ret {A} (a : A) : quiet (ret a).
Proof. by intros r. Qed.

Lemma quiet_get : quiet get.
Proof. by intros r. Qed.

Lemma quiet_panic {A} p : quiet (@panic A p).
Proof. by intros r. Qed.

Lemma quiet_block {A} : quiet (@block A).
Proof. by intros r. Qed.

Lemma quiet_emit e : e ≠ reconfigure_marker → e ≠ generation_marker → quiet (emit e).
Proof.
  intros He Hg r. split_and!; [done| |]; simpl.
  - rewrite reconfigurations_cons. by destruct (decide (e = reconfigure_marker)).
  - rewrite generations_cons. by destruct (decide (e = generation_marker)).
Qed.

Lemma quiet_emitAll out :
  reconfigurations out = 0%nat → generations out = 0%nat → quiet (emitAll out).
Proof. by intros Hn Hk r. Qed.

Lemma quiet_modify f :
  (∀ r, activeGroupID (f r) = activeGroupID r) → quiet (modify f).
Proof. intros H r. split_and!; [apply H|done|done]. Qed.

Lemma quiet_bind {A B} (m : M A) (k : A → M B) :
  quiet m → (∀ a, quiet (k a)) → quiet (bind m k).
Proof.
  intros Hm Hk r. unfold bind. specialize (Hm r).
  destruct (m r) as [a r1 o1|p r1 o1|r1 o1]; simpl in *; [|done|done].
  destruct Hm as (Hg & Hn & Hc). destruct (Hk a r1) as (Hg' & Hn' & Hc').
  rewrite state_of_after, effects_of_after, reconfigurations_app, generations_app.
  split_and!; (congruence || lia).
Qed.

Lemma counted_bind {A B} (m : M A) (k : A → M B) :
  counted m → (∀ a, counted (k a)) → counted (bind m k).
Proof.
  intros Hm Hk r. unfold bind. specialize (Hm r). cbv zeta in *.
  destruct (m r) as [a r1 o1|p r1 o1|r1 o1]; simpl in *; [|done|done].
  destruct Hm as (Hg & Hle & Heq). specialize (Heq eq_refl).
  pose proof (Hk a r1) as Hk1. cbv zeta in Hk1. destruct Hk1 as (Hg' & Hle' & Heq').
  rewrite state_of_after, effects_of_after, blocked_after,
    reconfigurations_app, generations_app.
  split_and!.
  - rewrite Hg', Hg, Nat.add_comm, Nat.iter_add. done.
  - lia.
  - lia.
  - intros Hb. specialize (Heq' Hb). lia.
Qed.

Lemma quiet_rangeEntries {V S} (f : Z → V → S → M (S * bool)) kvs acc :
  (∀ k v s, quiet (f k v s)) → quiet (rangeEntries f kvs acc).
Proof.
  intros Hf. revert acc. induction kvs as [|[k v] rest IH]; intros acc; simpl.
  - apply quiet_ret.
  - apply quiet_bind; [apply Hf|]. intros [s b]. simpl.
    destruct b; [apply IH|apply quiet_ret].
Qed.

Lemma quiet_Range {V S} (m : gmap Z V) (f : Z → V → S → M (S * bool)) acc :
  (∀ k v s, quiet (f k v s)) → quiet (Range m f acc).
Proof. apply quiet_rangeEntries. Qed.

Create HintDb quiet.

Ltac quiet_step :=
  first
    [ solve [auto 1 with quiet nocore]
    | apply quiet_ret | apply quiet_get | apply quiet_panic | apply quiet_block
    | apply quiet_emit; discriminate
    | apply quiet_modify; done
    | apply quiet_Range; intros
    | apply quiet_bind; [|intros]
    | match goal with |- quiet (match ?x with _ => _ end) => destruct x end ].

Ltac quiet_steps := repeat (quiet_step; cbv beta).

Lemma quiet_minLoop u m rest : quiet (minLoop u m rest).
Proof.
  revert m. induction rest as [|s rest IH]; intros m; simpl; quiet_steps.
Qed.
#[local] Hint Resolve quiet_minLoop : quiet.

Lemma quiet_getMinSeqNo vbID : quiet (getMinSeqNo vbID).
Proof. unfold getMinSeqNo. quiet_steps. Qed.
#[local] Hint Resolve quiet_getMinSeqNo : quiet.

Lemma quiet_storeReplicas vbID replicas : quiet (storeReplicas vbID replicas).
Proof. unfold storeReplicas. quiet_steps. Qed.
#[local] Hint Resolve quiet_storeReplicas : quiet.

Lemma quiet_storeVbUUID vbID u : quiet (storeVbUUID vbID u).
Proof. unfold storeVbUUID. quiet_steps. Qed.
#[local] Hint Resolve quiet_storeVbUUID : quiet.

Lemma markAbsentSlots_quiet snapshot vbID idx replicas :
  reconfigurations (markAbsentSlots snapshot vbID idx replicas).1.2 = 0%nat ∧
  generations (markAbsentSlots snapshot vbID idx replicas).1.2 = 0%nat.
Proof.
  revert idx. induction replicas as [|s rest IH]; intros idx; simpl; [done|].
  specialize (IH (S idx)).
  destruct (VbucketToServer snapshot vbID _) as [err|serverIndex].
  - destruct (errors_Is err ErrInvalidReplica); [|done].
    destruct (markAbsentSlots snapshot vbID (S idx) rest) as [[rest' out] e].
    destruct IH. done.
  - destruct (serverIndex <? 0);
      destruct (markAbsentSlots snapshot vbID (S idx) rest) as [[rest' out] e];
      destruct IH; done.
Qed.

Lemma quiet_markAbsentEntry vbID replicas outerError :
  quiet (markAbsentEntry vbID replicas outerError).
Proof.
  unfold markAbsentEntry. apply quiet_bind; [apply quiet_get|intros r0].
  destruct (configSnapshot r0) as [snapshot|]; [|quiet_steps].
  pose proof (markAbsentSlots_quiet snapshot vbID 0 replicas) as [Hn Hk].
  destruct (markAbsentSlots snapshot vbID 0 replicas) as [[replicas' out] e].
  apply quiet_bind; [by apply quiet_emitAll|intros]. quiet_steps.
Qed.
#[local] Hint Resolve quiet_markAbsentEntry : quiet.

Lemma quiet_markAbsentInstances : quiet markAbsentInstances.
Proof. unfold markAbsentInstances. quiet_steps. Qed.
#[local] Hint Resolve quiet_markAbsentInstances : quiet.

Lemma quiet_resetLoop replicas ids : quiet (resetLoop replicas ids).
Proof.
  induction ids as [|vbID rest IH]; simpl; quiet_steps.
Qed.
#[local] Hint Resolve quiet_resetLoop : quiet.

Lemma quiet_reset : quiet reset.
Proof. unfold reset. quiet_steps. Qed.
#[local] Hint Resolve quiet_reset : quiet.

Lemma quiet_loadVbUUIDMap G : quiet (loadVbUUIDMap G).
Proof. unfold loadVbUUIDMap. quiet_steps. unfold loadVbUUIDEntry. quiet_steps. Qed.
#[local] Hint Resolve quiet_loadVbUUIDMap : quiet.

Lemma quiet_startObserveInit G : quiet (startObserveInit G).
Proof. unfold startObserveInit. quiet_steps. Qed.
#[local] Hint Resolve quiet_startObserveInit : quiet.

Lemma quiet_observeCallback vbID replica groupID vbUUID0 res :
  quiet (observeCallback vbID replica groupID vbUUID0 res).
Proof. unfold observeCallback. quiet_steps. Qed.
#[local] Hint Resolve quiet_observeCallback : quiet.

Lemma quiet_observe vbID replica groupID vbUUID0 issueErr :
  quiet (observe vbID replica groupID vbUUID0 issueErr).
Proof. unfold observe. quiet_steps. Qed.
#[local] Hint Resolve quiet_observe : quiet.

Lemma quiet_observeSlots issue groupID vbID idx replicas :
  quiet (observeSlots issue groupID vbID idx replicas).
Proof.
  revert idx. induction replicas as [|s rest IH]; intros idx; simpl; quiet_steps.
Qed.
#[local] Hint Resolve quiet_observeSlots : quiet.

Lemma quiet_observeTick issue groupID : quiet (observeTick issue groupID).
Proof. unfold observeTick. quiet_steps. Qed.
#[local] Hint Resolve quiet_observeTick : quiet.

Lemma quiet_closeObserver : quiet closeObserver.
Proof. unfold closeObserver. quiet_steps. Qed.
#[local] Hint Resolve quiet_closeObserver : quiet.

Lemma quiet_Stop : quiet Stop.
Proof.
  unfold Stop. quiet_steps.
Qed.
#[local] Hint Resolve quiet_Stop : quiet.

Lemma quiet_waitFirstConfig first : quiet (waitFirstConfig first).
Proof. unfold waitFirstConfig, firstConfigCallback. quiet_steps. Qed.
#[local] Hint Resolve quiet_waitFirstConfig : quiet.

Lemma quiet_reconfigureRebuild : quiet reconfigureRebuild.
Proof. unfold reconfigureRebuild. quiet_steps. Qed.

(** The handshake: with an observer in its loop it is answered and the
    observer is gone; with none the caller is left waiting. *)
Lemma closeObserver_eq r :
  closeObserver r =
    match observers r with
    | O => Blocked r [StopObserver]
    | S n => Ret tt (set_observers n r) [StopObserver; Log LDebug "observe close triggered"]
    end.
Proof. unfold closeObserver, bind, emit, get, block, modify. by destruct (observers r). Qed.

(** [reconfigure], step by step: where the handshake is not answered it
    is left waiting there, with the struct as it was; otherwise it is the
    rebuild on the struct past the handshake with the counter advanced. *)
Lemma reconfigure_unfold r :
  reconfigure r =
    if observerAnswers r
    then after (reconfigure_prefix r) (reconfigureRebuild (advanced r))
    else Blocked r [reconfigure_marker; StopObserver].
Proof.
  unfold reconfigure, observerAnswers, advanced, observerClosed, reconfigure_prefix.
  unfold bind at 1. unfold emit at 1. unfold bind at 1. unfold get at 1. simpl.
  destruct (observeTimer r) eqn:Ht.
  - unfold bind at 1. unfold bind at 1. rewrite closeObserver_eq.
    destruct (observers r) as [|n] eqn:Hn; [done|]. simpl.
    unfold bind, emit, modify. simpl. by destruct (reconfigureRebuild _).
  - unfold bind, emit, modify, ret. simpl. by destruct (reconfigureRebuild _).
Qed.

Lemma reconfigure_prefix_counts r :
  reconfigurations (reconfigure_prefix r) = 1%nat ∧
  generations (reconfigure_prefix r) = 1%nat.
Proof. unfold reconfigure_prefix. by destruct (observeTimer r). Qed.

Lemma reconfigure_enters r : reconfigurations (effects_of (reconfigure r)) = 1%nat.
Proof.
  rewrite reconfigure_unfold. destruct (observerAnswers r); [|done].
  rewrite effects_of_after, reconfigurations_app.
  destruct (reconfigure_prefix_counts r) as [-> _].
  by destruct (quiet_reconfigureRebuild (advanced r)) as (_ & -> & _).
Qed.

(** Past the handshake the counter is advanced, whatever the rebuild
    comes to; at the handshake it is not. *)
Lemma reconfigure_advances r :
  activeGroupID (state_of (reconfigure r)) =
    if observerAnswers r then GoInt.incr (activeGroupID r) else activeGroupID r.
Proof.
  rewrite reconfigure_unfold. destruct (observerAnswers r); [|done].
  rewrite state_of_after.
  destruct (quiet_reconfigureRebuild (advanced r)) as (-> & _ & _).
  unfold advanced, observerClosed. by destruct (observeTimer r).
Qed.

Lemma counted_reconfigure : counted reconfigure.
Proof.
  intros r. cbv zeta. rewrite reconfigure_advances, reconfigure_enters.
  rewrite reconfigure_unfold. destruct (observerAnswers r).
  - rewrite effects_of_after, generations_app.
    destruct (reconfigure_prefix_counts r) as [_ Hpre].
    destruct (quiet_reconfigureRebuild (advanced r)) as (_ & _ & Hreb).
    rewrite Hpre, Hreb. simpl. split_and!; (done || lia).
  - cbn [effects_of blocked].
    change (generations [reconfigure_marker; StopObserver]) with 0%nat.
    simpl. split_and!; (done || lia).
Qed.

Lemma counted_configWatch res : counted (configWatch res).
Proof.
  unfold configWatch. apply counted_bind; [apply quiet_counted, quiet_get|intros r0].
  destruct res as [err|snapshot]; [apply quiet_counted, quiet_ret|].
  destruct (match configSnapshot r0 with Some _ => _ | None => _ end);
    [|apply quiet_counted, quiet_ret].
  apply counted_bind; [apply quiet_counted, quiet_modify; done|intros _].
  apply counted_reconfigure.
Qed.

Lemma counted_Start first : counted (Start first).
Proof.
  unfold Start.
  apply counted_bind; [apply quiet_counted; quiet_steps|intros _].
  apply counted_bind; [apply quiet_counted, quiet_waitFirstConfig|].
  intros [e|].
  - apply quiet_counted. quiet_steps.
  - apply counted_bind; [apply counted_reconfigure|intros _].
    apply quiet_counted. quiet_steps.
Qed.

Lemma counted_run op : counted (run op).
Proof.
  destruct op; simpl;
    first [apply counted_Start | apply counted_configWatch | apply quiet_counted].
  - unfold configWatchInit. quiet_steps.
  - quiet_steps.
  - quiet_steps.
  - quiet_steps.
  - quiet_steps.
Qed.

Lemma counted_runAll ops : counted (runAll ops).
Proof.
  induction ops as [|op rest IH]; simpl.
  - apply quiet_counted, quiet_ret.
  - apply counted_bind; [apply counted_run|done].
Qed.

Lemma at_most_quiet {A} (m : M A) n : quiet m → at_most n m.
Proof. intros Hm r. destruct (Hm r) as (_ & -> & _). lia. Qed.

Lemma at_most_bind {A B} (m : M A) (k : A → M B) a b :
  at_most a m → (∀ x, at_most b (k x)) → at_most (a + b) (bind m k).
Proof.
  intros Hm Hk r. unfold bind. specialize (Hm r).
  destruct (m r) as [x r1 o1|p r1 o1|r1 o1]; simpl in *; [|lia|lia].
  specialize (Hk x r1). rewrite effects_of_after, reconfigurations_app. lia.
Qed.

Lemma at_most_reconfigure : at_most 1 reconfigure.
Proof. intros r. by rewrite reconfigure_enters. Qed.

(** An operation enters [reconfigure] at most once. *)
Lemma run_reconfigurations_le op : at_most 1 (run op).
Proof.
  destruct op; simpl; try (apply at_most_quiet; quiet_steps; fail).
  - unfold Start.
    apply (at_most_bind _ _ 0 1); [apply at_most_quiet; quiet_steps|intros _].
    apply (at_most_bind _ _ 0 1); [apply at_most_quiet, quiet_waitFirstConfig|].
    intros [e|]; [apply at_most_quiet; quiet_steps|].
    apply (at_most_bind _ _ 1 0); [apply at_most_reconfigure|intros _].
    apply at_most_quiet. quiet_steps.
  - unfold configWatch.
    apply (at_most_bind _ _ 0 1); [apply at_most_quiet, quiet_get|intros r0].
    destruct res as [err|snapshot]; [apply at_most_quiet, quiet_ret|].
    destruct (match configSnapshot r0 with Some _ => _ | None => _ end);
      [|apply at_most_quiet, quiet_ret].
    apply (at_most_bind _ _ 0 1); [apply at_most_quiet; quiet_steps|intros _].
    apply at_most_reconfigure.
Qed.

(** ** configWatch *)

(** C5, as the code has it.  A [configWatch] tick enters [reconfigure]
    exactly when [GetConfigSnapshot] succeeds and either no snapshot is
    installed or the fetched one is strictly newer than the installed
    one.  Then the tick is [reconfigure] on the struct with the fetched
    snapshot installed: it changes the generation where the stop
    handshake is answered (there is no ticker yet, or an observer is in
    its loop), and where it is not the tick is left waiting at the
    handshake with the generation as it was.  Otherwise the tick returns
    with the struct, and so the installed snapshot and the generation
    counter, as they were, and without any effect. *)
Theorem configWatch_reconfigures_iff_newer res r :
  let x := configWatch res r in
  let triggered :=
    ∃ snapshot, res = inr snapshot ∧
      (configSnapshot r = None ∨
       ∃ installed, configSnapshot r = Some installed ∧ strictlyNewer snapshot installed) in
  (reconfigure_marker ∈ effects_of x ↔ triggered) ∧
  (∀ snapshot, res = inr snapshot → reconfigure_marker ∈ effects_of x →
     x = reconfigure (set_configSnapshot (Some snapshot) r) ∧
     if observerAnswers r
     then activeGroupID (state_of x) = GoInt.incr (activeGroupID r) ∧
          activeGroupID (state_of x) ≠ activeGroupID r
     else x = Blocked (set_configSnapshot (Some snapshot) r)
                [reconfigure_marker; StopObserver]) ∧
  (reconfigure_marker ∉ effects_of x → x = Ret tt r []).
Proof.
  intros x triggered.
  pose (b := match res with
             | inr snapshot =>
                 match configSnapshot r with
                 | Some installed => isConfigSnapshotNewerThan installed snapshot
                 | None => true
                 end
             | inl _ => false
             end).
  assert (b = true ↔ triggered) as Hb.
  { subst b triggered. split.
    - destruct res as [err|snapshot]; [done|]. intros Hnew. exists snapshot.
      split; [done|]. destruct (configSnapshot r) as [installed|]; [right|by left].
      exists installed. split; [done|].
      by apply isConfigSnapshotNewerThan_strictlyNewer.
    - intros (snapshot & -> & [->|(installed & -> & Hnew)]); [done|].
      by apply isConfigSnapshotNewerThan_strictlyNewer. }
  assert (x = match res with
              | inr snapshot =>
                  if b then reconfigure (set_configSnapshot (Some snapshot) r)
                  else Ret tt r []
              | inl _ => Ret tt r []
              end) as Hx.
  { subst x b. unfold configWatch, bind, get, modify, ret.
    destruct res as [err|snapshot]; [done|].
    destruct (match configSnapshot r with Some _ => _ | None => _ end); [|done].
    simpl. by rewrite !after_nil. }
  assert (∀ r', reconfigure_marker ∈ effects_of (reconfigure r')) as Hmark.
  { intros r'. apply reconfigurations_elem_of. rewrite reconfigure_enters. lia. }
  assert (reconfigure_marker ∈ effects_of x ↔ b = true) as Hin.
  { rewrite Hx. destruct res as [err|snapshot]; [|destruct b].
    - split; [by intros ?%elem_of_nil|subst b; done].
    - split; [done|intros _; apply Hmark].
    - split; [by intros ?%elem_of_nil|done]. }
  split_and!.
  - by rewrite Hin.
  - intros snapshot -> Hm. apply Hin in Hm. rewrite Hm in Hx.
    split; [done|]. rewrite Hx.
    pose proof (reconfigure_advances (set_configSnapshot (Some snapshot) r)) as Hadv.
    pose proof (reconfigure_unfold (set_configSnapshot (Some snapshot) r)) as Hun.
    change (observerAnswers (set_configSnapshot (Some snapshot) r))
      with (observerAnswers r) in Hadv, Hun.
    destruct (observerAnswers r); [|done].
    rewrite Hadv. split; [done|]. apply incr_changes.
  - intros Hnin. rewrite Hx. destruct res as [err|snapshot]; [done|].
    destruct b; [|done]. exfalso. apply Hnin, Hin. done.
Qed.

(** ** The generation over a run *)

(** C8, as the code has it.  Over any sequence of operations,
    [activeGroupID] ends exactly as many [activeGroupID++] away from where
    it started as [reconfigure] got past its stop handshake, and nothing
    else touches it.  That is once per invocation of [reconfigure]: the
    two counts agree in a run that returns or panics, and in a run that
    is left waiting they differ by at most the one invocation that waits
    at the handshake.  As long as the increments stay within the range of
    a Go [int], the counter has grown by their number, so it is strictly
    greater after every reconfiguration that got through. *)
Theorem activeGroupID_counts_reconfigurations ops r :
  let x := runAll ops r in
  let n := reconfigurations (effects_of x) in
  let k := generations (effects_of x) in
  activeGroupID (state_of x) = Nat.iter k GoInt.incr (activeGroupID r) ∧
  (k <= n <= S k)%nat ∧
  (blocked x = false → k = n) ∧
  (GoInt.in_range (activeGroupID r) →
   activeGroupID r + Z.of_nat k <= GoInt.max_int →
   activeGroupID (state_of x) = activeGroupID r + Z.of_nat k ∧
   ((0 < k)%nat → activeGroupID r < activeGroupID (state_of x))).
Proof.
  intros x n k. pose proof (counted_runAll ops r) as Hc. cbv zeta in Hc.
  fold x in Hc. fold n k in Hc. destruct Hc as (Hg & Hle & Heq).
  split_and!; [done|lia|lia|done|].
  intros Hr Hb. rewrite Hg, iter_incr by done. lia.
Qed.

(** ** markAbsentInstances *)

Section MarkAbsent.

Variable snapshot : ConfigSnapshot.

Local Abbreviation slots_marked := (slots_marked snapshot).
Local Abbreviation slots_marked_all := (slots_marked_all snapshot).
Local Abbreviation no_fatal := (no_fatal snapshot).

Lemma slots_marked_refl vbID idx replicas : slots_marked vbID idx replicas replicas.
Proof. split; [done|]. intros i s Hs. exists s. auto. Qed.

Lemma slots_marked_all_weaken vbID idx replicas replicas' :
  slots_marked_all vbID idx replicas replicas' → slots_marked vbID idx replicas replicas'.
Proof.
  intros [Hlen H]. split; [done|]. intros i s Hs. rewrite (H i s Hs).
  destruct (marksAbsent snapshot vbID (idx + i)) eqn:Hm; eauto.
Qed.

Lemma markAbsentSlots_spec vbID idx replicas :
  ∀ replicas' out e,
    markAbsentSlots snapshot vbID idx replicas = (replicas', out, e) →
    slots_marked vbID idx replicas replicas' ∧
    match e with
    | None => no_fatal vbID idx replicas ∧ slots_marked_all vbID idx replicas replicas'
    | Some err =>
        ∃ i, (i < length replicas)%nat ∧ fatalError snapshot vbID (idx + i) = Some err
    end.
Proof.
  revert idx. induction replicas as [|s rest IH]; intros idx replicas' out e; simpl.
  - intros [= <- <- <-]. split; [apply slots_marked_refl|].
    split; [intros i Hi; simpl in Hi; lia|]. split; [done|]. intros i s Hs. done.
  - specialize (IH (S idx)).
    destruct (markAbsentSlots snapshot vbID (S idx) rest) as [[rest' out'] e'].
    specialize (IH _ _ _ eq_refl) as (Hm & He).
    assert (∀ s0 : vbUUIDAndSeqNo,
              (s0 = s ∨ s0 = SetAbsent s ∧ marksAbsent snapshot vbID idx = true) →
              slots_marked vbID idx (s :: rest) (s0 :: rest')) as Hcons.
    { intros s0 Hs0. destruct Hm as [Hlen Hm]. split; [simpl; lia|].
      intros [|i] s1 Hs1; simpl in *.
      - injection Hs1 as <-. exists s0. rewrite Nat.add_0_r. done.
      - destruct (Hm i s1 Hs1) as (s' & ? & Hs'). exists s'. split; [done|].
        by replace (idx + S i)%nat with (S idx + i)%nat by lia. }
    assert (∀ s0 : vbUUIDAndSeqNo,
              fatalError snapshot vbID idx = None →
              s0 = (if marksAbsent snapshot vbID idx then SetAbsent s else s) →
              match e' with
              | None => no_fatal vbID idx (s :: rest) ∧
                        slots_marked_all vbID idx (s :: rest) (s0 :: rest')
              | Some err =>
                  ∃ i, (i < length (s :: rest))%nat ∧
                       fatalError snapshot vbID (idx + i) = Some err
              end) as Hrest.
    { intros s0 Hf Hs0. destruct e' as [err|].
      - destruct He as (i & Hi & Herr). exists (S i). split; [simpl; lia|].
        by replace (idx + S i)%nat with (S idx + i)%nat by lia.
      - destruct He as (Hnf & Hlen & Hall). split.
        + intros [|i] Hi; [by rewrite Nat.add_0_r|].
          replace (idx + S i)%nat with (S idx + i)%nat by lia.
          apply Hnf. simpl in Hi. lia.
        + split; [simpl; lia|]. intros [|i] s1 Hs1; simpl in *.
          * injection Hs1 as <-. rewrite Nat.add_0_r. by f_equal.
          * replace (idx + S i)%nat with (S idx + i)%nat by lia. by apply Hall. }
    unfold marksAbsent, fatalError in Hcons, Hrest.
    destruct (VbucketToServer snapshot vbID (uint32 (Z.of_nat idx)))
      as [err|serverIndex] eqn:Hv.
    + destruct (errors_Is err ErrInvalidReplica) eqn:Hinv.
      * intros [= <- <- <-]. split; [apply Hcons; auto|by apply Hrest].
      * intros [= <- <- <-]. split; [apply slots_marked_refl|].
        exists 0%nat. split; [simpl; lia|]. unfold fatalError.
        by rewrite Nat.add_0_r, Hv, Hinv.
    + destruct (serverIndex <? 0) eqn:Hneg.
      * intros [= <- <- <-]. split; [apply Hcons; auto|by apply Hrest].
      * intros [= <- <- <-]. split; [apply Hcons; auto|by apply Hrest].
Qed.

Lemma markAbsentEntry_eq vbID replicas replicas' out e r :
  configSnapshot r = Some snapshot →
  markAbsentSlots snapshot vbID 0 replicas = (replicas', out, e) →
  markAbsentEntry vbID replicas None r =
    Ret (e, match e with Some _ => false | None => true end)
        (set_persistedSeqNos (<[vbID := replicas']> (persistedSeqNos r)) r) out.
Proof.
  intros Hsnap Hslots. unfold markAbsentEntry, bind, get. rewrite Hsnap, Hslots.
  unfold emitAll, storeReplicas, modify, ret.
  destruct e; simpl; by rewrite app_nil_r.
Qed.

(** The traversal over entries [kvs] of the map, none visited twice. *)
Lemma markAbsentRange_spec kvs r :
  configSnapshot r = Some snapshot →
  NoDup kvs.*1 →
  (∀ vb v, (vb, v) ∈ kvs → persistedSeqNos r !! vb = Some v) →
  ∃ e m' out,
    rangeEntries markAbsentEntry kvs None r = Ret e (set_persistedSeqNos m' r) out ∧
    (∀ vb, vb ∉ kvs.*1 → m' !! vb = persistedSeqNos r !! vb) ∧
    (∀ vb v, (vb, v) ∈ kvs →
       ∃ v', m' !! vb = Some v' ∧ slots_marked vb 0 v v' ∧
             (e = None → slots_marked_all vb 0 v v')) ∧
    match e with
    | None => ∀ vb v, (vb, v) ∈ kvs → no_fatal vb 0 v
    | Some err =>
        ∃ vb v i, (vb, v) ∈ kvs ∧ (i < length v)%nat ∧
                  fatalError snapshot vb i = Some err
    end.
Proof.
  revert r. induction kvs as [|[k v] rest IH]; intros r Hsnap Hnd Hin.
  - exists None, (persistedSeqNos r), []. simpl. split_and!.
    + by destruct r.
    + done.
    + by intros vb v ?%elem_of_nil.
    + by intros vb v ?%elem_of_nil.
  - simpl in Hnd. apply NoDup_cons in Hnd as [Hk Hnd].
    destruct (markAbsentSlots snapshot k 0 v) as [[v' out] e] eqn:Hslots.
    pose proof (markAbsentSlots_spec k 0 v v' out e Hslots) as (Hm & He).
    pose proof (markAbsentEntry_eq k v v' out e r Hsnap Hslots) as Hentry.
    simpl. rewrite (bind_Ret _ _ _ _ _ _ Hentry). simpl.
    destruct e as [err|]; simpl.
    + exists (Some err), (<[k := v']> (persistedSeqNos r)), (out ++ []).
      split_and!; [done| | |].
      * intros vb Hvb. apply lookup_insert_ne. intros ->. apply Hvb. by left.
      * intros vb w [?|Hw]%elem_of_cons; [simplify_eq|].
        -- exists v'. rewrite lookup_insert_eq. done.
        -- assert (vb ≠ k) by (intros ->; apply Hk, list_elem_of_fmap; by exists (k, w)).
           exists w. rewrite lookup_insert_ne by done. split; [apply Hin; by right|].
           split; [apply slots_marked_refl|done].
      * destruct He as (i & Hi & Hf). exists k, v, i. split; [by left|done].
    + destruct He as [Hnf Hall].
      set (r1 := set_persistedSeqNos (<[k := v']> (persistedSeqNos r)) r).
      destruct (IH r1) as (e & m' & out' & Hrun & Hother & Hslotsrest & Herr);
        [done|done| |].
      { intros vb w Hw. simpl. rewrite lookup_insert_ne; [apply Hin; by right|].
        intros ->. apply Hk, list_elem_of_fmap. by exists (vb, w). }
      rewrite Hrun. exists e, m', (out ++ out'). split_and!; [done| | |].
      * intros vb Hvb. rewrite Hother by (intros ?; apply Hvb; by right). simpl.
        apply lookup_insert_ne. intros ->. apply Hvb. by left.
      * intros vb w [?|Hw]%elem_of_cons; [simplify_eq|by apply Hslotsrest].
        exists v'. rewrite Hother by done. simpl. rewrite lookup_insert_eq.
        split; [done|]. split; [by apply slots_marked_all_weaken|done].
      * destruct e as [err|].
        -- destruct Herr as (vb & w & i & Hw & Hi & Hf).
           exists vb, w, i. split; [by right|done].
        -- intros vb w [?|Hw]%elem_of_cons; [by simplify_eq|by eapply Herr].
Qed.

End MarkAbsent.

(** C7.  With a snapshot installed, [markAbsentInstances] returns; it
    changes nothing but absent flags; a slot it marks is one for which
    [VbucketToServer] answered [ErrInvalidReplica] or a negative server
    index, and when it returns no error every such slot is marked; a slot
    that was absent stays absent.  It returns an error exactly when
    [VbucketToServer] answers some slot with an error that is not
    [ErrInvalidReplica], the error returned is such an answer, and the
    rebuild of lines 260 to 264 panics with it, and so [reconfigure] once
    it is past its stop handshake. *)
Theorem markAbsentInstances_marks r snapshot :
  configSnapshot r = Some snapshot →
  ∃ e m' out,
    markAbsentInstances r = Ret e (set_persistedSeqNos m' r) out ∧
    (∀ vbID, persistedSeqNos r !! vbID = None → m' !! vbID = None) ∧
    (∀ vbID replicas i s,
       persistedSeqNos r !! vbID = Some replicas → replicas !! i = Some s →
       ∃ replicas' s',
         m' !! vbID = Some replicas' ∧ length replicas' = length replicas ∧
         replicas' !! i = Some s' ∧
         vbUUID s' = vbUUID s ∧ seqNo s' = seqNo s ∧
         (absent s = true → absent s' = true) ∧
         (absent s' = true → absent s = true ∨ marksAbsent snapshot vbID i = true) ∧
         (e = None → absent s' = absent s || marksAbsent snapshot vbID i)) ∧
    (e = None ↔
       ∀ vbID replicas i,
         persistedSeqNos r !! vbID = Some replicas → (i < length replicas)%nat →
         fatalError snapshot vbID i = None) ∧
    (∀ err, e = Some err →
       (∃ vbID replicas i,
          persistedSeqNos r !! vbID = Some replicas ∧ (i < length replicas)%nat ∧
          fatalError snapshot vbID i = Some err) ∧
       (∀ r0 o1,
          reset r0 = Ret tt r o1 →
          ∃ out',
            reconfigureRebuild r0 = Panicked (PanicError err) (set_persistedSeqNos m' r) out') ∧
       ∀ r0 o1,
         observerAnswers r0 = true →
         reset (advanced r0) = Ret tt r o1 →
         ∃ out', reconfigure r0 = Panicked (PanicError err) (set_persistedSeqNos m' r) out').
Proof.
  intros Hsnap.
  destruct (markAbsentRange_spec snapshot (map_to_list (persistedSeqNos r)) r)
    as (e & m' & out & Hrun & Hother & Hslots & Herr).
  { done. }
  { apply NoDup_fst_map_to_list. }
  { intros vb v Hv. by apply elem_of_map_to_list. }
  assert (markAbsentInstances r = Ret e (set_persistedSeqNos m' r) out) as Hcall.
  { unfold markAbsentInstances, bind, get, Range. by rewrite Hrun. }
  exists e, m', out. split_and!; [done| | | |].
  - intros vbID Hnone. rewrite Hother; [done|].
    intros ((vb & v) & -> & Hin%elem_of_map_to_list)%list_elem_of_fmap.
    simpl in Hnone. congruence.
  - intros vbID replicas i s Hvb Hs.
    destruct (Hslots vbID replicas) as (replicas' & Hm' & [Hlen Hmarked] & Hall);
      [by apply elem_of_map_to_list|].
    destruct (Hmarked i s Hs) as (s' & Hs' & Hcase).
    exists replicas', s'. split_and!; try done.
    + by destruct Hcase as [->|[-> _]].
    + by destruct Hcase as [->|[-> _]].
    + by destruct Hcase as [->|[-> _]].
    + destruct Hcase as [->|[-> ?]]; auto.
    + intros He. destruct (Hall He) as [_ Hexact].
      rewrite (Hexact i s Hs) in Hs'. injection Hs' as <-.
      simpl. destruct (marksAbsent snapshot vbID i); simpl; [by rewrite orb_true_r|].
      by rewrite orb_false_r.
  - split.
    + intros ->. intros vbID replicas i Hvb Hi.
      by apply (Herr vbID replicas); [apply elem_of_map_to_list|].
    + intros Hnf. destruct e as [err|]; [|done].
      destruct Herr as (vb & v & i & Hin%elem_of_map_to_list & Hi & Hf).
      rewrite (Hnf vb v i Hin Hi) in Hf. done.
  - intros err ->.
    assert (∀ r0 o1, reset r0 = Ret tt r o1 →
              ∃ out', reconfigureRebuild r0
                      = Panicked (PanicError err) (set_persistedSeqNos m' r) out')
      as Hrebuild.
    { intros r0 o1 Hreset. unfold reconfigureRebuild.
      rewrite (bind_Ret _ _ _ _ _ _ Hreset), (bind_Ret _ _ _ _ _ _ Hcall).
      simpl. eauto. }
    split_and!.
    + destruct Herr as (vb & v & i & Hin%elem_of_map_to_list & Hi & Hf). eauto 10.
    + done.
    + intros r0 o1 Hans Hreset. rewrite reconfigure_unfold, Hans.
      destruct (Hrebuild _ _ Hreset) as (out' & ->). simpl. eauto.
Qed.

(** ** loadVbUUIDMap *)

Section LoadVbUUIDMap.

Variable GetFailoverLogs : Z → Error + list FailoverEntry.

Implicit Types (kvs : list (Z * list vbUUIDAndSeqNo)) (r : rollbackMitigation).

Lemma loadVbUUIDEntry_first vbID replicas u r :
  firstVbUUID GetFailoverLogs vbID = Some u →
  loadVbUUIDEntry GetFailoverLogs vbID replicas tt r =
    Ret (tt, true) (set_vbUUIDMap (<[vbID := u]> (vbUUIDMap r)) r)
        [Log LDebug "observing vbID: %v, vbUUID: %v, failoverInfo: %v"].
Proof.
  unfold firstVbUUID, loadVbUUIDEntry.
  destruct (GetFailoverLogs vbID) as [err|[|first rest]]; [done|done|].
  by intros [= <-].
Qed.

Lemma loadVbUUIDEntry_none vbID replicas r :
  firstVbUUID GetFailoverLogs vbID = None →
  loadVbUUIDEntry GetFailoverLogs vbID replicas tt r =
    Panicked (match GetFailoverLogs vbID with
              | inl err => PanicError err
              | inr _ => PanicRuntime "index out of range"
              end) r [].
Proof.
  unfold firstVbUUID, loadVbUUIDEntry.
  by destruct (GetFailoverLogs vbID) as [err|[|first rest]].
Qed.

(** The traversal returns when every entry has a non-empty failover
    log, and then the map holds the first vbUUID of each. *)
Lemma loadRange_returns kvs r :
  (∀ k, k ∈ kvs.*1 → is_Some (firstVbUUID GetFailoverLogs k)) →
  ∃ m' out,
    rangeEntries (loadVbUUIDEntry GetFailoverLogs) kvs tt r
      = Ret tt (set_vbUUIDMap m' r) out ∧
    ∀ k, m' !! k = if decide (k ∈ kvs.*1) then firstVbUUID GetFailoverLogs k
                   else vbUUIDMap r !! k.
Proof.
  revert r. induction kvs as [|[k0 v] kvs IH]; intros r Hgood.
  - exists (vbUUIDMap r), []. split; [by destruct r|].
    intros k. rewrite decide_False; [done|]. by intros ?%elem_of_nil.
  - destruct (Hgood k0) as (u & Hu); [by left|].
    set (r1 := set_vbUUIDMap (<[k0 := u]> (vbUUIDMap r)) r).
    destruct (IH r1) as (m' & out & Hrun & Hm').
    { intros k' Hk'. apply Hgood. by right. }
    exists m', (Log LDebug "observing vbID: %v, vbUUID: %v, failoverInfo: %v" :: out).
    simpl. rewrite (bind_Ret _ _ _ _ _ _ (loadVbUUIDEntry_first k0 v u r Hu)).
    simpl. fold r1. rewrite Hrun. split; [done|].
    intros k. rewrite Hm'. simpl.
    destruct (decide (k ∈ kvs.*1)) as [Hin|Hnin].
    + rewrite decide_True; [done|by right].
    + destruct (decide (k = k0)) as [->|Hne].
      * rewrite decide_True by (by left). by rewrite lookup_insert_eq.
      * rewrite decide_False by (by intros [?|?]%elem_of_cons).
        by rewrite lookup_insert_ne.
Qed.

(** The traversal panics as soon as it meets an entry whose failover
    log is an error or is empty; when no entry is an error, the panic is
    the index out of range. *)
Lemma loadRange_panics kvs r :
  (∃ k, k ∈ kvs.*1 ∧ firstVbUUID GetFailoverLogs k = None) →
  ∃ p r' out,
    rangeEntries (loadVbUUIDEntry GetFailoverLogs) kvs tt r = Panicked p r' out ∧
    ((∀ k, k ∈ kvs.*1 → ∃ logs, GetFailoverLogs k = inr logs) →
     p = PanicRuntime "index out of range").
Proof.
  revert r. induction kvs as [|[k0 v] kvs IH]; intros r (k & Hin & Hbad).
  - by apply elem_of_nil in Hin.
  - simpl. destruct (firstVbUUID GetFailoverLogs k0) as [u|] eqn:Hk0.
    + rewrite (bind_Ret _ _ _ _ _ _ (loadVbUUIDEntry_first k0 v u r Hk0)). simpl.
      destruct (IH (set_vbUUIDMap (<[k0 := u]> (vbUUIDMap r)) r))
        as (p & r' & out & -> & Hp).
      { exists k. split; [|done]. simpl in Hin.
        apply elem_of_cons in Hin as [->|Hin]; [congruence|done]. }
      exists p, r', (Log LDebug "observing vbID: %v, vbUUID: %v, failoverInfo: %v" :: out).
      split; [done|]. intros Hok. apply Hp. intros k' Hk'. apply Hok. by right.
    + rewrite (bind_Panicked _ _ _ _ _ _ (loadVbUUIDEntry_none k0 v r Hk0)).
      do 3 eexists. split; [done|]. intros Hok.
      destruct (Hok k0) as (logs & ->); [by left|done].
Qed.

Lemma elem_of_fst_map_to_list (m : gmap Z (list vbUUIDAndSeqNo)) k :
  k ∈ (map_to_list m).*1 ↔ is_Some (m !! k).
Proof.
  rewrite list_elem_of_fmap. split.
  - intros ([k' v] & -> & Hin%elem_of_map_to_list). by exists v.
  - intros [v Hv]. exists (k, v). split; [done|by apply elem_of_map_to_list].
Qed.

(** C10.  [loadVbUUIDMap] returns exactly when the client answers every
    vBucket of [persistedSeqNos] with a failover log that has a first
    entry, and then [vbUUIDMap] holds that entry's vbUUID.  When the
    answer for some vBucket is a successful but empty log, it panics, and
    so does the start of [startObserve]; when moreover no answer is an
    error, the panic is the index out of range at [failoverLogs[0]]. *)
Theorem loadVbUUIDMap_empty_failover_log r :
  (returned (loadVbUUIDMap GetFailoverLogs r) = true ↔
     ∀ vbID, is_Some (persistedSeqNos r !! vbID) →
             ∃ first rest, GetFailoverLogs vbID = inr (first :: rest)) ∧
  (returned (loadVbUUIDMap GetFailoverLogs r) = true →
     ∀ vbID first rest,
       is_Some (persistedSeqNos r !! vbID) →
       GetFailoverLogs vbID = inr (first :: rest) →
       vbUUIDMap (state_of (loadVbUUIDMap GetFailoverLogs r)) !! vbID
         = Some (failover_VbUUID first)) ∧
  (∀ vbID,
     is_Some (persistedSeqNos r !! vbID) → GetFailoverLogs vbID = inr [] →
     returned (loadVbUUIDMap GetFailoverLogs r) = false ∧
     returned (startObserveInit GetFailoverLogs r) = false ∧
     ((∀ vb, is_Some (persistedSeqNos r !! vb) → ∃ logs, GetFailoverLogs vb = inr logs) →
      ∃ r' out,
        loadVbUUIDMap GetFailoverLogs r
          = Panicked (PanicRuntime "index out of range") r' out)).
Proof.
  assert (∀ r0, loadVbUUIDMap GetFailoverLogs r0 =
                rangeEntries (loadVbUUIDEntry GetFailoverLogs)
                  (map_to_list (persistedSeqNos r0)) tt r0) as Hcall.
  { intros r0. unfold loadVbUUIDMap, bind, get, Range.
    by destruct (rangeEntries _ _ _ r0). }
  assert (∀ vbID, is_Some (firstVbUUID GetFailoverLogs vbID) ↔
                  ∃ first rest, GetFailoverLogs vbID = inr (first :: rest)) as Hfirst.
  { intros vbID. unfold firstVbUUID.
    destruct (GetFailoverLogs vbID) as [err|[|first rest]]; split;
      try (by intros [? ?]); try (by intros (? & ? & ?)); eauto. }
  assert (∀ r0 vbID,
            is_Some (persistedSeqNos r0 !! vbID) →
            firstVbUUID GetFailoverLogs vbID = None →
            ∃ p r' out,
              loadVbUUIDMap GetFailoverLogs r0 = Panicked p r' out ∧
              ((∀ vb, is_Some (persistedSeqNos r0 !! vb) →
                      ∃ logs, GetFailoverLogs vb = inr logs) →
               p = PanicRuntime "index out of range")) as Hpanics.
  { intros r0 vbID Hin Hbad. rewrite Hcall.
    destruct (loadRange_panics (map_to_list (persistedSeqNos r0)) r0)
      as (p & r' & out & -> & Hp).
    { exists vbID. split; [by apply elem_of_fst_map_to_list|done]. }
    exists p, r', out. split; [done|]. intros Hok. apply Hp.
    intros k Hk%elem_of_fst_map_to_list. by apply Hok. }
  split_and!.
  - split.
    + intros Hret vbID Hin. apply Hfirst.
      destruct (firstVbUUID GetFailoverLogs vbID) eqn:Hv; [done|].
      destruct (Hpanics r vbID Hin Hv) as (p & r' & out & Hp & _).
      rewrite Hp in Hret. done.
    + intros Hgood. rewrite Hcall.
      destruct (loadRange_returns (map_to_list (persistedSeqNos r)) r)
        as (m' & out & -> & _); [|done].
      intros k Hk%elem_of_fst_map_to_list. by apply Hfirst, Hgood.
  - intros Hret vbID first rest Hin Hlogs.
    assert (∀ k, k ∈ (map_to_list (persistedSeqNos r)).*1 →
                 is_Some (firstVbUUID GetFailoverLogs k)) as Hgood.
    { intros k Hk%elem_of_fst_map_to_list.
      destruct (firstVbUUID GetFailoverLogs k) eqn:Hv; [done|].
      destruct (Hpanics r k Hk Hv) as (p & r' & out & Hp & _).
      rewrite Hp in Hret. done. }
    rewrite Hcall.
    destruct (loadRange_returns (map_to_list (persistedSeqNos r)) r Hgood)
      as (m' & out & -> & Hm').
    simpl. rewrite Hm', decide_True by (by apply elem_of_fst_map_to_list).
    unfold firstVbUUID. by rewrite Hlogs.
  - intros vbID Hin Hempty.
    assert (firstVbUUID GetFailoverLogs vbID = None) as Hbad
      by (unfold firstVbUUID; by rewrite Hempty).
    split_and!.
    + destruct (Hpanics r vbID Hin Hbad) as (p & r' & out & -> & _). done.
    + unfold startObserveInit, bind, modify. simpl.
      destruct (Hpanics (set_vbUUIDMap ∅ r) vbID Hin Hbad) as (p & r' & out & -> & _).
      done.
    + intros Hok. destruct (Hpanics r vbID Hin Hbad) as (p & r' & out & Hp & Hidx).
      rewrite (Hidx Hok) in Hp. eauto.
Qed.

End LoadVbUUIDMap.

(** * The properties at concrete inputs *)

Section Instances.

Import Scenarios.

Ltac slot_cases :=
  repeat match goal with
         | H : _ ∈ _ :: _ |- _ => apply elem_of_cons in H as [->|H]
         | H : _ ∈ [] |- _ => by apply elem_of_nil in H
         end.

(** Convergent persist: three replicas on branch 0xAAAA at 100, 120, 110. *)
Lemma getMinSeqNo_convergence_witness :
  ∃ m, getMinSeqNo 42 r_convergent = Ret m r_convergent [] ∧
       is_minimum m (presentSeqNos convergent).
Proof.
  apply (getMinSeqNo_convergence r_convergent 42 convergent).
  - reflexivity.
  - apply Exists_cons_hd. reflexivity.
  - intros s1 s2 H1 H2 _ _. unfold convergent in *. slot_cases; reflexivity.
Defined.

(** Divergent branches: slot 1 reports 0xBBBB, the others 0xAAAA. *)
Lemma getMinSeqNo_divergence_witness :
  ∃ out, getMinSeqNo 42 r_divergent = Ret 0 r_divergent out.
Proof.
  apply (getMinSeqNo_divergence r_divergent 42 divergent 1 2
           (mkSlot 0xBBBB 200 false) (mkSlot 0xAAAA 150 false));
    try reflexivity.
  simpl. discriminate.
Defined.

(** All replicas absent. *)
Lemma getMinSeqNo_all_absent_witness :
  getMinSeqNo 9 r_absent = Ret 0 r_absent [Log LError "all replicas absent"].
Proof.
  apply (getMinSeqNo_all_absent r_absent 9).
  intros replicas Hr. vm_compute in Hr. injection Hr as <-.
  repeat constructor.
Defined.

(** A callback of generation 1 delivered in generation 2. *)
Lemma observeCallback_stale_witness :
  let x := observeCallback 7 0 1 0xAAAA (inr (mkObserveVbResult 100 0xAAAA)) r_holes in
  x = Ret tt r_holes [Log LDebug "closed(%v) or groupID(%v!=%v) changed on observe"] ∧
  persistedSeqNos (state_of x) = persistedSeqNos r_holes ∧
  vbUUIDMap (state_of x) = vbUUIDMap r_holes ∧
  (∀ ev, Publish ev ∉ effects_of x).
Proof.
  apply (observeCallback_stale 7 0 1 0xAAAA r_holes). right. simpl. discriminate.
Defined.

(** Installed (2, 5): (2, 4) is not newer, (3, 0) is. *)
Lemma isConfigSnapshotNewerThan_order_witness :
  isConfigSnapshotNewerThan snapshot3 snapshot_older = false ∧
  isConfigSnapshotNewerThan snapshot3 snapshot_newer = true ∧
  isConfigSnapshotNewerThan snapshot3 snapshot3 = false.
Proof.
  destruct isConfigSnapshotNewerThan_order as [Hiff Heq]. split_and!.
  - apply not_true_is_false. intros H%Hiff. simpl in H. lia.
  - apply Hiff. simpl. lia.
  - apply Heq.
Defined.

(** Older topology ignored; newer topology reconfigures, and with the
    observer in its loop the generation changes. *)
Lemma configWatch_reconfigures_iff_newer_witness :
  configWatch (inr snapshot_older) r0 = Ret tt r0 [] ∧
  reconfigure_marker ∈ effects_of (configWatch (inr snapshot_newer) r0) ∧
  activeGroupID (state_of (configWatch (inr snapshot_newer) r0)) = 2.
Proof.
  assert (reconfigure_marker ∈ effects_of (configWatch (inr snapshot_newer) r0)) as Hmarker.
  { apply (configWatch_reconfigures_iff_newer (inr snapshot_newer) r0).
    exists snapshot_newer. split; [done|]. right. exists snapshot3. split; [done|].
    left. simpl. lia. }
  split_and!.
  - apply (configWatch_reconfigures_iff_newer (inr snapshot_older) r0).
    intros H. apply (configWatch_reconfigures_iff_newer (inr snapshot_older) r0) in H
      as (snapshot & [= <-] & [Hnone|(installed & [= <-] & Hnew)]); [done|].
    unfold strictlyNewer in Hnew. simpl in Hnew. lia.
  - exact Hmarker.
  - destruct (configWatch_reconfigures_iff_newer (inr snapshot_newer) r0)
      as (_ & Hthen & _).
    destruct (Hthen snapshot_newer eq_refl Hmarker) as [_ Hans].
    change (observerAnswers r0) with true in Hans. cbv iota in Hans.
    destruct Hans as [Hg _]. rewrite Hg. reflexivity.
Defined.

(** A temporary failure, and a failure that is not, in a running
    subsystem under the active generation. *)
Lemma observeCallback_error_witness :
  observeCallback 42 0 1 0xAAAA (inl (ErrWrap "observe" ErrTemporaryFailure)) r0
    = Ret tt r0 [Log LError "error while observe: %v"] ∧
  observeCallback 42 0 1 0xAAAA (inl (ErrOther "shutdown")) r0
    = Panicked (PanicError (ErrOther "shutdown")) r0 [].
Proof.
  split.
  - apply (observeCallback_error 42 0 1 0xAAAA r0
             (ErrWrap "observe" ErrTemporaryFailure)); reflexivity.
  - apply (observeCallback_error 42 0 1 0xAAAA r0 (ErrOther "shutdown")); reflexivity.
Defined.

(** Two topology changes out of six operations, both past the stop
    handshake. *)
Lemma activeGroupID_counts_reconfigurations_witness :
  reconfigurations (effects_of (runAll two_reconfigurations r0)) = 2%nat ∧
  generations (effects_of (runAll two_reconfigurations r0)) = 2%nat ∧
  activeGroupID (state_of (runAll two_reconfigurations r0)) = 3.
Proof.
  assert (generations (effects_of (runAll two_reconfigurations r0)) = 2%nat) as Hk
    by (vm_compute; reflexivity).
  assert (blocked (runAll two_reconfigurations r0) = false) as Hb
    by (vm_compute; reflexivity).
  pose proof (activeGroupID_counts_reconfigurations two_reconfigurations r0) as H.
  cbv zeta in H. destruct H as (_ & _ & Heq & Hrange).
  split_and!.
  - rewrite <- (Heq Hb). exact Hk.
  - exact Hk.
  - destruct Hrange as [Hval _].
    + unfold GoInt.in_range, GoInt.min_int, GoInt.max_int, GoInt.bits. simpl. lia.
    + rewrite Hk. unfold GoInt.max_int, GoInt.bits. simpl. lia.
    + rewrite Hval, Hk. reflexivity.
Defined.

(** Replica 2 of vBucket 7 is invalid, replica 1 of vBucket 42 has a
    negative server index. *)
Lemma markAbsentInstances_marks_witness :
  ∃ e m' out,
    markAbsentInstances r_holes = Ret e (set_persistedSeqNos m' r_holes) out ∧
    (e = None ↔
       ∀ vbID replicas i,
         persistedSeqNos r_holes !! vbID = Some replicas → (i < length replicas)%nat →
         fatalError snapshot_holes vbID i = None).
Proof.
  destruct (markAbsentInstances_marks r_holes snapshot_holes eq_refl)
    as (e & m' & out & Hrun & _ & _ & Hiff & _).
  exists e, m', out. split; [exact Hrun|exact Hiff].
Defined.

(** vBucket 9 has an empty failover log and no answer is an error. *)
Lemma loadVbUUIDMap_empty_failover_log_witness :
  returned (loadVbUUIDMap failoverLogs r_absent) = false ∧
  returned (startObserveInit failoverLogs r_absent) = false ∧
  ∃ r' out,
    loadVbUUIDMap failoverLogs r_absent = Panicked (PanicRuntime "index out of range") r' out.
Proof.
  destruct (loadVbUUIDMap_empty_failover_log failoverLogs r_absent) as (_ & _ & H).
  destruct (H 9) as (H1 & H2 & H3).
  - vm_compute. eauto.
  - reflexivity.
  - split_and!; [exact H1|exact H2|]. apply H3.
    intros vb _. unfold failoverLogs. destruct (vb =? 42); eauto.
Defined.

(** The scenarios of the specification. *)

Example convergent_persist :
  state_of ((s1_1 ;;; s1_2 ;;; s1_3) r0) = r_convergent ∧
  last (published ((s1_1 ;;; s1_2 ;;; s1_3) r0)) = Some (mkPersistSeqNo 42 100).
Proof. vm_compute. split; reflexivity. Qed.

Example divergent_branches :
  published ((s1_1 ;;; s2_2) r0) = [mkPersistSeqNo 42 0; mkPersistSeqNo 42 0] ∧
  vbUUIDMap (state_of ((s1_1 ;;; s2_2) r0)) !! 42 = Some 0xBBBB ∧
  persistedSeqNos (state_of ((s1_1 ;;; s2_2 ;;; s2_3) r0)) !! 42 = Some divergent.
Proof. vm_compute. split_and!; reflexivity. Qed.

Example invalid_replica_marked_absent :
  ∃ out,
    markAbsentInstances r_holes =
      Ret None
        (set_persistedSeqNos
           {[ 7 := [zeroSlot; zeroSlot; SetAbsent zeroSlot];
              42 := [zeroSlot; SetAbsent zeroSlot; zeroSlot] ]} r_holes) out.
Proof. eexists. vm_compute. reflexivity. Qed.

Example unreadable_routing_is_fatal :
  ∃ r' out,
    reconfigure (mkRM (Some snapshot_holes) ∅ ∅ true false [7; 13] 0 false 0)
      = Panicked (PanicError (ErrOther "invalid vbucket map")) r' out.
Proof. do 2 eexists. vm_compute. reflexivity. Qed.

Example older_topology_ignored :
  run (OpConfigWatch (inr snapshot_older)) r0 = Ret tt r0 [].
Proof. reflexivity. Qed.

Example first_start :
  ∃ m out,
    Start (delivers snapshot3) (NewRollbackMitigation [42; 7])
      = Ret tt (mkRM (Some snapshot3) m ∅ false false [42; 7] 1 false 0) out ∧
    m !! 42 = Some (replicate 3 zeroSlot) ∧
    last out = Some GoConfigWatch.
Proof. do 2 eexists. vm_compute. split_and!; reflexivity. Qed.

End Instances.

(** ** What a run can reach *)

Section Reachability.

Import Scenarios.

Lemma tick_revision_returns j g :
  ∃ out,
    configWatch (inr (revision (j + 1))) (at_revision j g)
      = Ret tt (at_revision (j + 1) (GoInt.incr g)) out.
Proof.
  unfold configWatch, bind, get. simpl.
  assert (isConfigSnapshotNewerThan (revision j) (revision (j + 1)) = true) as ->.
  { apply isConfigSnapshotNewerThan_strictlyNewer. right. simpl. lia. }
  eexists. reflexivity.
Qed.

Lemma ticks_reach n : ∀ j g,
  ∃ out,
    runAll (ticks j n) (at_revision j g)
      = Ret tt (at_revision (j + Z.of_nat n) (Nat.iter n GoInt.incr g)) out.
Proof.
  induction n as [|n IH]; intros j g.
  - exists []. simpl. unfold ret. do 2 f_equal. lia.
  - destruct (tick_revision_returns j g) as (o1 & H1).
    destruct (IH (j + 1) (GoInt.incr g)) as (o2 & H2).
    exists (o1 ++ o2). cbn [ticks runAll run].
    rewrite (bind_Ret _ _ _ _ _ _ H1), H2. cbn [after].
    do 2 f_equal; [lia|]. by rewrite Nat.iter_succ_r.
Qed.

(** Every positive value of an [int] is a value the counter reaches:
    start the subsystem and let the cluster configuration advance often
    enough. *)
Lemma counter_reachable g :
  1 <= g <= GoInt.max_int →
  ∃ ops out,
    runAll ops (NewRollbackMitigation []) = Ret tt (at_revision (g - 1) g) out.
Proof.
  intros Hg.
  assert (∃ n, Z.of_nat n = g - 1) as (n & Hn).
  { exists (Z.to_nat (g - 1)). lia. }
  assert (∃ o0, Start (delivers (revision 0)) (NewRollbackMitigation [])
                = Ret tt (at_revision 0 1) o0) as (o0 & H0).
  { eexists. vm_compute. reflexivity. }
  destruct (ticks_reach n 0 1) as (o1 & H1).
  exists (OpStart (delivers (revision 0)) :: ticks 0 n), (o0 ++ o1).
  cbn [runAll run]. rewrite (bind_Ret _ _ _ _ _ _ H0), H1. cbn [after].
  rewrite iter_incr.
  - rewrite Hn. replace (0 + (g - 1)) with (g - 1) by lia.
    by replace (1 + (g - 1)) with g by lia.
  - unfold GoInt.in_range, GoInt.min_int, GoInt.max_int, GoInt.bits. lia.
  - unfold GoInt.max_int, GoInt.bits in *. lia.
Qed.

(** The counter reaches the largest [int], and there the next
    reconfiguration makes it smaller.  And an invocation of [reconfigure]
    does not always increment it: on a subsystem that was started and
    then stopped, the invocation is left waiting at the stop handshake
    with the counter as it was. *)
Lemma activeGroupID_wraps_at_max_int :
  (∃ ops out,
     runAll ops (NewRollbackMitigation [])
       = Ret tt (at_revision (GoInt.max_int - 1) GoInt.max_int) out) ∧
  (let r := at_revision (GoInt.max_int - 1) GoInt.max_int in
   let x := run (OpConfigWatch (inr (revision GoInt.max_int))) r in
   reconfigurations (effects_of x) = 1%nat ∧
   activeGroupID r = GoInt.max_int ∧
   activeGroupID (state_of x) = GoInt.min_int ∧
   activeGroupID (state_of x) < activeGroupID r) ∧
  (let r := state_of (runAll [OpStart (delivers snapshot3);
                              OpStartObserveInit failoverLogs;
                              OpStop] (NewRollbackMitigation [42])) in
   let x := run (OpConfigWatch (inr snapshot_newer)) r in
   reconfigurations (effects_of x) = 1%nat ∧
   blocked x = true ∧
   activeGroupID (state_of x) = activeGroupID r).
Proof.
  split_and!.
  - apply counter_reachable. unfold GoInt.max_int, GoInt.bits. lia.
  - vm_compute. split_and!; reflexivity.
  - vm_compute. split_and!; reflexivity.
Qed.

(** A subsystem that was started and then stopped: the generation is
    still the active one, the error is not a temporary failure, and the
    callback returns instead of panicking. *)
Lemma observeCallback_closed_error_returns :
  let r := state_of (runAll [OpStart (delivers snapshot3);
                             OpStartObserveInit failoverLogs;
                             OpStop] (NewRollbackMitigation [42])) in
  closed r = true ∧ activeGroupID r = 1 ∧
  errors_Is (ErrOther "shutdown") ErrTemporaryFailure = false ∧
  observeCallback 42 0 1 0xBBBB (inl (ErrOther "shutdown")) r
    = Ret tt r [Log LDebug "closed(%v) or groupID(%v!=%v) changed on observe"].
Proof. vm_compute. split_and!; reflexivity. Qed.

(** The same subsystem, started and then stopped, and a tick of the
    config watch that was already on its way: the fetched snapshot is
    strictly newer than the installed one and [reconfigure] is entered,
    but with the observer gone it is left waiting at the stop handshake,
    and the generation is what it was. *)
Lemma configWatch_after_Stop_waits :
  let r := state_of (runAll [OpStart (delivers snapshot3);
                             OpStartObserveInit failoverLogs;
                             OpStop] (NewRollbackMitigation [42])) in
  let x := configWatch (inr snapshot_newer) r in
  configSnapshot r = Some snapshot3 ∧
  strictlyNewer snapshot_newer snapshot3 ∧
  reconfigure_marker ∈ effects_of x ∧
  blocked x = true ∧
  activeGroupID (state_of x) = activeGroupID r.
Proof.
  intros r x.
  assert (effects_of x = [reconfigure_marker; StopObserver]) as Heff
    by (vm_compute; reflexivity).
  split_and!.
  - vm_compute. reflexivity.
  - left. simpl. lia.
  - rewrite Heff. by left.
  - vm_compute. reflexivity.
  - vm_compute. reflexivity.
Qed.

End Reachability.

(** * More of the code *)

(** ** Frames *)

Section Frame.

Context {B : Type} (proj : rollbackMitigation → B).

Lemma preserves_ret {A} (a : A) : preserves proj (ret a).
Proof. by intros r. Qed.

Lemma preserves_get : preserves proj get.
Proof. by intros r. Qed.

Lemma preserves_emit e : preserves proj (emit e).
Proof. by intros r. Qed.

Lemma preserves_emitAll out : preserves proj (emitAll out).
Proof. by intros r. Qed.

Lemma preserves_panic {A} p : preserves proj (@panic A p).
Proof. by intros r. Qed.

Lemma preserves_block {A} : preserves proj (@block A).
Proof. by intros r. Qed.

Lemma preserves_modify f : (∀ r, proj (f r) = proj r) → preserves proj (modify f).
Proof. intros H r. apply H. Qed.

Lemma preserves_bind {A C} (m : M A) (k : A → M C) :
  preserves proj m → (∀ a, preserves proj (k a)) → preserves proj (bind m k).
Proof.
  intros Hm Hk r. unfold bind. specialize (Hm r).
  destruct (m r) as [a r1 o1|p r1 o1|r1 o1]; simpl in *; [|done|done].
  rewrite state_of_after. specialize (Hk a r1). congruence.
Qed.

Lemma preserves_rangeEntries {V S} (f : Z → V → S → M (S * bool)) kvs acc :
  (∀ k v s, preserves proj (f k v s)) → preserves proj (rangeEntries f kvs acc).
Proof.
  intros Hf. revert acc. induction kvs as [|[k v] rest IH]; intros acc; simpl.
  - apply preserves_ret.
  - apply preserves_bind; [apply Hf|]. intros [s b]. simpl.
    destruct b; [apply IH|apply preserves_ret].
Qed.

Lemma preserves_Range {V S} (m : gmap Z V) (f : Z → V → S → M (S * bool)) acc :
  (∀ k v s, preserves proj (f k v s)) → preserves proj (Range m f acc).
Proof. apply preserves_rangeEntries. Qed.

End Frame.

Section Emits.

Context (P : Effect → Prop).

Lemma emits_ret {A} (a : A) : emits P (ret a).
Proof. intros r. constructor. Qed.

Lemma emits_get : emits P get.
Proof. intros r. constructor. Qed.

Lemma emits_panic {A} p : emits P (@panic A p).
Proof. intros r. constructor. Qed.

Lemma emits_block {A} : emits P (@block A).
Proof. intros r. constructor. Qed.

Lemma emits_modify f : emits P (modify f).
Proof. intros r. constructor. Qed.

Lemma emits_emit e : P e → emits P (emit e).
Proof. intros H r. by repeat constructor. Qed.

Lemma emits_emitAll out : Forall P out → emits P (emitAll out).
Proof. by intros H r. Qed.

Lemma emits_bind {A C} (m : M A) (k : A → M C) :
  emits P m → (∀ a, emits P (k a)) → emits P (bind m k).
Proof.
  intros Hm Hk r. unfold bind. specialize (Hm r).
  destruct (m r) as [a r1 o1|p r1 o1|r1 o1]; simpl in *; [|done|done].
  rewrite effects_of_after. apply Forall_app. split; [done|apply Hk].
Qed.

Lemma emits_rangeEntries {V S} (f : Z → V → S → M (S * bool)) kvs acc :
  (∀ k v s, emits P (f k v s)) → emits P (rangeEntries f kvs acc).
Proof.
  intros Hf. revert acc. induction kvs as [|[k v] rest IH]; intros acc; simpl.
  - apply emits_ret.
  - apply emits_bind; [apply Hf|]. intros [s b]. simpl.
    destruct b; [apply IH|apply emits_ret].
Qed.

Lemma emits_Range {V S} (m : gmap Z V) (f : Z → V → S → M (S * bool)) acc :
  (∀ k v s, emits P (f k v s)) → emits P (Range m f acc).
Proof. apply emits_rangeEntries. Qed.

End Emits.

Lemma emits_weaken {A} (P Q : Effect → Prop) (m : M A) :
  (∀ e, P e → Q e) → emits P m → emits Q m.
Proof. intros H Hm r. eapply Forall_impl; [apply Hm|done]. Qed.

Create HintDb frame.

Ltac frame_step :=
  first
    [ solve [auto 1 with frame nocore]
    | apply preserves_ret | apply preserves_get | apply preserves_panic
    | apply preserves_block
    | apply preserves_emit | apply preserves_emitAll
    | apply preserves_modify; intros; reflexivity
    | apply preserves_Range; intros
    | apply preserves_bind; [|intros]
    | apply emits_ret | apply emits_get | apply emits_panic | apply emits_block
    | apply emits_modify
    | apply emits_emit; exact I
    | apply emits_Range; intros
    | apply emits_bind; [|intros]
    | match goal with
      | |- preserves _ (match ?x with _ => _ end) => destruct x
      | |- emits _ (match ?x with _ => _ end) => destruct x
      end ].

Ltac frame_steps := repeat (frame_step; cbv beta).

(** ** getMinSeqNo, whatever the vbUUIDs *)

Section MinSeqNoBound.

Implicit Types (replicas rest : list vbUUIDAndSeqNo) (r : rollbackMitigation).

(** The second loop reads nothing of the struct: on another struct it
    returns the same value with the same log. *)
Lemma minLoop_state u m rest r r' :
  minLoop u m rest r' =
    match minLoop u m rest r with
    | Ret v _ out => Ret v r' out
    | Panicked p _ out => Panicked p r' out
    | Blocked _ out => Blocked r' out
    end.
Proof.
  revert m. induction rest as [|s rest IH]; intros m; simpl; [done|].
  destruct (IsAbsent s); [apply IH|].
  destruct (negb _); [done|]. destruct (m >? seqNo s); apply IH.
Qed.

(** It skips absent slots. *)
Lemma minLoop_filter u m rest r :
  minLoop u m rest r = minLoop u m (filter present rest) r.
Proof.
  revert m. induction rest as [|s rest IH]; intros m; [done|].
  destruct (absent s) eqn:Hs.
  - rewrite filter_cons_False by (unfold present; congruence).
    simpl. unfold IsAbsent. rewrite Hs. apply IH.
  - rewrite filter_cons_True by done. simpl. unfold IsAbsent. rewrite Hs.
    destruct (negb _); [done|]. destruct (m >? seqNo s); apply IH.
Qed.

(** It returns, with the struct as it was, a value that is 0 or the
    running minimum or a present seqNo, and when seqNos are not negative
    the value is below the running minimum and every present seqNo. *)
Lemma minLoop_bound u m rest r :
  0 <= m → (∀ s, s ∈ rest → present s → 0 <= seqNo s) →
  ∃ v out,
    minLoop u m rest r = Ret v r out ∧ Forall is_log out ∧
    0 <= v <= m ∧ ∀ s, s ∈ rest → present s → v <= seqNo s.
Proof.
  revert m. induction rest as [|s rest IH]; intros m Hm Hpos; simpl.
  - exists m, []. split_and!; [done|constructor|lia|lia|].
    by intros s ?%elem_of_nil.
  - assert (∀ s', s' ∈ rest → present s' → 0 <= seqNo s') as Hrest
      by (intros; apply Hpos; [by right|done]).
    unfold IsAbsent. destruct (absent s) eqn:Hs.
    + destruct (IH m Hm Hrest) as (v & out & -> & Hlog & Hv & Hle).
      exists v, out. split_and!; try done; try lia.
      intros s' [->|Hin]%elem_of_cons Hp; [unfold present in Hp; congruence|auto].
    + assert (0 <= seqNo s) as Hs0 by (apply Hpos; [by left|done]).
      destruct (negb (u =? vbUUID s)).
      * exists 0, [Log LDebug "vbUUID mismatch %v != %v for %v index of %v"].
        split_and!; [done|by repeat constructor|lia|lia|].
        intros s' Hin Hp. apply Hpos; done.
      * destruct (Z.gtb_spec m (seqNo s)) as [Hgt|Hle'].
        -- destruct (IH (seqNo s) Hs0 Hrest) as (v & out & -> & Hlog & Hv & Hle).
           exists v, out. split_and!; try done; try lia.
           intros s' [->|Hin]%elem_of_cons Hp; [lia|auto].
        -- destruct (IH m Hm Hrest) as (v & out & -> & Hlog & Hv & Hle).
           exists v, out. split_and!; try done; try lia.
           intros s' [->|Hin]%elem_of_cons Hp; [lia|auto].
Qed.

Lemma minLoop_returns u m rest r :
  ∃ v out, minLoop u m rest r = Ret v r out ∧ Forall is_log out.
Proof.
  revert m. induction rest as [|s rest IH]; intros m; simpl.
  - exists m, []. split; [done|constructor].
  - destruct (IsAbsent s); [apply IH|].
    destruct (negb _); [eexists _, _; split; [done|by repeat constructor]|].
    destruct (m >? seqNo s); apply IH.
Qed.

(** [getMinSeqNo] in terms of the present slots alone. *)
Lemma getMinSeqNo_present r vbID :
  getMinSeqNo vbID r =
    match filter present (replicasOf r vbID) with
    | [] => Ret 0 r [Log LError "all replicas absent"]
    | first :: rest => minLoop (vbUUID first) (seqNo first) rest r
    end.
Proof.
  unfold replicasOf.
  destruct (decide (Exists present (default [] (persistedSeqNos r !! vbID))))
    as [Hex|Hnex].
  - destruct (persistedSeqNos r !! vbID) as [replicas|] eqn:Hm;
      [|by apply Exists_nil in Hex].
    simpl in *.
    destruct (getMinSeqNo_found r vbID replicas Hm Hex)
      as (k & first & Hk & Hp & Hall & ->).
    rewrite <- (take_drop_middle replicas k first Hk) at 2.
    rewrite filter_app, filter_cons_True by done.
    assert (filter present (take k replicas) = []) as ->.
    { clear -Hall. induction Hall as [|s l Hs _ IH]; [done|].
      rewrite filter_cons_False by (unfold present; congruence). done. }
    simpl. apply minLoop_filter.
  - assert (Forall (λ s, absent s = true) (default [] (persistedSeqNos r !! vbID)))
      as Hall.
    { apply Forall_forall. intros s Hs. destruct (absent s) eqn:Ha; [done|].
      exfalso. apply Hnex, Exists_exists. by exists s. }
    assert (filter present (default [] (persistedSeqNos r !! vbID)) = []) as ->.
    2: { unfold getMinSeqNo, bind, get.
         by rewrite (firstPresent_all_absent 0 _ Hall). }
    clear -Hall. induction Hall as [|s l Hs _ IH]; [done|].
    rewrite filter_cons_False by (unfold present; congruence). done.
Qed.

End MinSeqNoBound.

Section MinSeqNoMore.

Implicit Types (replicas : list vbUUIDAndSeqNo) (r : rollbackMitigation).

Lemma getMinSeqNo_returns_bound r vbID :
  ∃ v out,
    getMinSeqNo vbID r = Ret v r out ∧ Forall is_log out ∧
    ((∀ s, s ∈ replicasOf r vbID → present s → 0 <= seqNo s) →
     0 <= v ∧ ∀ s, s ∈ replicasOf r vbID → present s → v <= seqNo s).
Proof.
  rewrite getMinSeqNo_present.
  destruct (filter present (replicasOf r vbID)) as [|first rest] eqn:Hf.
  - exists 0, [Log LError "all replicas absent"].
    split_and!; [done|by repeat constructor|]. intros _. split; [done|].
    intros s Hs Hp.
    assert (s ∈ filter present (replicasOf r vbID)) as Hin
      by (by apply list_elem_of_filter).
    rewrite Hf in Hin. by apply elem_of_nil in Hin.
  - assert (∀ s, s ∈ first :: rest ↔ s ∈ replicasOf r vbID ∧ present s) as Hmem.
    { intros s. rewrite <- Hf, list_elem_of_filter. tauto. }
    destruct (minLoop_returns (vbUUID first) (seqNo first) rest r)
      as (v & out & Hrun & Hlog).
    exists v, out. split_and!; [done|done|]. intros Hpos.
    destruct (minLoop_bound (vbUUID first) (seqNo first) rest r)
      as (v' & out' & Hrun' & _ & Hv & Hle).
    { apply Hpos; apply (Hmem first); by left. }
    { intros s Hs _. apply Hpos; apply (Hmem s); by right. }
    rewrite Hrun in Hrun'. injection Hrun' as <- <-.
    split; [lia|]. intros s Hs Hp.
    assert (s ∈ first :: rest) as [->|Hin]%elem_of_cons by (by apply Hmem).
    + lia.
    + apply Hle; [done|]. by apply (Hmem s); right.
Qed.

(** X1.  [getMinSeqNo] always returns, leaves the struct as it was and
    only logs; when the present slots of the vector hold seqNos that are
    not negative, what it returns is not negative and does not exceed the
    seqNo of any present slot, whatever the vbUUIDs are. *)
Theorem getMinSeqNo_below_present r vbID :
  ∃ v out,
    getMinSeqNo vbID r = Ret v r out ∧ Forall is_log out ∧
    ((∀ s, s ∈ replicasOf r vbID → present s → 0 <= seqNo s) →
     0 <= v ∧ ∀ s, s ∈ replicasOf r vbID → present s → v <= seqNo s).
Proof. apply getMinSeqNo_returns_bound. Qed.

(** X2.  Absent slots do not count: two structs whose vectors for a
    vBucket have the same present slots, in the same order, get the same
    value and the same log from [getMinSeqNo]. *)
Theorem getMinSeqNo_ignores_absent r r' vbID :
  filter present (replicasOf r vbID) = filter present (replicasOf r' vbID) →
  ∃ v out, getMinSeqNo vbID r = Ret v r out ∧ getMinSeqNo vbID r' = Ret v r' out.
Proof.
  intros Heq. rewrite !getMinSeqNo_present, <- Heq.
  destruct (filter present (replicasOf r vbID)) as [|first rest]; [by eauto|].
  rewrite (minLoop_state _ _ _ r r').
  destruct (minLoop_returns (vbUUID first) (seqNo first) rest r)
    as (v & out & -> & _). eauto.
Qed.

End MinSeqNoMore.

(** ** What the methods leave alone and what they emit *)

Section MethodFrames.

Context {B : Type} (proj : rollbackMitigation → B).

Hypothesis proj_persistedSeqNos : ∀ m r, proj (set_persistedSeqNos m r) = proj r.

Lemma preserves_minLoop u m rest : preserves proj (minLoop u m rest).
Proof.
  intros r. destruct (minLoop_returns u m rest r) as (v & out & -> & _). done.
Qed.

Lemma preserves_getMinSeqNo vbID : preserves proj (getMinSeqNo vbID).
Proof.
  intros r. rewrite getMinSeqNo_present.
  destruct (filter _ _); [done|apply preserves_minLoop].
Qed.

Lemma preserves_storeReplicas vbID replicas : preserves proj (storeReplicas vbID replicas).
Proof. intros r. apply proj_persistedSeqNos. Qed.

Lemma preserves_markAbsentInstances : preserves proj markAbsentInstances.
Proof.
  unfold markAbsentInstances.
  apply preserves_bind; [apply preserves_get|intros r0].
  apply preserves_Range. intros k v s. unfold markAbsentEntry.
  apply preserves_bind; [apply preserves_get|intros r1].
  destruct (configSnapshot r1) as [snapshot|].
  - destruct (markAbsentSlots snapshot k 0 v) as [[v' out] e].
    apply preserves_bind; [apply preserves_emitAll|intros _].
    apply preserves_bind; [apply preserves_storeReplicas|intros _].
    destruct e; apply preserves_ret.
  - destruct v; [apply preserves_ret|apply preserves_panic].
Qed.

Lemma preserves_resetLoop n ids : preserves proj (resetLoop n ids).
Proof.
  induction ids as [|vbID rest IH]; simpl; [apply preserves_ret|].
  destruct (makeslice_panics _); [apply preserves_panic|].
  apply preserves_bind; [apply preserves_storeReplicas|done].
Qed.

Lemma preserves_reset : preserves proj reset.
Proof.
  unfold reset. apply preserves_bind; [apply preserves_get|intros r0].
  destruct (configSnapshot r0) as [snapshot|]; [|apply preserves_panic].
  destruct (NumReplicas snapshot); [apply preserves_panic|].
  apply preserves_bind; [|intros _; apply preserves_resetLoop].
  apply preserves_modify. intros r. apply proj_persistedSeqNos.
Qed.

Lemma preserves_reconfigureRebuild : preserves proj reconfigureRebuild.
Proof.
  unfold reconfigureRebuild.
  apply preserves_bind; [apply preserves_reset|intros _].
  apply preserves_bind; [apply preserves_markAbsentInstances|intros [e|]].
  - apply preserves_panic.
  - apply preserves_bind; [apply preserves_get|intros; apply preserves_emit].
Qed.

Hypothesis proj_activeGroupID : ∀ g r, proj (set_activeGroupID g r) = proj r.
Hypothesis proj_observers : ∀ n r, proj (set_observers n r) = proj r.

Lemma preserves_closeObserver : preserves proj closeObserver.
Proof.
  intros r. rewrite closeObserver_eq. destruct (observers r); [done|].
  apply proj_observers.
Qed.

Lemma preserves_reconfigure : preserves proj reconfigure.
Proof.
  intros r. rewrite reconfigure_unfold. destruct (observerAnswers r); [|done].
  rewrite state_of_after, preserves_reconfigureRebuild.
  unfold advanced, observerClosed. rewrite proj_activeGroupID.
  destruct (observeTimer r); [apply proj_observers|done].
Qed.

End MethodFrames.

Lemma markAbsentSlots_logs snapshot vbID idx replicas :
  Forall is_log (markAbsentSlots snapshot vbID idx replicas).1.2.
Proof.
  revert idx. induction replicas as [|s rest IH]; intros idx; simpl; [constructor|].
  specialize (IH (S idx)).
  destruct (VbucketToServer snapshot vbID _) as [err|serverIndex].
  - destruct (errors_Is err ErrInvalidReplica); [|constructor].
    destruct (markAbsentSlots snapshot vbID (S idx) rest) as [[rest' out] e].
    by constructor.
  - destruct (serverIndex <? 0);
      destruct (markAbsentSlots snapshot vbID (S idx) rest) as [[rest' out] e];
      [by constructor|done].
Qed.

Lemma emits_markAbsentInstances : emits is_log markAbsentInstances.
Proof.
  unfold markAbsentInstances. apply emits_bind; [apply emits_get|intros r0].
  apply emits_Range. intros k v s. unfold markAbsentEntry.
  apply emits_bind; [apply emits_get|intros r1].
  destruct (configSnapshot r1) as [snapshot|].
  - pose proof (markAbsentSlots_logs snapshot k 0 v) as Hlogs.
    destruct (markAbsentSlots snapshot k 0 v) as [[v' out] e].
    apply emits_bind; [by apply emits_emitAll|intros _].
    apply emits_bind; [apply emits_modify|intros _].
    destruct e; apply emits_ret.
  - destruct v; [apply emits_ret|apply emits_panic].
Qed.

Lemma emits_resetLoop n ids : emits is_log (resetLoop n ids).
Proof.
  induction ids as [|vbID rest IH]; simpl; [apply emits_ret|].
  destruct (makeslice_panics _); [apply emits_panic|].
  apply emits_bind; [apply emits_modify|done].
Qed.

Lemma emits_reset : emits is_log reset.
Proof.
  unfold reset. apply emits_bind; [apply emits_get|intros r0].
  destruct (configSnapshot r0) as [snapshot|]; [|apply emits_panic].
  destruct (NumReplicas snapshot); [apply emits_panic|].
  apply emits_bind; [apply emits_modify|intros _; apply emits_resetLoop].
Qed.

Lemma spawned_logs out : Forall is_log out → spawned out = [].
Proof.
  unfold spawned. induction 1 as [|e out He _ IH]; [done|].
  destruct e; simpl in *; done.
Qed.

Lemma spawned_app o1 o2 : spawned (o1 ++ o2) = spawned o1 ++ spawned o2.
Proof. unfold spawned. apply omap_app. Qed.

Lemma logs_not_StopObserver out : Forall is_log out → StopObserver ∉ out.
Proof.
  intros H Hin. rewrite Forall_forall in H. by apply (H _ Hin).
Qed.

(** ** reset *)

Lemma makeslice_fits n :
  -1 <= n → (n + 1) * pointerSize <= maxAlloc →
  GoInt.wrap (n + 1) = n + 1 ∧ makeslice_panics (GoInt.wrap (n + 1)) = false.
Proof.
  intros Hlo Hhi.
  assert (GoInt.wrap (n + 1) = n + 1) as ->.
  { apply wrap_id.
    unfold GoInt.in_range, GoInt.min_int, GoInt.max_int, GoInt.bits, pointerSize, maxAlloc in *.
    lia. }
  split; [done|]. unfold makeslice_panics. apply orb_false_iff. split.
  - apply Z.ltb_ge. lia.
  - rewrite Z.gtb_ltb. apply Z.ltb_ge. lia.
Qed.

Lemma resetLoop_spec n ids r :
  makeslice_panics (GoInt.wrap (n + 1)) = false →
  ∃ m',
    resetLoop n ids r = Ret tt (set_persistedSeqNos m' r) [] ∧
    ∀ vb, m' !! vb =
          if decide (vb ∈ ids)
          then Some (replicate (Z.to_nat (GoInt.wrap (n + 1))) zeroSlot)
          else persistedSeqNos r !! vb.
Proof.
  intros Hlen. revert r. induction ids as [|vbID rest IH]; intros r.
  - exists (persistedSeqNos r). split; [by destruct r|].
    intros vb. rewrite decide_False; [done|]. by intros ?%elem_of_nil.
  - simpl. rewrite Hlen.
    set (fresh := replicate (Z.to_nat (GoInt.wrap (n + 1))) zeroSlot).
    destruct (IH (set_persistedSeqNos (<[vbID := fresh]> (persistedSeqNos r)) r))
      as (m' & Hrun & Hm').
    exists m'. split.
    + unfold bind, storeReplicas, modify. by rewrite Hrun.
    + intros vb. rewrite Hm'. simpl.
      destruct (decide (vb ∈ rest)) as [Hin|Hnin].
      * rewrite decide_True; [done|by right].
      * destruct (decide (vb = vbID)) as [->|Hne].
        -- rewrite decide_True by (by left). by rewrite lookup_insert_eq.
        -- rewrite decide_False by (by intros [?|?]%elem_of_cons).
           by rewrite lookup_insert_ne.
Qed.

Lemma reset_spec r snapshot n :
  configSnapshot r = Some snapshot → NumReplicas snapshot = inr n →
  -1 <= n → (n + 1) * pointerSize <= maxAlloc →
  ∃ m',
    reset r = Ret tt (set_persistedSeqNos m' r) [] ∧
    ∀ vb, m' !! vb =
          if decide (vb ∈ vbIds r)
          then Some (replicate (Z.to_nat (n + 1)) zeroSlot)
          else None.
Proof.
  intros Hsnap Hn Hlo Hhi.
  destruct (makeslice_fits n Hlo Hhi) as [Hwrap Hfits].
  destruct (resetLoop_spec n (vbIds r) (set_persistedSeqNos ∅ r) Hfits)
    as (m' & Hrun & Hm').
  exists m'. split.
  - unfold reset, bind, get, modify. rewrite Hsnap, Hn. simpl. by rewrite Hrun.
  - intros vb. rewrite Hm', Hwrap. simpl. by destruct (decide _).
Qed.

(** Where [make] refuses the length, [reset] panics at the first vBucket,
    having dropped the vectors it had. *)
Lemma reset_makeslice_panics r snapshot n vbID rest :
  configSnapshot r = Some snapshot → NumReplicas snapshot = inr n →
  vbIds r = vbID :: rest →
  makeslice_panics (GoInt.wrap (n + 1)) = true →
  reset r = Panicked (PanicRuntime "makeslice: len out of range")
              (set_persistedSeqNos ∅ r) [].
Proof.
  intros Hsnap Hn Hids Hlen.
  unfold reset, bind, get, modify. rewrite Hsnap, Hn, Hids. simpl. by rewrite Hlen.
Qed.

(** X3.  With a snapshot installed whose replica count [n] is read
    without error and is one that [make] accepts (at least [-1], and
    [n + 1] pointers within [maxAlloc]), [reset] replaces the vectors
    wholesale: afterwards exactly the vBuckets of [vbIds] have a vector,
    each of [n + 1] zeroed slots that are not absent; nothing of the
    earlier vectors is left, and nothing else of the struct changes.
    With vBuckets to allocate for and a count that [make] refuses, it
    panics instead, the earlier vectors dropped. *)
Theorem reset_allocates r snapshot n :
  configSnapshot r = Some snapshot → NumReplicas snapshot = inr n →
  GoInt.in_range n →
  (-1 <= n → (n + 1) * pointerSize <= maxAlloc →
   ∃ m',
     reset r = Ret tt (set_persistedSeqNos m' r) [] ∧
     (∀ vb, vb ∈ vbIds r → m' !! vb = Some (replicate (Z.to_nat (n + 1)) zeroSlot)) ∧
     (∀ vb, vb ∉ vbIds r → m' !! vb = None)) ∧
  (vbIds r ≠ [] → n < -1 ∨ maxAlloc < (n + 1) * pointerSize →
   reset r = Panicked (PanicRuntime "makeslice: len out of range")
               (set_persistedSeqNos ∅ r) []).
Proof.
  intros Hsnap Hn Hrange. split.
  - intros Hlo Hhi.
    destruct (reset_spec r snapshot n Hsnap Hn Hlo Hhi) as (m' & Hrun & Hm').
    exists m'. split_and!; [done| |]; intros vb Hvb; rewrite Hm'.
    + by rewrite decide_True.
    + by rewrite decide_False.
  - intros Hids Hbad. destruct (vbIds r) as [|vbID rest] eqn:Hv; [done|].
    apply (reset_makeslice_panics r snapshot n vbID rest Hsnap Hn Hv).
    unfold makeslice_panics. apply orb_true_iff.
    pose proof (wrap_in_range (n + 1)) as Hw.
    destruct (Z.eq_dec n GoInt.max_int) as [->|Hmax].
    + left. apply Z.ltb_lt.
      change (GoInt.wrap (GoInt.max_int + 1)) with (GoInt.incr GoInt.max_int).
      rewrite incr_at_max. unfold GoInt.min_int, GoInt.bits. lia.
    + rewrite wrap_id
        by (unfold GoInt.in_range, GoInt.min_int, GoInt.max_int, GoInt.bits in *; lia).
      destruct Hbad as [Hneg|Hbig].
      * left. apply Z.ltb_lt. lia.
      * right. apply Z.gtb_lt. lia.
Qed.

(** ** reconfigure, from end to end *)

Lemma advanced_fields r :
  configSnapshot (advanced r) = configSnapshot r ∧ vbIds (advanced r) = vbIds r ∧
  persistedSeqNos (advanced r) = persistedSeqNos r ∧
  activeGroupID (advanced r) = GoInt.incr (activeGroupID r) ∧
  observers (advanced r) = (if observeTimer r then pred (observers r) else observers r).
Proof. unfold advanced, observerClosed. by destruct (observeTimer r). Qed.

(** What [reconfigureRebuild] emits: log entries, and after them the
    spawn of the observer of the active generation when, and only when,
    it returns.  It is never left waiting. *)
Lemma reconfigureRebuild_effects r :
  blocked (reconfigureRebuild r) = false ∧
  ∃ logs,
    Forall is_log logs ∧
    effects_of (reconfigureRebuild r) =
      logs ++ (if returned (reconfigureRebuild r)
               then [GoStartObserve (activeGroupID r)] else []).
Proof.
  assert (∀ r0, blocked (reset r0) = false) as Hreset.
  { intros r0. unfold reset, bind, get.
    destruct (configSnapshot r0) as [snapshot|]; [|done].
    destruct (NumReplicas snapshot) as [err|n]; [done|]. simpl.
    rewrite blocked_after. generalize (set_persistedSeqNos ∅ r0).
    induction (vbIds r0) as [|vbID rest IH]; intros r1; simpl; [done|].
    destruct (makeslice_panics _); [done|].
    unfold bind, storeReplicas, modify. by rewrite blocked_after. }
  assert (∀ r0, blocked (markAbsentInstances r0) = false) as Hmark.
  { intros r0. unfold markAbsentInstances, bind, get, Range. rewrite blocked_after.
    generalize (@None Error).
    generalize (map_to_list (persistedSeqNos r0)). intros kvs. revert r0.
    induction kvs as [|[k v] kvs IH]; intros r0 acc; simpl; [done|].
    unfold bind at 1. unfold markAbsentEntry at 1. unfold bind at 1, get at 1.
    destruct (configSnapshot r0) as [snapshot|]; simpl.
    - destruct (markAbsentSlots snapshot k 0 v) as [[v' out] e].
      unfold bind, emitAll, storeReplicas, modify. simpl.
      destruct e; simpl; [done|]. rewrite !blocked_after. apply IH.
    - destruct v; simpl; [|done]. rewrite blocked_after. apply IH. }
  unfold reconfigureRebuild, bind.
  pose proof (emits_reset r) as Hlog1.
  pose proof (quiet_reset r) as (Hg1 & _ & _).
  specialize (Hreset r).
  destruct (reset r) as [[] r1 o1|p r1 o1|r1 o1]; simpl in *; [| |done].
  2: { split; [done|]. exists o1. by rewrite app_nil_r. }
  pose proof (emits_markAbsentInstances r1) as Hlog2.
  pose proof (quiet_markAbsentInstances r1) as (Hg2 & _ & _).
  specialize (Hmark r1).
  destruct (markAbsentInstances r1) as [[e|] r2 o2|p r2 o2|r2 o2]; simpl in *;
    [| | |done].
  - split; [done|]. exists (o1 ++ o2). rewrite !app_nil_r.
    split; [by apply Forall_app|done].
  - split; [done|]. exists (o1 ++ o2). split; [by apply Forall_app|].
    rewrite <- app_assoc. do 3 f_equal. congruence.
  - split; [done|]. exists (o1 ++ o2). rewrite app_nil_r.
    split; [by apply Forall_app|done].
Qed.

Lemma reconfigure_prefix_spawns r : spawned (reconfigure_prefix r) = [].
Proof. unfold reconfigure_prefix. by destruct (observeTimer r). Qed.

(** X4.  [reconfigure] signals the observer to stop, when the ticker
    exists, before it advances the counter.  Where nobody is in the loop
    to answer, it is left waiting there: the struct is as it was and
    nothing has been rebuilt or spawned.  Where the handshake is answered
    it is not left waiting: the counter is advanced, the observer that
    answered is gone, and what follows the effects of the handshake and
    the log entry of the new generation are log entries and, as the last
    effect and exactly when [reconfigure] returns, the spawn of the
    observer of the new generation; when it panics (no snapshot, no
    replica count, a length that [make] refuses, an unreadable routing)
    it has spawned none, although the counter is already advanced. *)
Theorem reconfigure_one_observer r :
  let x := reconfigure r in
  let g' := GoInt.incr (activeGroupID r) in
  (observerAnswers r = false → x = Blocked r [reconfigure_marker; StopObserver]) ∧
  (observerAnswers r = true →
   blocked x = false ∧
   activeGroupID (state_of x) = g' ∧
   observers (state_of x) = (if observeTimer r then pred (observers r) else observers r) ∧
   (∃ logs,
      Forall is_log logs ∧
      effects_of x =
        reconfigure_prefix r ++ logs ++ (if returned x then [GoStartObserve g'] else [])) ∧
   spawned (effects_of x) = (if returned x then [g'] else []) ∧
   (returned x = true → last (effects_of x) = Some (GoStartObserve g'))).
Proof.
  intros x g'. subst x. rewrite reconfigure_unfold. split.
  { by intros ->. }
  intros ->.
  destruct (advanced_fields r) as (_ & _ & _ & Hg & Hobs).
  destruct (reconfigureRebuild_effects (advanced r)) as (Hnb & logs & Hlogs & Heff).
  rewrite Hg in Heff. fold g' in Heff.
  rewrite blocked_after, state_of_after, effects_of_after, returned_after.
  assert (effects_of (reconfigureRebuild (advanced r)) =
          logs ++ (if returned (reconfigureRebuild (advanced r))
                   then [GoStartObserve g'] else [])) as Heff' by done.
  split_and!.
  - done.
  - destruct (quiet_reconfigureRebuild (advanced r)) as (-> & _ & _). done.
  - rewrite (preserves_reconfigureRebuild observers); [done|done].
  - exists logs. split; [done|]. by rewrite Heff'.
  - rewrite Heff', !spawned_app, reconfigure_prefix_spawns, (spawned_logs logs Hlogs).
    by destruct (returned _).
  - intros Hret. rewrite Heff', Hret, !app_assoc. apply last_snoc.
Qed.

(** X5.  On a struct where the stop handshake is answered, with a
    snapshot installed that gives a replica count [n] that [make]
    accepts and that answers every slot of every vBucket of [vbIds]
    without a fatal error, [reconfigure] returns; it has advanced the
    generation, and the vectors are new: exactly the vBuckets of [vbIds]
    have one, of [n + 1] zeroed slots, a slot being absent exactly when
    the snapshot says so.  Nothing else of the struct has changed, but
    for the observer that answered the handshake, which is gone. *)
Theorem reconfigure_rebuilds r snapshot n :
  observerAnswers r = true →
  configSnapshot r = Some snapshot → NumReplicas snapshot = inr n →
  -1 <= n → (n + 1) * pointerSize <= maxAlloc →
  (∀ vb (i : nat), vb ∈ vbIds r → Z.of_nat i <= n → fatalError snapshot vb i = None) →
  ∃ m' out,
    reconfigure r = Ret tt (set_persistedSeqNos m' (advanced r)) out ∧
    (∀ vb, vb ∉ vbIds r → m' !! vb = None) ∧
    (∀ vb, vb ∈ vbIds r →
       ∃ replicas,
         m' !! vb = Some replicas ∧ Z.of_nat (length replicas) = n + 1 ∧
         ∀ i : nat, Z.of_nat i <= n →
           replicas !! i = Some (mkSlot 0 0 (marksAbsent snapshot vb i))).
Proof.
  intros Hans Hsnap Hn Hlo Hhi Hnofatal.
  set (r1 := advanced r).
  destruct (advanced_fields r) as (Hsnap1 & Hids1 & _ & _ & _). fold r1 in Hsnap1, Hids1.
  rewrite <- Hsnap1 in Hsnap.
  destruct (reset_spec r1 snapshot n Hsnap Hn Hlo Hhi) as (m1 & Hreset & Hm1).
  rewrite Hids1 in Hm1.
  set (r2 := set_persistedSeqNos m1 r1) in *.
  destruct (markAbsentRange_spec snapshot (map_to_list m1) r2)
    as (e & m' & out & Hrun & Hother & Hslots & Herr).
  { done. }
  { apply NoDup_fst_map_to_list. }
  { intros vb v Hv. by apply elem_of_map_to_list. }
  assert (∀ vb v, m1 !! vb = Some v →
                  vb ∈ vbIds r ∧ v = replicate (Z.to_nat (n + 1)) zeroSlot) as Hfresh.
  { intros vb v Hv. rewrite Hm1 in Hv.
    destruct (decide (vb ∈ vbIds r)); [|done]. split; [done|congruence]. }
  assert (e = None) as ->.
  { destruct e as [err|]; [|done]. exfalso.
    destruct Herr as (vb & v & i & Hin%elem_of_map_to_list & Hi & Hf).
    destruct (Hfresh vb v Hin) as [Hvb ->].
    rewrite length_replicate in Hi.
    rewrite Hnofatal in Hf by (done || lia). done. }
  assert (markAbsentInstances r2 = Ret None (set_persistedSeqNos m' r2) out) as Hmark.
  { unfold markAbsentInstances, bind, get, Range. simpl. by rewrite Hrun. }
  eexists m', _. split_and!.
  - rewrite reconfigure_unfold, Hans. fold r1. unfold reconfigureRebuild.
    rewrite (bind_Ret _ _ _ _ _ _ Hreset), (bind_Ret _ _ _ _ _ _ Hmark).
    simpl. reflexivity.
  - intros vb Hvb. rewrite Hother.
    + simpl. rewrite Hm1. by rewrite decide_False.
    + intros [v Hv]%elem_of_fst_map_to_list. by destruct (Hfresh vb v Hv).
  - intros vb Hvb.
    destruct (Hslots vb (replicate (Z.to_nat (n + 1)) zeroSlot))
      as (v' & Hv' & _ & Hall).
    { apply elem_of_map_to_list. rewrite Hm1. by rewrite decide_True. }
    destruct (Hall eq_refl) as [Hlen Hexact].
    exists v'. split_and!; [done| |].
    + rewrite Hlen, length_replicate. lia.
    + intros i Hi. rewrite (Hexact i zeroSlot).
      * simpl. by destruct (marksAbsent snapshot vb i).
      * apply lookup_replicate_2. lia.
Qed.

(** ** The observe callback on an answer *)

Section ObserveCallbackAnswer.

Variables (vbID replica groupID vbUUID0 : Z) (result : ObserveVbResult).

Local Abbreviation written := (writtenSlot result).
Local Abbreviation recorded := (recordAnswer vbID replica result).
Local Abbreviation followed := (followAnswer vbID vbUUID0 result).

Lemma observeCallback_answer r replicas slot :
  closed r = false → activeGroupID r = groupID →
  persistedSeqNos r !! vbID = Some replicas →
  0 <= replica → replicas !! Z.to_nat replica = Some slot →
  ∃ v logs,
    (getMinSeqNo vbID (recorded r replicas slot)
     = Ret v (recorded r replicas slot) logs) ∧
    Forall is_log logs ∧
    observeCallback vbID replica groupID vbUUID0 (inr result) r =
      Ret tt (followed (recorded r replicas slot))
          (logs ++ [Publish (mkPersistSeqNo vbID v)]).
Proof.
  intros Hc Hg Hm Hpos Hslot.
  destruct (getMinSeqNo_returns_bound (recorded r replicas slot) vbID)
    as (v & logs & Hmin & Hlogs & _).
  exists v, logs. split_and!; [done|done|].
  unfold observeCallback, bind, get. rewrite Hc, Hg, Z.eqb_refl. simpl.
  rewrite Hm. simpl.
  assert ((Z.of_nat (length replicas) >? replica) = true) as ->.
  { apply lookup_lt_Some in Hslot. apply Z.gtb_lt. lia. }
  destruct (Z.ltb_spec replica 0) as [?|_]; [lia|]. rewrite Hslot.
  unfold storeReplicas, modify. simpl.
  change (getMinSeqNo vbID _) with (getMinSeqNo vbID (recorded r replicas slot)).
  rewrite Hmin.
  unfold emit, storeVbUUID, modify, ret, followAnswer. simpl.
  destruct (Z.eqb_spec vbUUID0 (result_VbUUID result)) as [Heq|Hne]; simpl.
  - by rewrite decide_True.
  - rewrite decide_False by done. by rewrite ?app_nil_r.
Qed.

(** X6.  A callback with an answer, delivered to a running subsystem
    under the active generation for a slot that exists: the slot takes
    the reported seqNo and vbUUID and keeps its absent flag, no other slot
    and no other vBucket changes, [vbUUIDMap] follows the reported vbUUID
    when it is not the expected one, and exactly one event is published,
    for this vBucket, with what [getMinSeqNo] returns on the written
    vector. *)
Theorem observeCallback_records r replicas slot :
  closed r = false → activeGroupID r = groupID →
  persistedSeqNos r !! vbID = Some replicas →
  0 <= replica → replicas !! Z.to_nat replica = Some slot →
  let r1 :=
    set_persistedSeqNos
      (<[vbID := <[Z.to_nat replica :=
                     mkSlot (result_VbUUID result) (result_PersistSeqNo result)
                            (absent slot)]> replicas]> (persistedSeqNos r)) r in
  let r2 :=
    if decide (vbUUID0 = result_VbUUID result) then r1
    else set_vbUUIDMap (<[vbID := result_VbUUID result]> (vbUUIDMap r)) r1 in
  ∃ v logs,
    getMinSeqNo vbID r1 = Ret v r1 logs ∧ Forall is_log logs ∧
    observeCallback vbID replica groupID vbUUID0 (inr result) r =
      Ret tt r2 (logs ++ [Publish (mkPersistSeqNo vbID v)]).
Proof. apply observeCallback_answer. Qed.

Lemma publishedEvents_logs out : Forall is_log out → publishedEvents out = [].
Proof.
  unfold publishedEvents. induction 1 as [|e out He _ IH]; [done|].
  destruct e; simpl in *; done.
Qed.

(** The event published after a callback with an answer, when seqNos
    are not negative: one event, whose seqNo is not negative, is at most
    the seqNo of every other present slot and, when the written slot is
    present, at most the seqNo just reported. *)
Lemma observeCallback_published_bound r replicas slot :
  closed r = false → activeGroupID r = groupID →
  persistedSeqNos r !! vbID = Some replicas →
  0 <= replica → replicas !! Z.to_nat replica = Some slot →
  0 <= result_PersistSeqNo result →
  (∀ s, s ∈ replicas → present s → 0 <= seqNo s) →
  ∃ v,
    publishedEvents
      (effects_of (observeCallback vbID replica groupID vbUUID0 (inr result) r))
      = [mkPersistSeqNo vbID v] ∧
    0 <= v ∧
    (absent slot = false → v <= result_PersistSeqNo result) ∧
    ∀ (i : nat) s, i ≠ Z.to_nat replica → replicas !! i = Some s → present s →
                   v <= seqNo s.
Proof.
  intros Hc Hg Hm Hpos Hslot Hres Hnonneg.
  destruct (observeCallback_answer r replicas slot Hc Hg Hm Hpos Hslot)
    as (v & logs & Hmin & Hlogs & ->).
  destruct (getMinSeqNo_returns_bound (recorded r replicas slot) vbID)
    as (v' & logs' & Hmin' & _ & Hbound).
  rewrite Hmin in Hmin'. injection Hmin' as <- <-.
  assert (replicasOf (recorded r replicas slot) vbID
          = <[Z.to_nat replica := written slot]> replicas) as Hvec.
  { unfold replicasOf, recordAnswer. simpl. by rewrite lookup_insert_eq. }
  rewrite Hvec in Hbound.
  destruct Hbound as [Hv Hle].
  { intros s [i Hi]%list_elem_of_lookup Hp.
    destruct (decide (i = Z.to_nat replica)) as [->|Hne].
    - rewrite list_lookup_insert_eq in Hi by (by eapply lookup_lt_Some).
      injection Hi as <-. done.
    - rewrite list_lookup_insert_ne in Hi by done.
      apply Hnonneg; [|done]. apply list_elem_of_lookup. eauto. }
  exists v. split_and!.
  - simpl. unfold publishedEvents. rewrite omap_app.
    fold (publishedEvents logs). by rewrite (publishedEvents_logs logs Hlogs).
  - done.
  - intros Hpresent. apply (Hle (written slot)); [|done].
    apply list_elem_of_lookup. exists (Z.to_nat replica).
    apply list_lookup_insert_eq. by eapply lookup_lt_Some.
  - intros i s Hne Hi Hp. apply Hle; [|done].
    apply list_elem_of_lookup. exists i. by rewrite list_lookup_insert_ne.
Qed.

(** X7.  When the seqNos held and reported are not negative, the event
    published after such a callback on a present slot carries a seqNo
    that is at most the seqNo just reported and at most the seqNo held by
    every other present slot of the vBucket. *)
Theorem observeCallback_publishes_lower_bound r replicas slot :
  closed r = false → activeGroupID r = groupID →
  persistedSeqNos r !! vbID = Some replicas →
  0 <= replica → replicas !! Z.to_nat replica = Some slot →
  absent slot = false →
  0 <= result_PersistSeqNo result →
  (∀ s, s ∈ replicas → present s → 0 <= seqNo s) →
  ∃ v,
    publishedEvents
      (effects_of (observeCallback vbID replica groupID vbUUID0 (inr result) r))
      = [mkPersistSeqNo vbID v] ∧
    0 <= v <= result_PersistSeqNo result ∧
    ∀ (i : nat) s, i ≠ Z.to_nat replica → replicas !! i = Some s → present s →
                   v <= seqNo s.
Proof.
  intros Hc Hg Hm Hpos Hslot Hpresent Hres Hnonneg.
  destruct (observeCallback_published_bound r replicas slot Hc Hg Hm Hpos Hslot
              Hres Hnonneg) as (v & Hev & Hv & Hle & Hothers).
  exists v. split_and!; [done|done|by apply Hle|done].
Qed.

(** X19.  While another present slot of the vBucket still holds seqNo 0,
    as every slot does after [reset], the event published after a
    callback carries seqNo 0, whatever was reported: the value stays at
    0 until every present replica has reported. *)
Theorem observeCallback_warm_up r replicas slot (j : nat) other :
  closed r = false → activeGroupID r = groupID →
  persistedSeqNos r !! vbID = Some replicas →
  0 <= replica → replicas !! Z.to_nat replica = Some slot →
  0 <= result_PersistSeqNo result →
  (∀ s, s ∈ replicas → present s → 0 <= seqNo s) →
  j ≠ Z.to_nat replica → replicas !! j = Some other →
  absent other = false → seqNo other = 0 →
  publishedEvents
    (effects_of (observeCallback vbID replica groupID vbUUID0 (inr result) r))
    = [mkPersistSeqNo vbID 0].
Proof.
  intros Hc Hg Hm Hpos Hslot Hres Hnonneg Hj Hother Hpresent Hzero.
  destruct (observeCallback_published_bound r replicas slot Hc Hg Hm Hpos Hslot
              Hres Hnonneg) as (v & -> & Hv & _ & Hothers).
  specialize (Hothers j other Hj Hother Hpresent).
  do 2 f_equal. lia.
Qed.

Lemma observeCallback_beyond r :
  closed r = false → activeGroupID r = groupID →
  Z.of_nat (length (replicasOf r vbID)) <= replica →
  observeCallback vbID replica groupID vbUUID0 (inr result) r =
    Ret tt r
      (match persistedSeqNos r !! vbID with
       | Some _ => []
       | None => [Log LError "replicas of vbID: %v not found"]
       end ++ [Log LError "replica: %v not found"]).
Proof.
  intros Hc Hg Hlen. unfold observeCallback, bind, get.
  rewrite Hc, Hg, Z.eqb_refl. simpl. unfold replicasOf in Hlen.
  assert ((Z.of_nat (length (default [] (persistedSeqNos r !! vbID))) >? replica) = false)
    as -> by (rewrite Z.gtb_ltb; apply Z.ltb_ge; lia).
  by destruct (persistedSeqNos r !! vbID) as [replicas|].
Qed.

(** A callback with an answer for a negative replica index: the guard
    on the length lets it through and the index panics. *)
Lemma observeCallback_negative r :
  closed r = false → activeGroupID r = groupID → replica < 0 →
  ∃ logs,
    observeCallback vbID replica groupID vbUUID0 (inr result) r
      = Panicked (PanicRuntime "index out of range") r logs.
Proof.
  intros Hc Hg Hneg. unfold observeCallback, bind, get.
  rewrite Hc, Hg, Z.eqb_refl. simpl.
  set (replicas := default [] (persistedSeqNos r !! vbID)).
  assert ((Z.of_nat (length replicas) >? replica) = true) as ->
    by (apply Z.gtb_lt; lia).
  assert ((replica <? 0) = true) as -> by (apply Z.ltb_lt; lia).
  destruct (bool_decide _); simpl; eauto.
Qed.

(** X8.  A callback with an answer for a replica index at or beyond the
    end of the vector, or for a vBucket without a vector, delivered to a
    running subsystem under the active generation: the struct stays as it
    was and the only effects are error log entries. *)
Theorem observeCallback_unknown_replica r :
  closed r = false → activeGroupID r = groupID →
  Z.of_nat (length (replicasOf r vbID)) <= replica →
  observeCallback vbID replica groupID vbUUID0 (inr result) r =
    Ret tt r
      (match persistedSeqNos r !! vbID with
       | Some _ => []
       | None => [Log LError "replicas of vbID: %v not found"]
       end ++ [Log LError "replica: %v not found"]).
Proof. apply observeCallback_beyond. Qed.

End ObserveCallbackAnswer.

(** ** The observe tick *)

Section ObserveTick.

Variables (issue : Z → Z → option Error) (groupID : Z).

Implicit Types (r : rollbackMitigation) (replicas : list vbUUIDAndSeqNo).

Lemma observed_app o1 o2 : observed (o1 ++ o2) = observed o1 ++ observed o2.
Proof. unfold observed. apply omap_app. Qed.

Lemma observed_logs out : Forall is_log out → observed out = [].
Proof.
  unfold observed. induction 1 as [|e out He _ IH]; [done|].
  destruct e; simpl in *; done.
Qed.

(** One request: the struct is as it was, the request is the first
    effect and log entries follow; it panics only when the agent refuses
    the request with an error that is not a temporary failure. *)
Lemma observe_spec vbID idx u e r :
  ∃ logs,
    Forall is_log logs ∧
    (observe vbID idx groupID u e r = Ret tt r (ObserveVb vbID idx u :: logs) ∨
     ∃ err, e = Some err ∧ errors_Is err ErrTemporaryFailure = false ∧
            observe vbID idx groupID u e r
              = Panicked (PanicError err) r (ObserveVb vbID idx u :: logs)).
Proof.
  unfold observe, bind, emit. destruct e as [err|]; simpl.
  2: { exists []. split; [constructor|by left]. }
  unfold observeCallback, bind, get, emit, panic. simpl.
  destruct (closed r || negb (activeGroupID r =? groupID)); simpl.
  { eexists. split; [|left; reflexivity]. by repeat constructor. }
  destruct (errors_Is err ErrTemporaryFailure) eqn:Htemp; simpl.
  - eexists. split; [|left; reflexivity]. by repeat constructor.
  - eexists. split; [|right; exists err; split_and!; [done|done|reflexivity]].
    by repeat constructor.
Qed.

Lemma observeSlots_spec vbID replicas : ∀ idx r,
  let x := observeSlots issue groupID vbID idx replicas r in
  let u := default 0 (vbUUIDMap r !! vbID) in
  state_of x = r ∧
  Forall is_log_or_observe (effects_of x) ∧
  (∀ vb i u', (vb, i, u') ∈ observed (effects_of x) →
     closed r = false ∧ activeGroupID r = groupID ∧ vb = vbID ∧ u' = u ∧
     ∃ k s, i = Z.of_nat (idx + k) ∧ replicas !! k = Some s ∧ absent s = false) ∧
  (closed r = false → activeGroupID r = groupID →
   (∀ i err, issue vbID i = Some err → errors_Is err ErrTemporaryFailure = true) →
   ∃ out, x = Ret (tt, true) r out ∧
          ∀ k s, replicas !! k = Some s → absent s = false →
                 (vbID, Z.of_nat (idx + k), u) ∈ observed out).
Proof.
  induction replicas as [|s rest IH]; intros idx r x u.
  - subst x. simpl. split_and!; [done|constructor| |].
    + by (intros ??? Hin; apply elem_of_nil in Hin).
    + intros _ _ _. exists []. split; [done|]. by intros k s ?.
  - destruct (IH (S idx) r) as (IHst & IHeff & IHobs & IHall). fold u in IHobs, IHall.
    set (y := observeSlots issue groupID vbID (S idx) rest r) in *.
    destruct (observe_spec vbID (Z.of_nat idx) u (issue vbID (Z.of_nat idx)) r)
      as (logs & Hlogs & Hobserve).
    set (o1 := ObserveVb vbID (Z.of_nat idx) u :: logs) in *.
    assert (Forall is_log_or_observe o1) as Hcl.
    { constructor; [done|]. eapply Forall_impl; [done|]. by intros []. }
    assert (observed o1 = [(vbID, Z.of_nat idx, u)]) as Hobs1.
    { subst o1. simpl. fold (observed logs). by rewrite (observed_logs logs Hlogs). }
    assert (x =
            if absent s then y
            else if closed r || negb (activeGroupID r =? groupID) then
              Ret (tt, false) r
                [Log LDebug "closed(%v) or groupID(%v!=%v) changed on startObserve"]
            else
              match observe vbID (Z.of_nat idx) groupID u (issue vbID (Z.of_nat idx)) r with
              | Ret _ r1 o => after o (observeSlots issue groupID vbID (S idx) rest r1)
              | Panicked p r1 o => Panicked p r1 o
              | Blocked r1 o => Blocked r1 o
              end) as Hx.
    { subst x. simpl. unfold IsAbsent. destruct (absent s); [done|].
      unfold bind at 1, get.
      destruct (closed r || negb (activeGroupID r =? groupID)); [done|].
      unfold bind. simpl. fold u.
      destruct (observe _ _ _ _ _ r) as [a r1 o|p r1 o|r1 o]; [|done|done].
      by destruct (observeSlots _ _ _ _ _ r1). }
    clearbody x. subst x.
    destruct (absent s) eqn:Hs.
    { split_and!; [done|done| |].
      - intros vb i u' Hin.
        destruct (IHobs vb i u' Hin) as (? & ? & ? & ? & k & s' & -> & Hk & Ha).
        split_and!; try done. exists (S k), s'. split_and!; [f_equal; lia|done|done].
      - intros Hc Hg Htemp. destruct (IHall Hc Hg Htemp) as (out & Hx & Hcov).
        exists out. split; [done|]. intros [|k] s' Hk Ha; simpl in Hk.
        + congruence.
        + replace (idx + S k)%nat with (S idx + k)%nat by lia. by apply (Hcov k s'). }
    destruct (closed r || negb (activeGroupID r =? groupID)) eqn:Hstale.
    { split_and!; [done|by repeat constructor| |].
      - by (intros ??? Hin; apply elem_of_nil in Hin).
      - intros Hc Hg. rewrite Hc, Hg, Z.eqb_refl in Hstale. done. }
    apply orb_false_iff in Hstale as [Hc Hg].
    apply negb_false_iff, Z.eqb_eq in Hg.
    destruct Hobserve as [->|(err & Hissue & Htemp & ->)].
    + fold y. clearbody y.
      pose proof (effects_of_after o1 y) as Heff.
      split_and!.
      * by rewrite state_of_after.
      * rewrite Heff. by apply Forall_app.
      * intros vb i u'. rewrite Heff, observed_app, Hobs1.
        intros [Hin|Hin]%elem_of_app.
        -- apply list_elem_of_singleton in Hin. injection Hin as -> -> ->.
           split_and!; try done. exists 0%nat, s.
           split_and!; [f_equal; lia|done|done].
        -- destruct (IHobs vb i u' Hin) as (? & ? & ? & ? & k & s' & -> & Hk & Ha).
           split_and!; try done. exists (S k), s'.
           split_and!; [f_equal; lia|done|done].
      * intros _ _ Hok. destruct (IHall Hc Hg Hok) as (out & Hy & Hcov).
        rewrite Hy. eexists. split; [done|].
        intros [|k] s' Hk Ha; rewrite observed_app, Hobs1; simpl in Hk.
        -- apply elem_of_app. left. rewrite Nat.add_0_r. by left.
        -- apply elem_of_app. right.
           replace (idx + S k)%nat with (S idx + k)%nat by lia. by apply (Hcov k s').
    + split_and!.
      * done.
      * done.
      * intros vb i u'. cbn [effects_of]. rewrite Hobs1. intros Hin.
        apply list_elem_of_singleton in Hin. injection Hin as -> -> ->.
        split_and!; try done. exists 0%nat, s.
        split_and!; [f_equal; lia|done|done].
      * intros _ _ Hok. rewrite (Hok _ _ Hissue) in Htemp. done.
Qed.

Lemma tickRange_spec (kvs : list (Z * list vbUUIDAndSeqNo)) r :
  let x := rangeEntries
             (λ vbID replicas (_ : unit), observeSlots issue groupID vbID 0 replicas)
             kvs tt r in
  state_of x = r ∧
  Forall is_log_or_observe (effects_of x) ∧
  (∀ vb i u, (vb, i, u) ∈ observed (effects_of x) →
     closed r = false ∧ activeGroupID r = groupID ∧
     u = default 0 (vbUUIDMap r !! vb) ∧
     ∃ replicas (k : nat) s,
       (vb, replicas) ∈ kvs ∧ i = Z.of_nat k ∧ replicas !! k = Some s ∧ absent s = false) ∧
  (closed r = false → activeGroupID r = groupID →
   (∀ vb i err, issue vb i = Some err → errors_Is err ErrTemporaryFailure = true) →
   returned x = true ∧
   ∀ vb replicas (k : nat) s,
     (vb, replicas) ∈ kvs → replicas !! k = Some s → absent s = false →
     (vb, Z.of_nat k, default 0 (vbUUIDMap r !! vb)) ∈ observed (effects_of x)).
Proof.
  induction kvs as [|[vbID replicas] kvs IH]; simpl.
  - split_and!; [done|constructor|by (intros ??? Hin; apply elem_of_nil in Hin)|].
    intros _ _ _. split; [done|]. by (intros ???? Hin; apply elem_of_nil in Hin).
  - destruct IH as (IHst & IHeff & IHobs & IHall).
    destruct (observeSlots_spec vbID replicas 0 r) as (Hst & Heff & Hobs & Hall).
    set (y := rangeEntries _ kvs tt r) in *.
    unfold bind.
    destruct (observeSlots issue groupID vbID 0 replicas r)
      as [[[] continue] r1 o1|p r1 o1|r1 o1] eqn:Hslots; simpl in *; subst r1.
    2, 3: (split_and!; [done|done| |];
           [ intros vb i u Hin;
             destruct (Hobs vb i u Hin) as (? & ? & -> & ? & k & s & -> & Hk & Ha);
             split_and!; try done; exists replicas, k, s; split_and!; try done; by left
           | intros Hc Hg Hok; destruct (Hall Hc Hg) as (out & ? & _); [eauto|done] ]).
    assert (∀ vb i u, (vb, i, u) ∈ observed o1 →
              closed r = false ∧ activeGroupID r = groupID ∧
              u = default 0 (vbUUIDMap r !! vb) ∧
              ∃ replicas0 (k : nat) s,
                (vb, replicas0) ∈ (vbID, replicas) :: kvs ∧ i = Z.of_nat k ∧
                replicas0 !! k = Some s ∧ absent s = false) as Hobs1.
    { intros vb i u Hin.
      destruct (Hobs vb i u Hin) as (? & ? & -> & ? & k & s & -> & Hk & Ha).
      split_and!; try done. exists replicas, k, s. split_and!; try done. by left. }
    destruct continue; simpl.
    + fold y. clearbody y.
      pose proof (effects_of_after o1 y) as Heffy.
      split_and!.
      * by rewrite state_of_after.
      * rewrite Heffy. by apply Forall_app.
      * intros vb i u. rewrite Heffy, observed_app.
        intros [Hin|Hin]%elem_of_app; [by apply Hobs1|].
        destruct (IHobs vb i u Hin) as (? & ? & ? & replicas0 & k & s & ? & ? & ? & ?).
        split_and!; try done. exists replicas0, k, s. split_and!; try done. by right.
      * intros Hc Hg Hok. destruct (IHall Hc Hg Hok) as [Hret Hcov].
        destruct (Hall Hc Hg) as (out & Hout & Hcov1); [eauto|].
        injection Hout as <-.
        split; [by rewrite returned_after|].
        intros vb replicas0 k s Hin Hk Ha. rewrite Heffy, observed_app.
        apply elem_of_app.
        apply elem_of_cons in Hin as [Heq|Hin].
        -- left. injection Heq as -> ->. by apply (Hcov1 k s).
        -- right. by eapply Hcov.
    + rewrite app_nil_r. split_and!; [done|done|done|].
      intros Hc Hg Hok. destruct (Hall Hc Hg) as (out & ? & _); [eauto|done].
Qed.

(** X9.  A tick never changes the struct and never publishes; every
    request it issues is for a slot that exists and is not absent, with
    the vbUUID that [vbUUIDMap] holds for the vBucket (0 when it holds
    none), and it issues requests only while the subsystem is not closed
    and its groupID is the active one. *)
Theorem observeTick_observes_present_only r :
  let x := observeTick issue groupID r in
  state_of x = r ∧
  Forall is_log_or_observe (effects_of x) ∧
  ∀ vbID replica expected, (vbID, replica, expected) ∈ observed (effects_of x) →
    closed r = false ∧ activeGroupID r = groupID ∧
    expected = default 0 (vbUUIDMap r !! vbID) ∧
    ∃ replicas (k : nat) s,
      persistedSeqNos r !! vbID = Some replicas ∧ replica = Z.of_nat k ∧
      replicas !! k = Some s ∧ absent s = false.
Proof.
  intros x.
  destruct (tickRange_spec (map_to_list (persistedSeqNos r)) r)
    as (Hst & Heff & Hobs & _).
  assert (x = rangeEntries
                (λ vbID replicas (_ : unit), observeSlots issue groupID vbID 0 replicas)
                (map_to_list (persistedSeqNos r)) tt r) as ->.
  { subst x. unfold observeTick, bind, get, Range. by destruct (rangeEntries _ _ _ r). }
  split_and!; [done|done|].
  intros vbID replica expected Hin.
  destruct (Hobs _ _ _ Hin) as (? & ? & ? & replicas & k & s & Hkv & ? & ? & ?).
  split_and!; try done. exists replicas, k, s.
  split_and!; try done. by apply elem_of_map_to_list.
Qed.

(** X10.  A tick of the active generation on a subsystem that is not
    closed, when the agent refuses no request or refuses only with
    temporary failures, returns and has issued a request for every slot
    that is not absent. *)
Theorem observeTick_observes_every_present r :
  closed r = false → activeGroupID r = groupID →
  (∀ vbID replica err, issue vbID replica = Some err →
                       errors_Is err ErrTemporaryFailure = true) →
  let x := observeTick issue groupID r in
  returned x = true ∧
  ∀ vbID replicas (k : nat) s,
    persistedSeqNos r !! vbID = Some replicas → replicas !! k = Some s →
    absent s = false →
    (vbID, Z.of_nat k, default 0 (vbUUIDMap r !! vbID)) ∈ observed (effects_of x).
Proof.
  intros Hc Hg Hok x.
  destruct (tickRange_spec (map_to_list (persistedSeqNos r)) r)
    as (_ & _ & _ & Hall).
  assert (x = rangeEntries
                (λ vbID replicas (_ : unit), observeSlots issue groupID vbID 0 replicas)
                (map_to_list (persistedSeqNos r)) tt r) as ->.
  { subst x. unfold observeTick, bind, get, Range. by destruct (rangeEntries _ _ _ r). }
  destruct (Hall Hc Hg Hok) as [Hret Hcov]. split; [done|].
  intros vbID replicas k s Hm Hk Ha. eapply Hcov; [|done|done].
  by apply elem_of_map_to_list.
Qed.

End ObserveTick.

(** ** What every operation leaves alone *)

Lemma observeTick_state issue groupID r :
  state_of (observeTick issue groupID r) = r.
Proof.
  destruct (tickRange_spec issue groupID (map_to_list (persistedSeqNos r)) r)
    as (Hst & _).
  unfold observeTick, bind, get, Range. simpl in *.
  by destruct (rangeEntries _ _ _ r).
Qed.

Section OperationFrames.

Context {B : Type} (proj : rollbackMitigation → B).

Hypothesis proj_persistedSeqNos : ∀ m r, proj (set_persistedSeqNos m r) = proj r.
Hypothesis proj_activeGroupID : ∀ g r, proj (set_activeGroupID g r) = proj r.
Hypothesis proj_vbUUIDMap : ∀ m r, proj (set_vbUUIDMap m r) = proj r.
Hypothesis proj_observeTimer : ∀ b r, proj (set_observeTimer b r) = proj r.
Hypothesis proj_configWatchTimer : ∀ b r, proj (set_configWatchTimer b r) = proj r.
Hypothesis proj_observers : ∀ n r, proj (set_observers n r) = proj r.

Lemma preserves_loadVbUUIDMap G : preserves proj (loadVbUUIDMap G).
Proof.
  unfold loadVbUUIDMap. apply preserves_bind; [apply preserves_get|intros r0].
  apply preserves_Range. intros k v s. unfold loadVbUUIDEntry.
  destruct (G k) as [err|[|first rest]]; try apply preserves_panic.
  apply preserves_bind; [|intros _].
  - apply preserves_modify. intros r. apply proj_vbUUIDMap.
  - apply preserves_bind; [apply preserves_emit|intros _; apply preserves_ret].
Qed.

Lemma preserves_startObserveInit G : preserves proj (startObserveInit G).
Proof.
  unfold startObserveInit.
  apply preserves_bind; [apply preserves_modify; intros; apply proj_vbUUIDMap|intros _].
  apply preserves_bind; [apply preserves_loadVbUUIDMap|intros _].
  apply preserves_bind; [apply preserves_modify; intros; apply proj_observeTimer|intros _].
  apply preserves_modify. intros. apply proj_observers.
Qed.

Lemma preserves_observeCallback vbID replica groupID vbUUID0 res :
  preserves proj (observeCallback vbID replica groupID vbUUID0 res).
Proof.
  unfold observeCallback. apply preserves_bind; [apply preserves_get|intros r0].
  destruct (_ || _); [apply preserves_emit|].
  destruct res as [err|result].
  { destruct (errors_Is _ _); [apply preserves_emit|apply preserves_panic]. }
  apply preserves_bind; [|intros _].
  { case_bool_decide; [apply preserves_ret|apply preserves_emit]. }
  destruct (_ >? _); [|apply preserves_emit].
  destruct (if replica <? 0 then _ else _); [|apply preserves_panic].
  apply preserves_bind; [by apply preserves_storeReplicas|intros _].
  apply preserves_bind; [by apply preserves_getMinSeqNo|intros minSeqNo].
  apply preserves_bind; [apply preserves_emit|intros _].
  destruct (negb _); [|apply preserves_ret].
  apply preserves_modify. intros. apply proj_vbUUIDMap.
Qed.

Lemma preserves_observeTick issue groupID : preserves proj (observeTick issue groupID).
Proof.
  intros r. by rewrite observeTick_state.
Qed.

Lemma preserves_configWatchInit : preserves proj configWatchInit.
Proof. apply preserves_modify. intros. apply proj_configWatchTimer. Qed.

End OperationFrames.

(** What the operations other than [Stop] leave alone. *)
Lemma preserves_run_but_Stop {B} (proj : rollbackMitigation → B) op :
  (∀ m r, proj (set_persistedSeqNos m r) = proj r) →
  (∀ g r, proj (set_activeGroupID g r) = proj r) →
  (∀ m r, proj (set_vbUUIDMap m r) = proj r) →
  (∀ b r, proj (set_observeTimer b r) = proj r) →
  (∀ b r, proj (set_configWatchTimer b r) = proj r) →
  (∀ c r, proj (set_configSnapshot c r) = proj r) →
  (∀ n r, proj (set_observers n r) = proj r) →
  op ≠ OpStop → preserves proj (run op).
Proof.
  intros Hp Hg Hu Ho Hw Hc Hn Hop. destruct op; simpl; [| | | | | |done].
  - unfold Start. apply preserves_bind; [apply preserves_emit|intros _].
    apply preserves_bind.
    { assert (∀ result, preserves proj (firstConfigCallback result)) as Hcb.
      { intros [snapshot|]; [|apply preserves_panic].
        apply preserves_modify. intros. apply Hc. }
      unfold waitFirstConfig. destruct first.
      - apply preserves_ret.
      - apply preserves_bind; [apply Hcb|intros; apply preserves_ret].
      - apply preserves_bind; [apply Hcb|intros; apply preserves_block]. }
    intros [e|].
    + apply preserves_bind; [apply preserves_emit|intros; apply preserves_panic].
    + apply preserves_bind; [by apply preserves_reconfigure|intros; apply preserves_emit].
  - by apply preserves_configWatchInit.
  - unfold configWatch. apply preserves_bind; [apply preserves_get|intros r0].
    destruct res as [err|snapshot]; [apply preserves_ret|].
    destruct (match configSnapshot r0 with Some _ => _ | None => _ end);
      [|apply preserves_ret].
    apply preserves_bind; [|intros _; by apply preserves_reconfigure].
    apply preserves_modify. intros. apply Hc.
  - by apply preserves_startObserveInit.
  - by apply preserves_observeTick.
  - by apply preserves_observeCallback.
Qed.

(** [Stop], step by step: [closed] is set first; where the handshake is
    not answered it is left waiting there, and otherwise it goes on to
    the config watch ticker and returns. *)
Lemma Stop_eq r :
  Stop r =
    if observerAnswers r then
      Ret tt (observerClosed (set_closed true r))
          ((if observeTimer r
            then [StopObserver; Log LDebug "observe close triggered"] else []) ++
           (if configWatchTimer r then [StopConfigWatch] else []) ++
           [Log LInfo "rollback mitigation stopped"])
    else Blocked (set_closed true r) [StopObserver].
Proof.
  unfold Stop, observerAnswers, observerClosed.
  unfold bind at 1. unfold modify at 1. unfold bind at 1. unfold get at 1.
  cbn [after observeTimer set_closed].
  destruct (observeTimer r) eqn:Ht.
  - unfold bind at 1. rewrite closeObserver_eq. cbn [observers set_closed].
    destruct (observers r) as [|n] eqn:Hn; [done|].
    unfold bind, emit, ret. simpl. by destruct (configWatchTimer r).
  - unfold bind, emit, ret. simpl. by destruct (configWatchTimer r).
Qed.

Lemma preserves_Stop {B} (proj : rollbackMitigation → B) :
  (∀ b r, proj (set_closed b r) = proj r) →
  (∀ n r, proj (set_observers n r) = proj r) → preserves proj Stop.
Proof.
  intros Hc Hn. unfold Stop.
  apply preserves_bind; [apply preserves_modify; intros; apply Hc|intros _].
  apply preserves_bind; [apply preserves_get|intros r0].
  apply preserves_bind;
    [destruct (observeTimer r0); [by apply preserves_closeObserver|apply preserves_ret]
    |intros _].
  apply preserves_bind; [destruct (configWatchTimer r0); frame_steps|intros _].
  apply preserves_emit.
Qed.

Lemma preserves_runAll {B} (proj : rollbackMitigation → B) ops :
  Forall (λ op, preserves proj (run op)) ops → preserves proj (runAll ops).
Proof.
  induction 1 as [|op ops Hop _ IH]; simpl; [apply preserves_ret|].
  by apply preserves_bind.
Qed.

Lemma Stop_or_not op : op = OpStop ∨ op ≠ OpStop.
Proof. destruct op; (by left) || (by right). Qed.

(** X11.  Over any sequence of operations the vBuckets the subsystem was
    constructed for stay the same, and the closed flag, once set, is never
    cleared. *)
Theorem vbIds_fixed_closed_kept ops r :
  vbIds (state_of (runAll ops r)) = vbIds r ∧
  (closed r = true → closed (state_of (runAll ops r)) = true).
Proof.
  split.
  - apply (preserves_runAll vbIds). apply Forall_forall. intros op _.
    destruct (Stop_or_not op) as [->|Hne].
    + by apply preserves_Stop.
    + by apply preserves_run_but_Stop.
  - revert r. induction ops as [|op ops IH]; intros r Hc; simpl; [done|].
    unfold bind.
    assert (closed (state_of (run op r)) = true) as Hc1.
    { destruct (Stop_or_not op) as [->|Hne].
      - simpl. rewrite Stop_eq. destruct (observerAnswers r); [|done].
        unfold observerClosed. simpl. by destruct (observeTimer r).
      - by rewrite (preserves_run_but_Stop closed op). }
    destruct (run op r) as [[] r1 o1|p r1 o1|r1 o1]; simpl in *; [|done|done].
    rewrite state_of_after. by apply IH.
Qed.

(** ** Within one generation *)

Lemma absentFlags_write (m : gmap Z (list vbUUIDAndSeqNo)) r vbID replicas i slot slot' :
  persistedSeqNos r !! vbID = Some replicas → replicas !! i = Some slot →
  absent slot' = absent slot →
  absentFlags (set_persistedSeqNos (<[vbID := <[i := slot']> replicas]> (persistedSeqNos r)) r)
  = absentFlags r.
Proof.
  intros Hm Hi Ha. unfold absentFlags. simpl.
  rewrite fmap_insert, list_fmap_insert, Ha.
  rewrite (list_insert_id (absent <$> replicas) i (absent slot))
    by (by rewrite list_lookup_fmap, Hi).
  apply insert_id. by rewrite lookup_fmap, Hm.
Qed.

Lemma preserves_absentFlags_observeCallback vbID replica groupID vbUUID0 res :
  preserves absentFlags (observeCallback vbID replica groupID vbUUID0 res).
Proof.
  intros r.
  destruct (closed r || negb (activeGroupID r =? groupID)) eqn:Hstale.
  { unfold observeCallback, bind, get. by rewrite Hstale. }
  apply orb_false_iff in Hstale as [Hc Hg].
  apply negb_false_iff, Z.eqb_eq in Hg.
  destruct res as [err|result].
  { unfold observeCallback, bind, get. rewrite Hc, Hg, Z.eqb_refl. simpl.
    by destruct (errors_Is err ErrTemporaryFailure). }
  destruct (Z.le_gt_cases (Z.of_nat (length (replicasOf r vbID))) replica) as [Hge|Hlt].
  { by rewrite observeCallback_beyond. }
  destruct (Z.lt_ge_cases replica 0) as [Hneg|Hpos].
  { by destruct (observeCallback_negative vbID replica groupID vbUUID0 result r
                   Hc Hg Hneg) as (logs & ->). }
  unfold replicasOf in Hlt.
  destruct (persistedSeqNos r !! vbID) as [replicas|] eqn:Hm; [|simpl in Hlt; lia].
  simpl in Hlt.
  destruct (lookup_lt_is_Some_2 replicas (Z.to_nat replica)) as [slot Hslot]; [lia|].
  destruct (observeCallback_answer vbID replica groupID vbUUID0 result r replicas slot
              Hc Hg Hm Hpos Hslot) as (v & logs & _ & _ & ->).
  simpl. unfold followAnswer.
  assert (absentFlags (recordAnswer vbID replica result r replicas slot) = absentFlags r)
    as <- by (by apply (absentFlags_write (persistedSeqNos r) r vbID replicas
                          (Z.to_nat replica) slot)).
  by destruct (decide _).
Qed.

(** What an operation that does not enter [reconfigure] leaves alone. *)
Lemma within_generation_run op r :
  within_generation op →
  let r' := state_of (run op r) in
  absentFlags r' = absentFlags r ∧ activeGroupID r' = activeGroupID r ∧
  configSnapshot r' = configSnapshot r.
Proof.
  intros Hop r'. subst r'. split_and!.
  - destruct op; simpl in *; [done| |done| | | |].
    + done.
    + by apply (preserves_startObserveInit absentFlags).
    + by rewrite observeTick_state.
    + apply preserves_absentFlags_observeCallback.
    + by apply (preserves_Stop absentFlags).
  - destruct op; simpl in *; [done| |done| | | |].
    + done.
    + apply quiet_startObserveInit.
    + by rewrite observeTick_state.
    + apply quiet_observeCallback.
    + apply quiet_Stop.
  - destruct op; simpl in *; [done| |done| | | |].
    + done.
    + by apply (preserves_startObserveInit configSnapshot).
    + by rewrite observeTick_state.
    + by apply (preserves_observeCallback configSnapshot).
    + by apply (preserves_Stop configSnapshot).
Qed.

(** X12.  Operations that do not enter [reconfigure] (observer set-up,
    ticks, callbacks, [Stop]) keep the generation's shape: which vBuckets
    have a vector, how long each vector is and which slots are absent, as
    well as the generation counter and the installed snapshot, are after
    any sequence of them what they were before. *)
Theorem generation_shape_fixed ops r :
  Forall within_generation ops →
  let r' := state_of (runAll ops r) in
  absentFlags r' = absentFlags r ∧ activeGroupID r' = activeGroupID r ∧
  configSnapshot r' = configSnapshot r.
Proof.
  intros Hops. revert r. induction Hops as [|op ops Hop _ IH]; intros r; [done|].
  simpl. unfold bind.
  pose proof (within_generation_run op r Hop) as Hrun. simpl in Hrun.
  destruct (run op r) as [[] r1 o1|p r1 o1|r1 o1]; simpl in *; [|done|done].
  specialize (IH r1). simpl in IH.
  destruct Hrun as (<- & <- & <-).
  by rewrite state_of_after.
Qed.

(** ** Stale ticks and callbacks *)

Lemma observeSlots_stale issue groupID vbID replicas : ∀ idx r,
  closed r = true ∨ groupID ≠ activeGroupID r →
  ∃ continue logs,
    observeSlots issue groupID vbID idx replicas r = Ret (tt, continue) r logs ∧
    Forall is_log logs.
Proof.
  induction replicas as [|s rest IH]; intros idx r Hstale; simpl.
  - exists true, []. split; [done|constructor].
  - destruct (IsAbsent s); [by apply IH|].
    unfold bind, get, emit, ret. simpl.
    assert ((closed r || negb (activeGroupID r =? groupID)) = true) as ->.
    { destruct Hstale as [->|Hne]; [done|].
      destruct (Z.eqb_spec (activeGroupID r) groupID); [congruence|].
      by rewrite orb_true_r. }
    simpl. eexists _, _. split; [done|]. by repeat constructor.
Qed.

Lemma tickRange_stale issue groupID (kvs : list (Z * list vbUUIDAndSeqNo)) r :
  closed r = true ∨ groupID ≠ activeGroupID r →
  ∃ logs,
    rangeEntries
      (λ vbID replicas (_ : unit), observeSlots issue groupID vbID 0 replicas)
      kvs tt r = Ret tt r logs ∧
    Forall is_log logs.
Proof.
  intros Hstale. induction kvs as [|[vbID replicas] kvs IH]; simpl.
  - exists []. split; [done|constructor].
  - destruct (observeSlots_stale issue groupID vbID replicas 0 r Hstale)
      as (continue & logs & Hrun & Hlogs).
    rewrite (bind_Ret _ _ _ _ _ _ Hrun). simpl.
    destruct continue.
    + destruct IH as (logs' & -> & Hlogs').
      exists (logs ++ logs'). split; [done|by apply Forall_app].
    + exists (logs ++ []). split; [done|]. by rewrite app_nil_r.
Qed.

Lemma stale_run op r :
  stale r op → ∃ logs, run op r = Ret tt r logs ∧ Forall is_log logs.
Proof.
  destruct op; simpl; try done.
  - intros Hstale.
    destruct (tickRange_stale issue groupID (map_to_list (persistedSeqNos r)) r Hstale)
      as (logs & Hrun & Hlogs).
    exists logs. split; [|done].
    unfold observeTick, bind, get, Range. by rewrite Hrun.
  - intros Hstale.
    exists [Log LDebug "closed(%v) or groupID(%v!=%v) changed on observe"].
    split; [|by repeat constructor].
    unfold observeCallback, bind, get.
    assert ((closed r || negb (activeGroupID r =? groupID)) = true) as ->; [|done].
    destruct Hstale as [->|Hne]; [done|].
    destruct (Z.eqb_spec (activeGroupID r) groupID); [congruence|].
    by rewrite orb_true_r.
Qed.

Lemma stale_operations_inert_aux ops r :
  Forall (stale r) ops →
  ∃ logs, runAll ops r = Ret tt r logs ∧ Forall is_log logs.
Proof.
  induction 1 as [|op ops Hop _ IH]; simpl.
  - exists []. split; [done|constructor].
  - destruct (stale_run op r Hop) as (l1 & Hrun & Hl1).
    destruct IH as (l2 & Hall & Hl2).
    rewrite (bind_Ret _ _ _ _ _ _ Hrun), Hall.
    exists (l1 ++ l2). split; [done|by apply Forall_app].
Qed.

(** X13.  Ticks and callbacks that find the subsystem closed, or that
    belong to a generation that is not the active one, are inert however
    many arrive and in whatever order: the sequence returns, the struct
    is as it was, and the only effects are log entries; nothing is
    published and no request is issued. *)
Theorem stale_operations_inert ops r :
  Forall (stale r) ops →
  ∃ logs, runAll ops r = Ret tt r logs ∧ Forall is_log logs.
Proof. apply stale_operations_inert_aux. Qed.

(** ** The start of an observer *)

(** X14.  When the client answers every vBucket that has a vector with a
    failover log that has a first entry, the start of [startObserve]
    returns with a [vbUUIDMap] made anew: it holds the first vbUUID of the
    failover log for exactly the vBuckets that have a vector and nothing
    of what it held before; the ticker is set, the goroutine is in its
    loop, and nothing else changes. *)
Theorem startObserveInit_fresh_map GetFailoverLogs r :
  (∀ vbID, is_Some (persistedSeqNos r !! vbID) →
           is_Some (firstVbUUID GetFailoverLogs vbID)) →
  ∃ m' out,
    startObserveInit GetFailoverLogs r
      = Ret tt (set_observers (S (observers r))
                  (set_observeTimer true (set_vbUUIDMap m' r))) out ∧
    Forall is_log out ∧
    ∀ vbID, m' !! vbID =
            if decide (is_Some (persistedSeqNos r !! vbID))
            then firstVbUUID GetFailoverLogs vbID else None.
Proof.
  intros Hgood.
  destruct (loadRange_returns GetFailoverLogs (map_to_list (persistedSeqNos r))
              (set_vbUUIDMap ∅ r)) as (m' & out & Hrun & Hm').
  { intros k Hk%elem_of_fst_map_to_list. by apply Hgood. }
  pose proof (emits_rangeEntries is_log (loadVbUUIDEntry GetFailoverLogs)
                (map_to_list (persistedSeqNos r)) tt) as Hlogs.
  specialize (Hlogs ltac:(intros k v s; unfold loadVbUUIDEntry;
                          destruct (GetFailoverLogs k) as [|[|]]; frame_steps)
                    (set_vbUUIDMap ∅ r)).
  rewrite Hrun in Hlogs. simpl in Hlogs.
  exists m', out. split_and!; [|done|].
  - unfold startObserveInit, loadVbUUIDMap, bind, modify, get, Range. simpl.
    rewrite Hrun. simpl. by rewrite app_nil_r.
  - intros vbID. rewrite Hm'. simpl.
    destruct (decide (is_Some (persistedSeqNos r !! vbID))) as [Hin|Hnin].
    + rewrite decide_True; [done|]. by apply elem_of_fst_map_to_list.
    + rewrite decide_False; [done|]. by rewrite elem_of_fst_map_to_list.
Qed.

(** ** configWatch after configWatch *)

Lemma not_strictlyNewer_trans a b c :
  ¬ strictlyNewer a b → ¬ strictlyNewer b c → ¬ strictlyNewer a c.
Proof. unfold strictlyNewer. lia. Qed.

(** X15.  After a tick of [configWatch] that fetched a snapshot and
    returned, a tick that fetches a snapshot that is not strictly newer
    than that one (the same snapshot again, say) changes nothing and has
    no effect: a topology is acted upon at most once. *)
Theorem configWatch_acts_once r snapshot snapshot' r1 out :
  configWatch (inr snapshot) r = Ret tt r1 out →
  ¬ strictlyNewer snapshot' snapshot →
  configWatch (inr snapshot') r1 = Ret tt r1 [].
Proof.
  intros Hfirst Hnot.
  assert (∃ installed, configSnapshot r1 = Some installed ∧
                       ¬ strictlyNewer snapshot installed) as (installed & Hinst & Hle).
  { pose proof (preserves_reconfigure configSnapshot ltac:(done) ltac:(done) ltac:(done)
                  (set_configSnapshot (Some snapshot) r)) as Hkeep.
    revert Hfirst. unfold configWatch, bind, get, modify, ret. simpl.
    destruct (configSnapshot r) as [installed|] eqn:Hr.
    - destruct (isConfigSnapshotNewerThan installed snapshot) eqn:Hnew.
      + destruct (reconfigure _) as [[] r2 o2| |]; [|done|done]. intros Heq.
        assert (r1 = r2) as -> by (simpl in Heq; congruence).
        exists snapshot. split; [done|]. unfold strictlyNewer. lia.
      + simpl. intros Heq. assert (r1 = r) as -> by congruence.
        exists installed. split; [done|].
        rewrite <- isConfigSnapshotNewerThan_strictlyNewer. congruence.
    - destruct (reconfigure _) as [[] r2 o2| |]; [|done|done]. intros Heq.
      assert (r1 = r2) as -> by (simpl in Heq; congruence).
      exists snapshot. split; [done|]. unfold strictlyNewer. lia. }
  unfold configWatch, bind, get, ret. rewrite Hinst.
  destruct (isConfigSnapshotNewerThan installed snapshot') eqn:Hnew; [|done].
  apply isConfigSnapshotNewerThan_strictlyNewer in Hnew.
  by destruct (not_strictlyNewer_trans snapshot' snapshot installed).
Qed.

(** ** kubernetes: the pod ordinal and the membership *)

Section KubernetesFacts.

Import Kubernetes.

Implicit Types (s pre suf : string) (c : Ascii.ascii).

Lemma LastIndexByte_none s c : LastIndexByte s c = -1 ↔ hasByte c s = false.
Proof.
  induction s as [|a rest IH]; simpl; [done|].
  destruct (Z.eqb_spec (LastIndexByte rest c) (-1)) as [Heq|Hne].
  - destruct (Ascii.eqb a c); simpl; [split; [lia|done]|]. tauto.
  - rewrite orb_false_iff. split; [|tauto].
    assert (-1 <= LastIndexByte rest c) as Hge.
    { clear. induction rest as [|b rest IH]; simpl; [lia|].
      destruct (_ =? -1); [destruct (Ascii.eqb b c); lia|lia]. }
    lia.
Qed.

Lemma LastIndexByte_ge s c : -1 <= LastIndexByte s c.
Proof.
  induction s as [|a rest IH]; simpl; [lia|].
  destruct (_ =? -1); [destruct (Ascii.eqb a c); lia|lia].
Qed.

(** The last occurrence splits the string: what follows it is free of
    the byte. *)
Lemma LastIndexByte_split s c :
  LastIndexByte s c ≠ -1 →
  hasByte c (sliceFrom (Z.to_nat (LastIndexByte s c + 1)) s) = false.
Proof.
  induction s as [|a rest IH]; simpl; [done|].
  pose proof (LastIndexByte_ge rest c) as Hge.
  destruct (Z.eqb_spec (LastIndexByte rest c) (-1)) as [Heq|Hne].
  - destruct (Ascii.eqb a c); [|done]. intros _. simpl.
    by apply LastIndexByte_none.
  - intros _. replace (Z.to_nat (1 + LastIndexByte rest c + 1))
      with (S (Z.to_nat (LastIndexByte rest c + 1))) by lia.
    simpl. by apply IH.
Qed.

Lemma LastIndexByte_app pre suf c :
  hasByte c suf = false →
  LastIndexByte (String.append pre (String c suf)) c = Z.of_nat (String.length pre).
Proof.
  intros Hsuf. induction pre as [|a pre IH]; simpl.
  - apply LastIndexByte_none in Hsuf. rewrite Hsuf. simpl.
    by rewrite Ascii.eqb_refl.
  - rewrite IH. destruct (Z.eqb_spec (Z.of_nat (String.length pre)) (-1)); lia.
Qed.

Lemma sliceFrom_app pre c suf :
  sliceFrom (S (String.length pre)) (String.append pre (String c suf)) = suf.
Proof. induction pre as [|a pre IH]; simpl; [by destruct suf|done]. Qed.

(** X16.  The pod ordinal is read from what follows the last ['-'] of
    the hostname: a hostname [pre-suf] whose [suf] has no ['-'] gives
    what [strconv.Atoi] makes of [suf], with [-1] beside an error; a
    hostname without any ['-'] is rejected without asking [Atoi]. *)
Theorem getPodOrdinalFromHostname_last_dash atoi :
  (∀ pre suf,
     hasByte dash suf = false →
     getPodOrdinalFromHostname atoi (inr (String.append pre (String dash suf))) =
       match atoi suf with
       | inl err => (-1, Some err)
       | inr podOrdinal => (podOrdinal, None)
       end) ∧
  (∀ hostname,
     hasByte dash hostname = false →
     getPodOrdinalFromHostname atoi (inr hostname) =
       (-1, Some (ErrOther "hostname is not in statefulSet format"))).
Proof.
  split.
  - intros pre suf Hsuf. unfold getPodOrdinalFromHostname.
    rewrite (LastIndexByte_app pre suf dash Hsuf).
    destruct (Z.eqb_spec (Z.of_nat (String.length pre)) (-1)) as [?|_]; [lia|].
    replace (Z.to_nat (Z.of_nat (String.length pre) + 1))
      with (S (String.length pre)) by lia.
    by rewrite sliceFrom_app.
  - intros hostname Hno. unfold getPodOrdinalFromHostname.
    apply LastIndexByte_none in Hno. by rewrite Hno.
Qed.

Lemma parseDigits_ge acc s n : 0 <= acc → parseDigits acc s = Some n → 0 <= n.
Proof.
  revert acc. induction s as [|a rest IH]; intros acc Hacc; simpl.
  - intros [= <-]. done.
  - unfold isDigit. destruct (Z.leb_spec 48 (Z.of_nat (Ascii.nat_of_ascii a)));
      simpl; [|done].
    destruct (Z.leb_spec (Z.of_nat (Ascii.nat_of_ascii a)) 57); [|done].
    apply IH. lia.
Qed.

(** Without a ['-'] in it, what [Atoi] accepts is a number that is not
    negative. *)
Lemma Atoi_no_dash s n :
  hasByte dash s = false → Atoi s = inr n → 0 <= n <= GoInt.max_int.
Proof.
  intros Hno.
  assert (∀ digits, match digits with
                    | EmptyString => inl (numError s)
                    | String _ _ =>
                        match parseDigits 0 digits with
                        | None => inl (numError s)
                        | Some m =>
                            if (GoInt.min_int <=? m) && (m <=? GoInt.max_int)
                            then inr m else inl (numError s)
                        end
                    end = inr n → 0 <= n <= GoInt.max_int) as Hcase.
  { intros digits. destruct digits as [|b digits]; [done|].
    destruct (parseDigits 0 (String b digits)) as [m|] eqn:Hm; [|done].
    apply parseDigits_ge in Hm; [|done].
    destruct (Z.leb_spec GoInt.min_int m); simpl; [|done].
    destruct (Z.leb_spec m GoInt.max_int); [|done].
    intros [= <-]. lia. }
  unfold Atoi. destruct s as [|a rest]; [done|].
  cbn [hasByte] in Hno. apply orb_false_iff in Hno as [Hd _]. rewrite Hd.
  destruct (Ascii.eqb a plus); [apply (Hcase rest)|apply (Hcase (String a rest))].
Qed.

Lemma getPodOrdinalFromHostname_ordinal_aux hostname podOrdinal err :
  getPodOrdinalFromHostname Atoi hostname = (podOrdinal, err) →
  match err with
  | Some _ => podOrdinal = -1
  | None => 0 <= podOrdinal <= GoInt.max_int
  end.
Proof.
  unfold getPodOrdinalFromHostname. destruct hostname as [e|h].
  { by intros [= <- <-]. }
  destruct (Z.eqb_spec (LastIndexByte h dash) (-1)) as [?|Hne].
  { by intros [= <- <-]. }
  pose proof (LastIndexByte_split h dash Hne) as Hsuf.
  destruct (Atoi (sliceFrom _ h)) as [e|n] eqn:Hatoi.
  { by intros [= <- <-]. }
  intros [= <- <-]. by apply (Atoi_no_dash _ n Hsuf).
Qed.

(** X17.  With Go's [Atoi], [getPodOrdinalFromHostname] gives [-1]
    exactly when it gives an error; an ordinal it gives without an error
    is not negative. *)
Theorem getPodOrdinalFromHostname_ordinal hostname podOrdinal err :
  getPodOrdinalFromHostname Atoi hostname = (podOrdinal, err) →
  match err with
  | Some _ => podOrdinal = -1
  | None => 0 <= podOrdinal <= GoInt.max_int
  end.
Proof. apply getPodOrdinalFromHostname_ordinal_aux. Qed.

(** X18.  When [NewStatefulSetMembership] returns, the membership holds
    the configured total, and a member number that is the pod ordinal
    plus one and at most the total; the member number is at least 1,
    except that the ordinal [max_int] wraps it around to [min_int]. *)
Theorem NewStatefulSetMembership_bounds hostname totalMembers (m : statefulSetMembership) :
  NewStatefulSetMembership Atoi hostname totalMembers = Built m →
  ∃ podOrdinal,
    getPodOrdinalFromHostname Atoi hostname = (podOrdinal, None) ∧
    MemberNumber (GetInfo m) = GoInt.wrap (podOrdinal + 1) ∧
    TotalMembers (GetInfo m) = totalMembers ∧
    MemberNumber (GetInfo m) <= totalMembers ∧
    (podOrdinal < GoInt.max_int → MemberNumber (GetInfo m) = podOrdinal + 1 ∧
                                  1 <= MemberNumber (GetInfo m)) ∧
    (podOrdinal = GoInt.max_int → MemberNumber (GetInfo m) = GoInt.min_int).
Proof.
  unfold NewStatefulSetMembership.
  destruct (getPodOrdinalFromHostname Atoi hostname) as [n [e|]] eqn:Hord; [done|].
  pose proof (getPodOrdinalFromHostname_ordinal_aux hostname n None Hord) as Hn.
  simpl in Hn.
  destruct (Z.gtb_spec (GoInt.wrap (n + 1)) totalMembers) as [?|Hle]; [done|].
  intros [= <-]. exists n. simpl. split_and!; try done.
  - intros Hlt. rewrite wrap_id; [lia|].
    unfold GoInt.in_range, GoInt.min_int, GoInt.max_int, GoInt.bits in *. lia.
  - intros ->. reflexivity.
Qed.

End KubernetesFacts.

(** ** The order of snapshots *)

(** X20.  [isConfigSnapshotNewerThan] is a strict total order on the
    versions of snapshots: no snapshot is newer than itself, of two
    snapshots at most one is newer than the other and exactly when their
    versions differ one is, and newer than newer is newer. *)
Theorem isConfigSnapshotNewerThan_strict_order :
  (∀ a, isConfigSnapshotNewerThan a a = false) ∧
  (∀ a b, isConfigSnapshotNewerThan a b = true → isConfigSnapshotNewerThan b a = false) ∧
  (∀ a b c, isConfigSnapshotNewerThan a b = true → isConfigSnapshotNewerThan b c = true →
            isConfigSnapshotNewerThan a c = true) ∧
  (∀ a b, isConfigSnapshotNewerThan a b = false → isConfigSnapshotNewerThan b a = false →
          revEpoch a = revEpoch b ∧ revID a = revID b).
Proof.
  assert (∀ a b, isConfigSnapshotNewerThan a b = false ↔ ¬ strictlyNewer b a) as Hfalse.
  { intros a b. rewrite <- isConfigSnapshotNewerThan_strictlyNewer.
    by destruct (isConfigSnapshotNewerThan a b). }
  split_and!.
  - intros a. apply Hfalse. unfold strictlyNewer. lia.
  - intros a b Hab%isConfigSnapshotNewerThan_strictlyNewer. apply Hfalse.
    unfold strictlyNewer in *. lia.
  - intros a b c Hab%isConfigSnapshotNewerThan_strictlyNewer
                 Hbc%isConfigSnapshotNewerThan_strictlyNewer.
    apply isConfigSnapshotNewerThan_strictlyNewer. unfold strictlyNewer in *. lia.
  - intros a b Hab%Hfalse Hba%Hfalse. unfold strictlyNewer in *. lia.
Qed.

(** * More properties at concrete inputs *)

Section MoreInstances.

Import Scenarios MoreScenarios Kubernetes.

Ltac slots :=
  repeat match goal with
         | H : _ ∈ _ :: _ |- _ => apply elem_of_cons in H as [->|H]
         | H : _ ∈ [] |- _ => by apply elem_of_nil in H
         end.

Lemma getMinSeqNo_below_present_witness :
  ∃ v out,
    getMinSeqNo 42 r_divergent = Ret v r_divergent out ∧
    0 <= v ∧ ∀ s, s ∈ divergent → present s → v <= seqNo s.
Proof.
  destruct (getMinSeqNo_below_present r_divergent 42) as (v & out & Hrun & _ & Hb).
  exists v, out. split; [exact Hrun|]. apply Hb.
  intros s Hs _. change (replicasOf r_divergent 42) with divergent in Hs.
  unfold divergent in Hs. slots; simpl; lia.
Defined.

Lemma getMinSeqNo_ignores_absent_witness :
  ∃ v out,
    getMinSeqNo 42 absent_first = Ret v absent_first out ∧
    getMinSeqNo 42 absent_middle = Ret v absent_middle out.
Proof. apply (getMinSeqNo_ignores_absent absent_first absent_middle 42). reflexivity. Defined.

Lemma reset_allocates_witness :
  ∃ m',
    reset r_convergent = Ret tt (set_persistedSeqNos m' r_convergent) [] ∧
    (∀ vb, vb ∈ vbIds r_convergent → m' !! vb = Some (replicate 3 zeroSlot)) ∧
    (∀ vb, vb ∉ vbIds r_convergent → m' !! vb = None).
Proof.
  destruct (reset_allocates r_convergent snapshot3 2) as [Hfits _].
  - reflexivity.
  - reflexivity.
  - unfold GoInt.in_range, GoInt.min_int, GoInt.max_int, GoInt.bits. simpl. lia.
  - apply Hfits; [lia|]. unfold pointerSize, maxAlloc. simpl. lia.
Defined.

Lemma reconfigure_one_observer_witness :
  activeGroupID (state_of (reconfigure r0)) = GoInt.incr (activeGroupID r0) ∧
  observers (state_of (reconfigure r0)) = 0%nat ∧
  reconfigure (set_observers 0 r0) = Blocked (set_observers 0 r0) [reconfigure_marker; StopObserver].
Proof.
  destruct (reconfigure_one_observer r0) as [_ Hanswered].
  destruct (Hanswered eq_refl) as (_ & Hg & Hobs & _).
  destruct (reconfigure_one_observer (set_observers 0 r0)) as [Hwaits _].
  split_and!; [exact Hg|exact Hobs|apply Hwaits; reflexivity].
Defined.

Lemma reconfigure_rebuilds_witness :
  ∃ m' out,
    reconfigure r_convergent =
      Ret tt (set_persistedSeqNos m' (advanced r_convergent)) out ∧
    (∀ vb, vb ∉ vbIds r_convergent → m' !! vb = None).
Proof.
  destruct (reconfigure_rebuilds r_convergent snapshot3 2) as (m' & out & Hrun & Hno & _).
  - reflexivity.
  - reflexivity.
  - reflexivity.
  - lia.
  - unfold pointerSize, maxAlloc. simpl. lia.
  - intros vb i _ _. reflexivity.
  - exists m', out. split; [exact Hrun|exact Hno].
Defined.

Lemma observeCallback_records_witness :
  ∃ v logs r2,
    observeCallback 42 1 1 0xBBBB (inr (mkObserveVbResult 120 0xAAAA)) r0
      = Ret tt r2 (logs ++ [Publish (mkPersistSeqNo 42 v)]).
Proof.
  destruct (observeCallback_records 42 1 1 0xBBBB (mkObserveVbResult 120 0xAAAA) r0
              (replicate 3 zeroSlot) zeroSlot)
    as (v & logs & _ & _ & Hrun); try reflexivity; [lia|].
  eexists v, logs, _. exact Hrun.
Defined.

Lemma observeCallback_publishes_lower_bound_witness :
  ∃ v,
    publishedEvents
      (effects_of
         (observeCallback 42 1 1 0xAAAA (inr (mkObserveVbResult 130 0xAAAA)) r_convergent))
      = [mkPersistSeqNo 42 v] ∧
    0 <= v <= 130.
Proof.
  destruct (observeCallback_publishes_lower_bound 42 1 1 0xAAAA
              (mkObserveVbResult 130 0xAAAA) r_convergent convergent
              (mkSlot 0xAAAA 120 false))
    as (v & Hev & Hv & _); try reflexivity; try (simpl; lia).
  - intros s Hs _. unfold convergent in Hs. slots; simpl; lia.
  - exists v. split; [exact Hev|exact Hv].
Defined.

Lemma observeCallback_unknown_replica_witness :
  observeCallback 42 5 1 0xAAAA (inr (mkObserveVbResult 130 0xAAAA)) r0 =
    Ret tt r0 [Log LError "replica: %v not found"].
Proof.
  apply (observeCallback_unknown_replica 42 5 1 0xAAAA (mkObserveVbResult 130 0xAAAA) r0);
    [reflexivity|reflexivity|]. by vm_compute.
Defined.

Lemma observeCallback_warm_up_witness :
  publishedEvents
    (effects_of (observeCallback 42 0 1 0xAAAA (inr (mkObserveVbResult 100 0xAAAA)) r0))
    = [mkPersistSeqNo 42 0].
Proof.
  apply (observeCallback_warm_up 42 0 1 0xAAAA (mkObserveVbResult 100 0xAAAA) r0
           (replicate 3 zeroSlot) zeroSlot 1 zeroSlot); try reflexivity;
    try (simpl; lia).
  intros s Hs _. simpl in Hs. slots; simpl; lia.
Defined.

Lemma observeTick_observes_present_only_witness :
  state_of (observeTick busy 1 absent_first) = absent_first.
Proof. apply (observeTick_observes_present_only busy 1 absent_first). Defined.

Lemma observeTick_observes_every_present_witness :
  returned (observeTick busy 1 absent_first) = true ∧
  (42, 2, 0xAAAA) ∈ observed (effects_of (observeTick busy 1 absent_first)).
Proof.
  destruct (observeTick_observes_every_present busy 1 absent_first) as [Hret Hall].
  - reflexivity.
  - reflexivity.
  - intros vbID replica err. unfold busy. destruct (replica =? 1); [|done].
    by intros [= <-].
  - split; [exact Hret|].
    apply (Hall 42 [mkSlot 7 7 true; mkSlot 0xAAAA 100 false; mkSlot 0xAAAA 120 false]
             2%nat (mkSlot 0xAAAA 120 false)); reflexivity.
Defined.

Lemma vbIds_fixed_closed_kept_witness :
  vbIds (state_of (runAll two_reconfigurations r0)) = [42] ∧
  closed (state_of (runAll late (set_closed true r0))) = true.
Proof.
  split.
  - apply (vbIds_fixed_closed_kept two_reconfigurations r0).
  - apply (vbIds_fixed_closed_kept late (set_closed true r0)). reflexivity.
Defined.

Lemma generation_shape_fixed_witness :
  absentFlags (state_of (runAll one_generation absent_first)) = absentFlags absent_first ∧
  activeGroupID (state_of (runAll one_generation absent_first)) = 1 ∧
  configSnapshot (state_of (runAll one_generation absent_first)) = Some snapshot3.
Proof.
  apply (generation_shape_fixed one_generation absent_first).
  unfold one_generation. repeat constructor.
Defined.

Lemma stale_operations_inert_witness :
  ∃ logs, runAll late r0 = Ret tt r0 logs ∧ Forall is_log logs.
Proof.
  apply (stale_operations_inert late r0). unfold late.
  repeat (apply Forall_cons_2; [right; simpl; lia|]). apply Forall_nil_2.
Defined.

Lemma startObserveInit_fresh_map_witness :
  ∃ m' out,
    startObserveInit failoverLogs r0
      = Ret tt (set_observers 2 (set_observeTimer true (set_vbUUIDMap m' r0))) out ∧
    m' !! 42 = Some 0xBBBB ∧ m' !! 7 = None.
Proof.
  destruct (startObserveInit_fresh_map failoverLogs r0) as (m' & out & Hrun & _ & Hm').
  - intros vbID [replicas Hv]. destruct (decide (vbID = 42)) as [->|Hne].
    + by exists 0xBBBB.
    + unfold r0 in Hv. simpl in Hv. by rewrite lookup_singleton_ne in Hv.
  - exists m', out. split; [exact Hrun|]. rewrite !Hm'. split; reflexivity.
Defined.

Lemma configWatch_acts_once_witness :
  let r1 := state_of (configWatch (inr snapshot_newer) r0) in
  configWatch (inr snapshot_newer) r1 = Ret tt r1 [] ∧
  configWatch (inr snapshot3) r1 = Ret tt r1 [].
Proof.
  intros r1.
  assert (configWatch (inr snapshot_newer) r0
          = Ret tt r1 (effects_of (configWatch (inr snapshot_newer) r0))) as Hfirst
    by (vm_compute; reflexivity).
  split.
  - apply (configWatch_acts_once r0 snapshot_newer snapshot_newer r1 _ Hfirst).
    unfold strictlyNewer. simpl. lia.
  - apply (configWatch_acts_once r0 snapshot_newer snapshot3 r1 _ Hfirst).
    unfold strictlyNewer. simpl. lia.
Defined.

Lemma isConfigSnapshotNewerThan_strict_order_witness :
  isConfigSnapshotNewerThan snapshot_newer snapshot3 = false.
Proof.
  destruct isConfigSnapshotNewerThan_strict_order as (_ & Hasym & _).
  apply Hasym. reflexivity.
Defined.

Lemma getPodOrdinalFromHostname_last_dash_witness :
  getPodOrdinalFromHostname Atoi (inr "dcp-consumer-12") = (12, None) ∧
  getPodOrdinalFromHostname Atoi (inr "localhost")
    = (-1, Some (ErrOther "hostname is not in statefulSet format")).
Proof.
  destruct (getPodOrdinalFromHostname_last_dash Atoi) as [Hsplit Hnone]. split.
  - apply (Hsplit "dcp-consumer" "12"). reflexivity.
  - apply Hnone. reflexivity.
Defined.

Lemma getPodOrdinalFromHostname_ordinal_witness : 0 <= 12 <= GoInt.max_int.
Proof.
  apply (getPodOrdinalFromHostname_ordinal (inr "dcp-consumer-12") 12 None).
  reflexivity.
Defined.

Lemma NewStatefulSetMembership_bounds_witness :
  ∃ podOrdinal,
    getPodOrdinalFromHostname Atoi (inr "dcp-2") = (podOrdinal, None) ∧
    MemberNumber (mkModel 3 3) = GoInt.wrap (podOrdinal + 1).
Proof.
  destruct (NewStatefulSetMembership_bounds (inr "dcp-2") 3 (mkMembership (mkModel 3 3)))
    as (n & Hord & Hm & _); [reflexivity|].
  exists n. split; [exact Hord|exact Hm].
Defined.

(** The ordinal [max_int] is accepted and wraps the member number. *)
Example member_number_wraps :
  NewStatefulSetMembership Atoi (inr "dcp-9223372036854775807") 3
    = Built (mkMembership (mkModel GoInt.min_int 3)).
Proof. reflexivity. Qed.

Example hostnames :
  getPodOrdinalFromHostname Atoi (inr "a-b--7") = (7, None) ∧
  getPodOrdinalFromHostname Atoi (inr "dcp-+7") = (7, None) ∧
  fst (getPodOrdinalFromHostname Atoi (inr "dcp-")) = -1 ∧
  fst (getPodOrdinalFromHostname Atoi (inr "dcp-7a")) = -1 ∧
  fst (getPodOrdinalFromHostname Atoi (inr "dcp-9223372036854775808")) = -1.
Proof. split_and!; reflexivity. Qed.

End MoreInstances.

(** ** After Stop *)

Ltac slots_in H :=
  repeat (apply elem_of_cons in H as [H|H]; [discriminate H|]);
  by apply elem_of_nil in H.

(** X21.  [Stop] sets [closed] before anything else.  It returns exactly
    where the stop handshake is answered (there is no ticker, or an
    observer is in its loop): then the observer that answered is gone,
    the observer was signalled exactly when the ticker exists and the
    config watch ticker was stopped exactly when it exists.  Where the
    ticker exists and no observer is in its loop, as after an earlier
    [Stop], it is left waiting at the handshake, the config watch ticker
    not yet stopped.  Either way it publishes nothing and issues no
    request, and on the struct it leaves, whatever ticks and callbacks
    arrive, of whatever generation, the struct stays as it is, nothing is
    published and no request is issued. *)
Theorem Stop_silences ops r :
  Forall tick_or_callback ops →
  let x := Stop r in
  closed (state_of x) = true ∧
  returned x = observerAnswers r ∧
  (observerAnswers r = false → x = Blocked (set_closed true r) [StopObserver]) ∧
  (observerAnswers r = true →
   state_of x = observerClosed (set_closed true r) ∧
   (StopObserver ∈ effects_of x ↔ observeTimer r = true) ∧
   (StopConfigWatch ∈ effects_of x ↔ configWatchTimer r = true)) ∧
  publishedEvents (effects_of x) = [] ∧
  observed (effects_of x) = [] ∧
  ∃ logs, runAll ops (state_of x) = Ret tt (state_of x) logs ∧ Forall is_log logs.
Proof.
  intros Hops x.
  assert (closed (state_of x) = true) as Hclosed.
  { subst x. rewrite Stop_eq. destruct (observerAnswers r); [|done].
    unfold observerClosed. simpl. by destruct (observeTimer r). }
  assert (Forall (stale (state_of x)) ops) as Hstale.
  { eapply Forall_impl; [done|]. intros op Hop. destruct op; try done; by left. }
  split_and!; [done| | | | | |by apply stale_operations_inert_aux];
    subst x; rewrite Stop_eq; destruct (observerAnswers r); try done.
  - intros _. split_and!; [done| |]; cbn [effects_of].
    + split.
      * destruct (observeTimer r); [done|]. intros Hin.
        destruct (configWatchTimer r); simpl in Hin; slots_in Hin.
      * intros ->. by left.
    + split.
      * destruct (configWatchTimer r); [done|]. intros Hin.
        destruct (observeTimer r); simpl in Hin; slots_in Hin.
      * intros ->. destruct (observeTimer r); simpl; [do 2 right; by left|by left].
  - cbn [effects_of]. by destruct (observeTimer r), (configWatchTimer r).
  - cbn [effects_of]. by destruct (observeTimer r), (configWatchTimer r).
Qed.

Lemma Stop_silences_witness :
  let x := Stop Scenarios.r0 in
  closed (state_of x) = true ∧
  returned x = true ∧
  ∃ logs, runAll MoreScenarios.late (state_of x) = Ret tt (state_of x) logs ∧
          Forall is_log logs.
Proof.
  destruct (Stop_silences MoreScenarios.late Scenarios.r0)
    as (Hclosed & Hret & _ & _ & _ & _ & Hinert).
  - unfold MoreScenarios.late.
    repeat (apply Forall_cons_2; [exact I|]). apply Forall_nil_2.
  - split_and!; [exact Hclosed|exact Hret|exact Hinert].
Defined.

(** A second [Stop] finds the ticker of the observer that the first one
    has sent away, and is left waiting at the handshake. *)
Example Stop_twice_waits :
  let r := state_of (runAll [OpStart (Scenarios.delivers Scenarios.snapshot3);
                             OpStartObserveInit Scenarios.failoverLogs;
                             OpStop] (NewRollbackMitigation [42])) in
  observerAnswers r = false ∧ Stop r = Blocked r [StopObserver].
Proof. vm_compute. split; reflexivity. Qed.

(** An agent that answers the wait for the first snapshot with an error
    hands the callback a nil result, and what [Start] comes to is the
    nil dereference of line 335; an agent that runs the callback before
    its call returns leaves [Start] waiting on the channel. *)
Example Start_error_in_callback :
  Start (Delivered None (Some (ErrOther "timeout"))) (NewRollbackMitigation [42])
    = Panicked (PanicRuntime "nil pointer dereference") (NewRollbackMitigation [42])
        [Log LInfo "rollback mitigation will start with %v interval"] ∧
  Start (DeliveredInline (Some (Some Scenarios.snapshot3)) None) (NewRollbackMitigation [42])
    = Blocked (set_configSnapshot (Some Scenarios.snapshot3) (NewRollbackMitigation [42]))
        [Log LInfo "rollback mitigation will start with %v interval"].
Proof. split; reflexivity. Qed.
